(** * EC-main: delivery-note classification and confirmation-of-receipt grouping

    A shallow embedding of the decision logic of [app.js] (delivery-note
    validation) and [CR.js] (token normalisation, identifier location, page
    grouping, stamp/signature decision table), followed by the properties
    proved about it.

    JavaScript strings are sequences of UTF-16 code units; they are embedded
    as [list N], one number per code unit.  Arrays are lists in push order,
    a [Set] of strings is a [gset], an object used as a dictionary is a
    [gmap] (or an association list where its iteration order matters). *)

From Stdlib Require Import NArith ZArith List Lia Bool String Ascii DecimalString
  Sorted.
From stdpp Require Import gmap list.
Import ListNotations.

(** ** JavaScript strings *)

Module JS.

(** An ASCII literal as a JavaScript string. *)
Definition js (s : string) : list N :=
  map N_of_ascii (list_ascii_of_string s).

(** [\d] without the unicode flag: exactly [0-9]. *)
Definition isDigit (c : N) : bool := (48 <=? c)%N && (c <=? 57)%N.

(** [\s]: the ECMAScript WhiteSpace and LineTerminator code units. *)
Definition isSpace (c : N) : bool :=
  ((9 <=? c)%N && (c <=? 13)%N) || (c =? 32)%N || (c =? 160)%N
  || (c =? 5760)%N || ((8192 <=? c)%N && (c <=? 8202)%N)
  || (c =? 8232)%N || (c =? 8233)%N || (c =? 8239)%N || (c =? 8287)%N
  || (c =? 12288)%N || (c =? 65279)%N.

(** [s.replace(/[class]/g, r)] for a one-character replacement. *)
Definition replaceClass (p : N -> bool) (r : N) (s : list N) : list N :=
  map (fun c => if p c then r else c) s.

(** [s.replace(/[class]+/g, '')] and [s.replace(/[class]/g, '')]. *)
Definition removeClass (p : N -> bool) (s : list N) : list N :=
  List.filter (fun c => negb (p c)) s.

(** [s.replace(/^0+/, '')]. *)
Fixpoint stripLeadingZeros (s : list N) : list N :=
  match s with
  | c :: rest => if (c =? 48)%N then stripLeadingZeros rest else s
  | [] => []
  end.

(** [/^\d+$/.test(s)]. *)
Definition isPureDigits (s : list N) : bool :=
  negb (Nat.eqb (length s) 0) && forallb isDigit s.

(** [s.startsWith('0')]. *)
Definition startsWithZero (s : list N) : bool :=
  match s with
  | c :: _ => (c =? 48)%N
  | [] => false
  end.

(** [s[0]]: a one-character string, or [undefined] on the empty string. *)
Definition charAt0 (s : list N) : option (list N) :=
  match s with
  | c :: _ => Some [c]
  | [] => None
  end.

(** Template-literal rendering of a non-negative integer. *)
Definition numToString (n : nat) : list N :=
  js (NilZero.string_of_uint (Nat.to_uint n)).

(** String equality [a === b]. *)
Definition streq (a b : list N) : bool := bool_decide (a = b).

(** [haystack.includes(needle)]. *)
Fixpoint isPrefixOf (p s : list N) : bool :=
  match p, s with
  | [], _ => true
  | a :: p', b :: s' => (a =? b)%N && isPrefixOf p' s'
  | _ :: _, [] => false
  end.

Fixpoint includes (s needle : list N) : bool :=
  isPrefixOf needle s ||
  match s with
  | [] => false
  | _ :: s' => includes s' needle
  end.

(** Truthiness of a value that is a string or [null]/[undefined]: only a
    non-empty string is truthy. *)
Definition truthy (d : option (list N)) : bool :=
  match d with
  | Some (_ :: _) => true
  | _ => false
  end.

End JS.

(** ** CR.js: token normaliser and identifier shapes *)

Module Token.
Import JS.

(** [[\s\-\.\,\_]]. *)
Definition isSeparator (c : N) : bool :=
  isSpace c || (c =? 45)%N || (c =? 46)%N || (c =? 44)%N || (c =? 95)%N.

Definition isOQ (c : N) : bool := (c =? 79)%N || (c =? 81)%N.
Definition isIL (c : N) : bool :=
  (c =? 73)%N || (c =? 76)%N || (c =? 124)%N || (c =? 93)%N || (c =? 91)%N.
Definition isS (c : N) : bool := (c =? 83)%N || (c =? 115)%N || (c =? 36)%N.
Definition isB (c : N) : bool := (c =? 66)%N.
Definition isG (c : N) : bool := (c =? 71)%N.
Definition isZ (c : N) : bool := (c =? 90)%N.
Definition notDigit (c : N) : bool := negb (isDigit c).

Section WithUpperCase.

(** [String.prototype.toUpperCase] is the host's Unicode mapping; it is a
    parameter of the embedding. *)
Variable toUpperCase : list N -> list N.

Definition normalizeToken (raw : list N) : list N :=
  match raw with
  | [] => []
  | _ =>
    let s := toUpperCase
               (removeClass isSeparator
                  (replaceClass (fun c => (c =? 160)%N) 32%N raw)) in
    removeClass notDigit
      (replaceClass isZ 50%N
         (replaceClass isG 57%N
            (replaceClass isB 56%N
               (replaceClass isS 53%N
                  (replaceClass isIL 49%N
                     (replaceClass isOQ 48%N s))))))
  end.

End WithUpperCase.

(** [toUpperCase] restricted to the ASCII letters, an instance of the
    parameter that agrees with the host on ASCII input. *)
Definition asciiToUpperCase (s : list N) : list N :=
  map (fun c => if (97 <=? c)%N && (c <=? 122)%N then (c - 32)%N else c) s.

(** [CONFIG.patterns.EP1 = /^1\d{7}$/] and [CONFIG.patterns.H01 = /^5\d{5}$/]. *)
Definition matchesEP1 (v : list N) : bool :=
  match v with
  | c :: rest => (c =? 49)%N && Nat.eqb (length rest) 7 && forallb isDigit rest
  | [] => false
  end.

Definition matchesH01 (v : list N) : bool :=
  match v with
  | c :: rest => (c =? 53)%N && Nat.eqb (length rest) 5 && forallb isDigit rest
  | [] => false
  end.

Definition isValidCR (value : list N) : bool :=
  matchesEP1 value || matchesH01 value.

Inductive CRType := EP1 | H01 | UNKNOWN.

Definition getCRType (value : list N) : CRType :=
  if matchesEP1 value then EP1
  else if matchesH01 value then H01
  else UNKNOWN.

End Token.

(** ** app.js: delivery-note validation *)

Module DeliveryNotes.
Import JS.

(** Entries of the [excluded] and [invalid] buckets. *)
Record Entry := mkEntry { value : list N; reason : list N }.

(** Entries of the [autoCorrections] log. *)
Record Correction := mkCorrection {
  original : list N;
  corrected : list N;
  confidence : list N;
  c_reason : list N
}.

(** Entries of the [duplicates] bucket. *)
Record Duplicate := mkDuplicate {
  d_value : list N;
  d_count : Z;
  d_reason : list N
}.

(** The object returned by [extractPotentialDeliveryNotes]. *)
Record ExtractionResult := mkExtraction {
  unique : list (list N);
  extractedDuplicates : list Duplicate;
  totalCount : Z;
  occurrenceCount : gmap (list N) Z
}.

(** The [results] object of [validateDeliveryNotes]. *)
Record Results := mkResults {
  accepted : list (list N);
  excluded : list Entry;
  invalid : list Entry;
  autoCorrections : list Correction;
  duplicates : list Duplicate;
  uniqueCount : nat;
  duplicateCount : Z;
  totalOccurrences : Z
}.

(** [results] together with the locals [seen], [tempAccepted] and
    [pending7Digit] that the loops of [validateDeliveryNotes] mutate. *)
Record State := mkState {
  results : Results;
  seen : gset (list N);
  tempAccepted : list (list N);
  pending7Digit : list (list N)
}.

Definition initialState (total : Z) : State :=
  mkState (mkResults [] [] [] [] [] 0 0%Z total) ∅ [] [].

Definition withResults (f : Results -> Results) (st : State) : State :=
  mkState (f (results st)) (seen st) (tempAccepted st) (pending7Digit st).

(** [results.accepted.push(x)] and its siblings. *)
Definition pushAccepted (x : list N) (r : Results) : Results :=
  mkResults (accepted r ++ [x]) (excluded r) (invalid r) (autoCorrections r)
    (duplicates r) (uniqueCount r) (duplicateCount r) (totalOccurrences r).

Definition pushExcluded (e : Entry) (r : Results) : Results :=
  mkResults (accepted r) (excluded r ++ [e]) (invalid r) (autoCorrections r)
    (duplicates r) (uniqueCount r) (duplicateCount r) (totalOccurrences r).

Definition pushInvalid (e : Entry) (r : Results) : Results :=
  mkResults (accepted r) (excluded r) (invalid r ++ [e]) (autoCorrections r)
    (duplicates r) (uniqueCount r) (duplicateCount r) (totalOccurrences r).

Definition pushAutoCorrection (c : Correction) (r : Results) : Results :=
  mkResults (accepted r) (excluded r) (invalid r) (autoCorrections r ++ [c])
    (duplicates r) (uniqueCount r) (duplicateCount r) (totalOccurrences r).

(** [results.duplicates.push(d); results.duplicateCount += extra]. *)
Definition pushDuplicate (d : Duplicate) (extra : Z) (r : Results) : Results :=
  mkResults (accepted r) (excluded r) (invalid r) (autoCorrections r)
    (duplicates r ++ [d]) (uniqueCount r) (duplicateCount r + extra)%Z
    (totalOccurrences r).

Definition addSeen (x : list N) (st : State) : State :=
  mkState (results st) ({[x]} ∪ seen st) (tempAccepted st) (pending7Digit st).

Definition pushTempAccepted (x : list N) (st : State) : State :=
  mkState (results st) (seen st) (tempAccepted st ++ [x]) (pending7Digit st).

Definition pushPending (x : list N) (st : State) : State :=
  mkState (results st) (seen st) (tempAccepted st) (pending7Digit st ++ [x]).

(** [seen.has(x)]. *)
Definition seenHas (st : State) (x : list N) : bool := bool_decide (x ∈ seen st).

(** [occurrenceCount[x] || 1]. *)
Definition existingCount (occ : gmap (list N) Z) (x : list N) : Z :=
  match occ !! x with
  | Some n => if (n =? 0)%Z then 1%Z else n
  | None => 1%Z
  end.

Definition excludedReason (len : nat) : list N :=
  numToString len ++ js " digits (excluded - likely Transport ID)".

Definition expected8Reason (len : nat) : list N :=
  numToString len ++ js " digits (expected 8)".

Definition removedZerosReason (len : nat) : list N :=
  js "Removed " ++ numToString (len - 8) ++ js " leading zero(s)".

Definition alreadyExistsReason (cleaned : list N) : list N :=
  js "Corrected from " ++ cleaned ++ js ", already exists".

(** The body shared by the three leading-zero branches once
    [stripped.length === 8]: accept and log the stripped value if it is new,
    otherwise record it under [duplicates].  [why] is the branch's correction
    reason and [dupCount] the count it reports for a repeated value. *)
Definition acceptStripped (cleaned stripped why : list N) (dupCount : Z)
    (st : State) : State :=
  if negb (seenHas st stripped) then
    withResults (pushAccepted stripped)
      (withResults
         (pushAutoCorrection (mkCorrection cleaned stripped (js "high") why))
         (addSeen stripped st))
  else
    withResults
      (pushDuplicate
         (mkDuplicate stripped dupCount (alreadyExistsReason cleaned)) 1%Z)
      st.

(** The classification of a non-empty cleaned note: the body of
    [for (const note of rawNotes)] after [if (!cleaned) continue]. *)
Definition classifyCleaned (occ : gmap (list N) Z) (st : State)
    (cleaned : list N) : State :=
  if negb (isPureDigits cleaned) then
    withResults
      (pushInvalid (mkEntry cleaned (js "Contains non-digit characters"))) st
  else
    let len := length cleaned in
    if Nat.eqb len 8 then
      let stripped := stripLeadingZeros cleaned in
      if Nat.ltb (length stripped) 8 && Nat.ltb 0 (length stripped) then
        pushTempAccepted cleaned (addSeen cleaned st)
      else
        pushTempAccepted cleaned (addSeen cleaned st)
    else if Nat.eqb len 9 && startsWithZero cleaned then
      let stripped := stripLeadingZeros cleaned in
      if Nat.eqb (length stripped) 8 then
        acceptStripped cleaned stripped (js "Removed leading zero")
          (existingCount occ stripped + 1)%Z st
      else
        withResults (pushExcluded (mkEntry cleaned (excludedReason 9))) st
    else if Nat.eqb len 10 && startsWithZero cleaned then
      let stripped := stripLeadingZeros cleaned in
      if Nat.eqb (length stripped) 8 then
        acceptStripped cleaned stripped (removedZerosReason len)
          (existingCount occ stripped + 1)%Z st
      else
        withResults (pushExcluded (mkEntry cleaned (excludedReason 10))) st
    else if Nat.ltb 10 len && startsWithZero cleaned then
      let stripped := stripLeadingZeros cleaned in
      if Nat.eqb (length stripped) 8 then
        acceptStripped cleaned stripped (removedZerosReason len) 2%Z st
      else
        withResults (pushInvalid (mkEntry cleaned (expected8Reason len))) st
    else if Nat.eqb len 9 || Nat.eqb len 10 then
      withResults (pushExcluded (mkEntry cleaned (excludedReason len))) st
    else if Nat.eqb len 7 then
      pushPending cleaned st
    else
      withResults (pushInvalid (mkEntry cleaned (expected8Reason len))) st.

(** One iteration of [for (const note of rawNotes)]. *)
Definition classifyNote (occ : gmap (list N) Z) (st : State) (note : list N)
    : State :=
  let cleaned := removeClass isSpace note in
  match cleaned with
  | [] => st
  | _ :: _ => classifyCleaned occ st cleaned
  end.

Definition classifyAll (occ : gmap (list N) Z) (st : State)
    (rawNotes : list (list N)) : State :=
  fold_left (classifyNote occ) rawNotes st.

(** [firstDigitCounts]: an object keyed by [note[0]], kept in insertion
    order.  A missing first character would give the key ["undefined"]. *)
Definition firstDigitKey (note : list N) : list N :=
  match charAt0 note with
  | Some k => k
  | None => js "undefined"
  end.

(** [o[k] = (o[k] || 0) + 1]. *)
Fixpoint bump (k : list N) (o : list (list N * nat)) : list (list N * nat) :=
  match o with
  | [] => [(k, 1)]
  | (k', v) :: rest =>
    if streq k k' then (k', v + 1) :: rest else (k', v) :: bump k rest
  end.

Definition parseDecimal (s : list N) : N :=
  fold_left (fun acc c => (acc * 10 + (c - 48))%N) s 0%N.

(** A property key that is an array index: a canonical decimal numeral
    below 2^32 - 1. *)
Definition arrayIndex (k : list N) : option N :=
  if isPureDigits k
     && (negb (startsWithZero k) || Nat.eqb (length k) 1)
     && (parseDecimal k <? 4294967295)%N
  then Some (parseDecimal k) else None.

Fixpoint insertByIndex (e : N * (list N * nat)) (l : list (N * (list N * nat)))
    : list (N * (list N * nat)) :=
  match l with
  | [] => [e]
  | e' :: rest =>
    if (fst e <=? fst e')%N then e :: l else e' :: insertByIndex e rest
  end.

(** [Object.entries(o)]: array-index keys in ascending numeric order, then
    the other keys in insertion order. *)
Definition objectEntries (o : list (list N * nat)) : list (list N * nat) :=
  map snd
    (fold_right insertByIndex []
       (flat_map (fun kv => match arrayIndex (fst kv) with
                            | Some i => [(i, kv)]
                            | None => []
                            end) o))
  ++ List.filter (fun kv => match arrayIndex (fst kv) with
                            | Some _ => false
                            | None => true
                            end) o.

Definition firstDigitCounts (st : State) : list (list N * nat) :=
  fold_left (fun o c => bump (firstDigitKey (corrected c)) o)
    (autoCorrections (results st))
    (fold_left (fun o note => bump (firstDigitKey note) o)
       (tempAccepted st) []).

(** [count >= Math.max(1, totalAccepted * 0.3)] for integer [count] and
    [totalAccepted].  The double nearest to 0.3 lies below 0.3 by less than
    2^-56, so for totals below 2^50 the rounded product equals 3*total/10
    whenever that is an integer and otherwise stays strictly between the
    neighbouring integers: the comparison is the exact one. *)
Definition meetsThreshold (count total : nat) : bool :=
  Nat.leb 1 count && Nat.leb (3 * total) (10 * count).

(** The selection loop over [Object.entries(firstDigitCounts)], returning
    [(dominantDigit, maxCount)]. *)
Definition selectDominant (total : nat) (entries : list (list N * nat))
    : option (list N) * nat :=
  fold_left
    (fun acc e =>
       if Nat.ltb (snd acc) (snd e) && meetsThreshold (snd e) total
       then (Some (fst e), snd e) else acc)
    entries (None, 0).

Definition dominantDigit (st : State) : option (list N) :=
  fst (selectDominant
         (length (tempAccepted st) + length (autoCorrections (results st)))
         (objectEntries (firstDigitCounts st))).

Definition alreadyStartsReason (d : list N) : list N :=
  js "7 digits - already starts with '" ++ d
  ++ js "' (missing last digit, not first)".

Definition addedLeadingReason (d : list N) : list N :=
  js "Added leading '" ++ d ++ js "'".

Definition correctedFromReason (pending : list N) (n : Z) : list N :=
  js "Corrected from " ++ pending ++ js ", already exists (now "
  ++ (if (n <? 0)%Z then js "-" else []) ++ numToString (Z.abs_nat n)
  ++ js " times)".

(** One iteration of [for (const pending of pending7Digit)]. *)
Definition resolvePending (occ : gmap (list N) Z) (dom : option (list N))
    (st : State) (pending : list N) : State :=
  if truthy dom then
    let d := default [] dom in
    if bool_decide (charAt0 pending = Some d) then
      withResults (pushInvalid (mkEntry pending (alreadyStartsReason d))) st
    else
      let fixed := d ++ pending in
      if negb (seenHas st fixed) then
        withResults (pushAccepted fixed)
          (withResults
             (pushAutoCorrection
                (mkCorrection pending fixed (js "high") (addedLeadingReason d)))
             (addSeen fixed st))
      else
        withResults
          (pushDuplicate
             (mkDuplicate fixed (existingCount occ fixed + 1)%Z
                (correctedFromReason pending (existingCount occ fixed + 1)%Z))
             1%Z)
          st
  else
    withResults
      (pushInvalid (mkEntry pending (js "7 digits - needs manual review"))) st.

(** [if (pending7Digit.length > 0) { ... }]. *)
Definition resolveAllPending (occ : gmap (list N) Z) (st : State) : State :=
  match pending7Digit st with
  | [] => st
  | _ => fold_left (resolvePending occ (dominantDigit st)) (pending7Digit st) st
  end.

(** [results.accepted.push(...tempAccepted)]. *)
Definition flushTempAccepted (st : State) : State :=
  withResults
    (fun r =>
       mkResults (accepted r ++ tempAccepted st) (excluded r) (invalid r)
         (autoCorrections r) (duplicates r) (uniqueCount r) (duplicateCount r)
         (totalOccurrences r))
    st.

(** One iteration of [for (const dup of extractedDuplicates)]. *)
Definition mergeExtractedDuplicate (st : State) (dup : Duplicate) : State :=
  if Nat.eqb (length (d_value dup)) 8 && seenHas st (d_value dup) then
    if negb (existsb (fun d => streq (d_value d) (d_value dup))
               (duplicates (results st)))
    then withResults (pushDuplicate dup (d_count dup - 1)%Z) st
    else st
  else st.

(** [results.uniqueCount = new Set(results.accepted).size]. *)
Definition setUniqueCount (r : Results) : Results :=
  mkResults (accepted r) (excluded r) (invalid r) (autoCorrections r)
    (duplicates r) (size (list_to_set (accepted r) : gset (list N)))
    (duplicateCount r) (totalOccurrences r).

(** The state after the loop over [rawNotes]. *)
Definition afterClassification (extractionResult : ExtractionResult) : State :=
  classifyAll (occurrenceCount extractionResult)
    (initialState (totalCount extractionResult)) (unique extractionResult).

(** The state after the 7-digit numbers have been processed. *)
Definition afterResolution (extractionResult : ExtractionResult) : State :=
  resolveAllPending (occurrenceCount extractionResult)
    (afterClassification extractionResult).

Definition validateDeliveryNotes (extractionResult : ExtractionResult)
    : Results :=
  setUniqueCount
    (results
       (fold_left mergeExtractedDuplicate
          (extractedDuplicates extractionResult)
          (flushTempAccepted (afterResolution extractionResult)))).

(** The helper of the repository's test-suite that wraps a list of notes
    into an extraction result. *)
Definition countOccurrences (notes : list (list N)) : gmap (list N) Z :=
  fold_left
    (fun occ note =>
       <[note := (match occ !! note with
                  | Some n => if (n =? 0)%Z then 0 else n
                  | None => 0
                  end + 1)%Z]> occ)
    notes ∅.

Fixpoint dedup (seenSoFar : gset (list N)) (notes : list (list N))
    : list (list N) :=
  match notes with
  | [] => []
  | n :: rest =>
    if bool_decide (n ∈ seenSoFar) then dedup seenSoFar rest
    else n :: dedup ({[n]} ∪ seenSoFar) rest
  end.

Definition foundTimesReason (n : Z) : list N :=
  js "Found " ++ numToString (Z.abs_nat n) ++ js " times".

Definition makeExtractionResult (notes : list (list N)) : ExtractionResult :=
  let occ := countOccurrences notes in
  let uniq := dedup ∅ notes in
  mkExtraction uniq
    (flat_map
       (fun v =>
          let n := default 0%Z (occ !! v) in
          if (1 <? n)%Z then [mkDuplicate v n (foundTimesReason n)] else [])
       uniq)
    (Z.of_nat (length notes)) occ.


(** *** Effects and invariants of the loops *)

(** Every iteration of the two loops has one of seven effects on the
    state.  [P] is what is known of a correction when it is logged. *)
Inductive effect (P : Correction -> Prop) (st : State) : State -> Prop :=
| eff_none : effect P st st
| eff_invalid e :
    isPureDigits (value e) = false \/ length (value e) <> 8 ->
    effect P st (withResults (pushInvalid e) st)
| eff_excluded e :
    length (value e) = 9 \/ length (value e) = 10 ->
    effect P st (withResults (pushExcluded e) st)
| eff_accept x :
    length x = 8 -> effect P st (pushTempAccepted x (addSeen x st))
| eff_correct c :
    corrected c ∉ seen st -> 8 <= length (corrected c) -> P c ->
    effect P st
      (withResults (pushAccepted (corrected c))
         (withResults (pushAutoCorrection c) (addSeen (corrected c) st)))
| eff_duplicate d n : effect P st (withResults (pushDuplicate d n) st)
| eff_pending x : length x = 7 -> effect P st (pushPending x st).

(** What holds of the state at every iteration of the two loops. *)
Record invariant (P : Correction -> Prop) (st : State) : Prop := mkInvariant {
  inv_seen : forall x, x ∈ seen st ->
    In x (accepted (results st)) \/ In x (tempAccepted st);
  inv_logged : forall a, In a (autoCorrections (results st)) ->
    corrected a ∈ seen st /\ P a;
  inv_nodup : List.NoDup (map corrected (autoCorrections (results st)));
  inv_excluded : forall e, In e (excluded (results st)) ->
    length (value e) = 9 \/ length (value e) = 10;
  inv_invalid : forall e, In e (invalid (results st)) ->
    isPureDigits (value e) = false \/ length (value e) <> 8;
  inv_accepted : forall x, In x (accepted (results st)) -> 8 <= length x;
  inv_temp : forall x, In x (tempAccepted st) -> length x = 8;
  inv_pending : forall x, In x (pending7Digit st) -> length x = 7
}.

(** The buckets and the set of seen values only grow. *)
Record grows (st st' : State) : Prop := mkGrows {
  gr_accepted : incl (accepted (results st)) (accepted (results st'));
  gr_excluded : incl (excluded (results st)) (excluded (results st'));
  gr_invalid : incl (invalid (results st)) (invalid (results st'));
  gr_logged : incl (autoCorrections (results st)) (autoCorrections (results st'));
  gr_duplicates : incl (duplicates (results st)) (duplicates (results st'));
  gr_temp : incl (tempAccepted st) (tempAccepted st');
  gr_pending : incl (pending7Digit st) (pending7Digit st');
  gr_seen : seen st ⊆ seen st'
}.

(** A correction logged by the first loop repairs a number of nine digits
    or more; one logged by the second loop repairs a number that does not
    start with the dominant digit. *)
Definition fromLeadingZeros (c : Correction) : Prop := 9 <= length (original c).

Definition fromPrepending (dom : option (list N)) (c : Correction) : Prop :=
  9 <= length (original c) \/ charAt0 (original c) <> dom.

(** A value is recorded once it figures in one of the five buckets (or is
    waiting in [tempAccepted] to be moved to [accepted]). *)
Definition recorded (c : list N) (st : State) : Prop :=
  In c (accepted (results st)) \/ In c (tempAccepted st)
  \/ (exists e, In e (excluded (results st)) /\ value e = c)
  \/ (exists e, In e (invalid (results st)) /\ value e = c)
  \/ (exists a, In a (autoCorrections (results st)) /\ original a = c)
  \/ (exists d tail, In d (duplicates (results st))
                     /\ d_reason d = alreadyExistsReason c ++ tail).

End DeliveryNotes.


(** ** CR.js: grouping pages by identifier *)

Module Grouper.
Import JS Token.

(** The page records built by [processFile]; [cr] is [null] when the page
    has no single identifier. *)
Record Page := mkPage {
  pageIndex : nat;
  pageNum : nat;
  text : list N;
  usedOCR : bool;
  cr : option (list N);
  crType : option CRType
}.

Record Group := mkGroup {
  g_cr : option (list N);
  g_crType : option CRType;
  pages : list Page
}.

#[global] Instance CRType_eq_dec : EqDecision CRType.
Proof. solve_decision. Defined.

#[global] Instance Page_eq_dec : EqDecision Page.
Proof. solve_decision. Defined.

(** [group.pages.push(page)] and [group.pages.push(...more)]. *)
Definition pushPages (more : list Page) (g : Group) : Group :=
  mkGroup (g_cr g) (g_crType g) (pages g ++ more).

(** The variables [groups] and [currentGroup] of the main loop. *)
Record Loop := mkLoop {
  groups : list Group;
  currentGroup : option Group
}.

(** [currentGroup && currentGroup.pages.length > 0]. *)
Definition openGroup (st : Loop) : option Group :=
  match currentGroup st with
  | Some g => match pages g with
              | [] => None
              | _ :: _ => Some g
              end
  | None => None
  end.

(** [if (currentGroup && currentGroup.pages.length > 0) groups.push(currentGroup)]. *)
Definition closeCurrent (st : Loop) : list Group :=
  match openGroup st with
  | Some g => groups st ++ [g]
  | None => groups st
  end.

Fixpoint firstCR (ps : list Page) : option (list N) :=
  match ps with
  | [] => None
  | p :: rest => if truthy (cr p) then cr p else firstCR rest
  end.

(** [for (let j = i + 1; j < pages.length && j < i + 3; j++)], over the
    pages that follow page [i]. *)
Definition lookAhead (following : list Page) : option (list N) :=
  firstCR (firstn 2 following).

(** The body of the main loop at page [page], with [following] the pages
    after it. *)
Definition visitPage (st : Loop) (page : Page) (following : list Page) : Loop :=
  if truthy (cr page) then
    match currentGroup st with
    | Some g =>
      if bool_decide (g_cr g = cr page) then
        mkLoop (groups st) (Some (pushPages [page] g))
      else
        mkLoop (closeCurrent st)
          (Some (mkGroup (cr page) (crType page) [page]))
    | None =>
      mkLoop (closeCurrent st) (Some (mkGroup (cr page) (crType page) [page]))
    end
  else
    match openGroup st with
    | Some g => mkLoop (groups st) (Some (pushPages [page] g))
    | None =>
      let foundCR := lookAhead following in
      if truthy foundCR then
        mkLoop (groups st)
          (Some (mkGroup foundCR (Some (getCRType (default [] foundCR))) [page]))
      else st
    end.

Fixpoint visitAll (st : Loop) (ps : list Page) : Loop :=
  match ps with
  | [] => st
  | page :: following => visitAll (visitPage st page following) following
  end.

(** The state of the loop after its first [n] iterations. *)
Fixpoint visitFirst (n : nat) (st : Loop) (ps : list Page) : Loop :=
  match n, ps with
  | S n', page :: following => visitFirst n' (visitPage st page following) following
  | _, _ => st
  end.

(** The [merged] map, in insertion order; every value is stored under its
    own [cr].  [merged.has(group.cr)] selects the entry whose pages receive
    [group.pages]; otherwise a copy of the group is appended. *)
Fixpoint mergeGroup (merged : list Group) (group : Group) : list Group :=
  match merged with
  | [] => [group]
  | m :: rest =>
    if bool_decide (g_cr m = g_cr group) then pushPages (pages group) m :: rest
    else m :: mergeGroup rest group
  end.

Definition groupPagesByCR (ps : list Page) : list Group :=
  let st := visitAll (mkLoop [] None) ps in
  fold_left mergeGroup (closeCurrent st) [].

(** The test [if (!group.cr)] of [processFile] that skips a group. *)
Definition skippedByProcessFile (g : Group) : bool := negb (truthy (g_cr g)).

(** A five-page document whose fourth page alone carries an identifier. *)
Definition samplePage (n : nat) (id : option (list N)) : Page :=
  mkPage n (S n) [] false id (option_map getCRType id).

Definition sampleDocument : list Page :=
  [samplePage 0 None; samplePage 1 None; samplePage 2 None;
   samplePage 3 (Some (js "577770")); samplePage 4 None].


(** What holds of the loop variables at every iteration: every group has
    an identifier and at least one page, and nothing has been closed while
    no group is open. *)
Definition identified (g : Group) : Prop :=
  truthy (g_cr g) = true /\ pages g <> [].

Record wellFormed (st : Loop) : Prop := mkWellFormed {
  wf_groups : forall g, In g (groups st) -> identified g;
  wf_current : forall g, currentGroup st = Some g -> identified g;
  wf_none : currentGroup st = None -> groups st = []
}.

(** Every page of a resulting group was a page of a group already held by
    the loop or is one of the pages still to visit. *)
Definition holdsPage (st : Loop) (q : Page) : Prop :=
  (exists g, In g (groups st) /\ In q (pages g))
  \/ (exists g, currentGroup st = Some g /\ In q (pages g)).

End Grouper.

(** ** CR.js: stamp, signature and date verification *)

Module Verification.

Inductive Status := PRESENT | UNCERTAIN | MISSING.

Inductive OverallStatus :=
  COMPLETE | DATE_MISSING | STAMP_MISSING | SIGNATURE_MISSING | BOTH_MISSING
| NEEDS_REVIEW.

Inductive Confidence := high | medium | low.

Section Measurements.

(** The measurements are IEEE doubles; the decision logic only compares
    them, so the number type and its comparisons are parameters. *)
Variable num : Type.
Variable geb : num -> num -> bool.      (* [a >= b] *)
Variable gtb : num -> num -> bool.      (* [a > b] *)
Variable falsy : num -> bool.           (* [!a]: zero or NaN *)
Variable times : num -> num -> num.     (* [a * b] *)
Variable lit_0_5 lit_0_1 : num.         (* the literals [0.5] and [0.1] *)
Variable defaultBlueThreshold : num.    (* [CONFIG.defaults.blueThreshold] *)

(** What [analyzeROI] returns that the decision reads. *)
Record ROIAnalysis := mkROI { blueDensity : num }.

(** What [analyzeSignatureStrokes] returns. *)
Record StrokeAnalysis := mkStrokes {
  darkStrokeDensity : num;
  strokeRatio : num;
  hasSignaturePattern : bool;
  hasBlackInkSignature : bool;
  confidence : Confidence
}.

(** What [analyzeDateField] returns. *)
Record DateAnalysis := mkDate { hasDate : bool }.

Record StatusConfidence := mkSC { status : Status; sc_confidence : Confidence }.

Record RegionVerification := mkVerification {
  overallStatus : OverallStatus;
  stamp : StatusConfidence;
  signature : StatusConfidence;
  date : Status
}.

(** [config.blueThreshold || CONFIG.defaults.blueThreshold]. *)
Definition blueThresholdOf (configBlue : option num) : num :=
  match configBlue with
  | Some t => if falsy t then defaultBlueThreshold else t
  | None => defaultBlueThreshold
  end.

Definition stampOf (analysis : ROIAnalysis) (blueThreshold : num)
    : StatusConfidence :=
  if geb (blueDensity analysis) blueThreshold then mkSC PRESENT high
  else if geb (blueDensity analysis) (times blueThreshold lit_0_5)
  then mkSC UNCERTAIN low
  else mkSC MISSING high.

Definition signatureOf (signatureAnalysis : StrokeAnalysis) : StatusConfidence :=
  if hasBlackInkSignature signatureAnalysis then mkSC PRESENT high
  else if hasSignaturePattern signatureAnalysis
  then mkSC PRESENT (confidence signatureAnalysis)
  else if gtb (darkStrokeDensity signatureAnalysis) lit_0_5
          && gtb (strokeRatio signatureAnalysis) lit_0_1
  then mkSC UNCERTAIN low
  else mkSC MISSING high.

(** The [if]/[else if] chain that determines [overallStatus]. *)
Definition overallOf (stampStatus signatureStatus : Status) (dated : bool)
    : OverallStatus :=
  match stampStatus, signatureStatus with
  | PRESENT, PRESENT => if dated then COMPLETE else DATE_MISSING
  | MISSING, MISSING => BOTH_MISSING
  | _, _ =>
    match stampStatus, signatureStatus with
    | UNCERTAIN, _ | _, UNCERTAIN => NEEDS_REVIEW
    | MISSING, _ => STAMP_MISSING
    | _, MISSING => SIGNATURE_MISSING
    | _, _ => NEEDS_REVIEW
    end
  end.

Definition analyzeStampAndSignature (configBlue : option num)
    (analysis : ROIAnalysis) (dateAnalysis : DateAnalysis)
    (signatureAnalysis : StrokeAnalysis) : RegionVerification :=
  let st := stampOf analysis (blueThresholdOf configBlue) in
  let sg := signatureOf signatureAnalysis in
  mkVerification (overallOf (status st) (status sg) (hasDate dateAnalysis))
    st sg (if hasDate dateAnalysis then PRESENT else MISSING).

End Measurements.

(** The decision table as the specification words it: the rows are read
    independently, none takes priority over another. *)
Inductive tableRow : Status -> Status -> bool -> OverallStatus -> Prop :=
| row_complete : tableRow PRESENT PRESENT true COMPLETE
| row_date_missing : tableRow PRESENT PRESENT false DATE_MISSING
| row_both_missing d : tableRow MISSING MISSING d BOTH_MISSING
| row_stamp_missing d : tableRow MISSING PRESENT d STAMP_MISSING
| row_signature_missing d : tableRow PRESENT MISSING d SIGNATURE_MISSING
| row_uncertain_stamp s d : tableRow UNCERTAIN s d NEEDS_REVIEW
| row_uncertain_signature s d : tableRow s UNCERTAIN d NEEDS_REVIEW.

End Verification.

(** ** CR.js: locating the identifier in a page's text *)

Module Locator.
Import JS Token.

(** [text.substring(a, b)]. *)
Definition substring (s : list N) (a b : nat) : list N :=
  let a' := Nat.min a (length s) in
  let b' := Nat.min b (length s) in
  firstn (Nat.max a' b' - Nat.min a' b') (skipn (Nat.min a' b') s).

(** [text.replace(/\r\n/g, '\n').replace(/\r/g, '\n')]. *)
Fixpoint normalizeNewlines (s : list N) : list N :=
  match s with
  | [] => []
  | c :: rest =>
    if (c =? 13)%N then
      match rest with
      | d :: rest' =>
        if (d =? 10)%N then 10%N :: normalizeNewlines rest'
        else 10%N :: normalizeNewlines rest
      | [] => [10%N]
      end
    else c :: normalizeNewlines rest
  end.

(** One pass of [replace(/(\d)\s+(\d)/g, '$1$2')], as a left-to-right scan.
    [held] is [Some ws] after a digit that may still open a match, [ws]
    being the white space read since (in reverse); the digit that closes a
    match is consumed by it and cannot open the next one. *)
Fixpoint collapseFrom (held : option (list N)) (s : list N) : list N :=
  match s with
  | [] => match held with
          | Some ws => rev ws
          | None => []
          end
  | c :: rest =>
    match held with
    | None =>
      if isDigit c then c :: collapseFrom (Some []) rest
      else c :: collapseFrom None rest
    | Some ws =>
      if isSpace c then collapseFrom (Some (c :: ws)) rest
      else if isDigit c then
        match ws with
        | [] => c :: collapseFrom (Some []) rest
        | _ :: _ => c :: collapseFrom None rest
        end
      else rev ws ++ c :: collapseFrom None rest
    end
  end.

Definition collapseDigitGaps (s : list N) : list N := collapseFrom None s.

Definition normalizeOCRText (text : list N) : list N :=
  collapseDigitGaps (collapseDigitGaps (collapseDigitGaps (normalizeNewlines text))).

(** The regular-expression literals of [findCRsOnText] and
    [isInExclusionContext], named by their place in the source. *)
Inductive Pattern :=
| DirectNoOfConfirmation   (* directPatterns[0] *)
| DirectConfirmationFrom   (* directPatterns[1] *)
| DirectGelangens          (* directPatterns[2] *)
| StrictNoOfConfirmation   (* strictAnchors[0] *)
| StrictGelangens          (* strictAnchors[1] *)
| StrictBestaetigung       (* strictAnchors[2] *)
| BroadConfirmation        (* broadAnchors[0] *)
| BroadGelangen            (* broadAnchors[1] *)
| TokenH01                 (* /\b(5\d{5})\b/ *)
| TokenEP1                 (* /\b(1\d{7})\b/ *)
| PostalAfter              (* /^\s+[A-Za-z...]{2,}/i *)
| AnchorWord               (* /confirmation|receipt|Gelangen|bestätigung/i *)
| PostalAround (matchValue : list N)  (* new RegExp(`\\b${matchValue}\\s+[A-Za-z...]+\\b`, 'i') *)
| ExclusionContext (i : nat).         (* EXCLUSION_CONTEXT_PATTERNS[i] *)

(** A match object: [m.index], [m[0]] and the capture [m[1]].  Every pattern
    whose capture is read has a group that takes part in each of its
    matches, so the capture is then a string; [None] stands for
    [undefined]. *)
Record Match := mkMatch {
  m_index : nat;
  m_0 : list N;
  m_1 : option (list N)
}.

Inductive Source := direct_anchor | near_anchor | global.
Inductive Confidence := high | medium | low.

Record IdentifierMatch := mkIdentifier {
  value : list N;
  type : CRType;
  raw : option (list N);
  index : nat;
  source : Source;
  confidence : Confidence
}.

Definition isMedium (c : IdentifierMatch) : bool :=
  match confidence c with
  | medium => true
  | _ => false
  end.

(** The first result of [f] over [l] that is not [None]: a loop that
    returns from inside its body. *)
Fixpoint firstSome {A B : Type} (f : A -> option B) (l : list A) : option B :=
  match l with
  | [] => None
  | a :: rest => match f a with
                 | Some b => Some b
                 | None => firstSome f rest
                 end
  end.

Section WithHost.

(** The host's [toUpperCase] and regular-expression engine: [exec] is
    [rx.exec(s)] (also [s.match(rx)] and [rx.test(s)] for a pattern without
    the [g] flag), [matchAll] is [s.matchAll(rx)] for the same pattern with
    the [g] flag. *)
Variable toUpperCase : list N -> list N.
Variable exec : Pattern -> list N -> option Match.
Variable matchAll : Pattern -> list N -> list Match.

Definition test (rx : Pattern) (s : list N) : bool :=
  match exec rx s with
  | Some _ => true
  | None => false
  end.

(** [normalizeToken(m[1])], where a missing capture is [undefined]. *)
Definition normalizeCapture (c : option (list N)) : list N :=
  match c with
  | Some s => normalizeToken toUpperCase s
  | None => []
  end.

Definition isInExclusionContext (text : list N) (matchIndex : nat)
    (matchValue : list N) : bool :=
  let start := Nat.max 0 (matchIndex - 100) in
  let stop := Nat.min (length text) (matchIndex + length matchValue + 100) in
  let context := substring text start stop in
  if test (PostalAround matchValue) context then true
  else
    existsb
      (fun pattern =>
         test pattern context &&
         match exec pattern context with
         | Some exclusionMatch => includes (m_0 exclusionMatch) matchValue
         | None => false
         end)
      (map ExclusionContext (seq 0 4)).

(** Priority 1: one direct pattern against one of the two texts. *)
Definition tryDirect (searchText : list N) (rx : Pattern)
    : option IdentifierMatch :=
  match exec rx searchText with
  | Some m =>
    if truthy (m_1 m) then
      let norm := normalizeCapture (m_1 m) in
      if isValidCR norm
      then Some (mkIdentifier norm (getCRType norm) (m_1 m) (m_index m)
                   direct_anchor high)
      else None
    else None
  | None => None
  end.

(** A bare token of the given shape inside [searchWindow]. *)
Definition tryToken (rx : Pattern) (ty : CRType) (searchWindow : list N)
    (anchorEnd : nat) (veto : Match -> bool) : option IdentifierMatch :=
  match exec rx searchWindow with
  | Some m =>
    let norm := normalizeCapture (m_1 m) in
    if negb (veto m) && isValidCR norm
    then Some (mkIdentifier norm ty (m_1 m) (anchorEnd + m_index m)
                 near_anchor high)
    else None
  | None => None
  end.

(** Priority 2: the 50 characters after a strict anchor. *)
Definition tryStrictAnchor (normalizedText : list N) (anchorRx : Pattern)
    : option IdentifierMatch :=
  match exec anchorRx normalizedText with
  | None => None
  | Some anchorMatch =>
    let anchorEnd := m_index anchorMatch + length (m_0 anchorMatch) in
    let searchWindow :=
      substring normalizedText anchorEnd
        (Nat.min (anchorEnd + 50) (length normalizedText)) in
    match tryToken TokenH01 H01 searchWindow anchorEnd (fun _ => false) with
    | Some r => Some r
    | None => tryToken TokenEP1 EP1 searchWindow anchorEnd (fun _ => false)
    end
  end.

(** Priority 3: the 100 characters after a broad anchor, with the
    postal-code veto on the six-digit token. *)
Definition tryBroadAnchor (normalizedText : list N) (anchorRx : Pattern)
    : option IdentifierMatch :=
  match exec anchorRx normalizedText with
  | None => None
  | Some anchorMatch =>
    let anchorEnd := m_index anchorMatch + length (m_0 anchorMatch) in
    let searchWindow :=
      substring normalizedText anchorEnd
        (Nat.min (anchorEnd + 100) (length normalizedText)) in
    let looksLikePostalCode (h01Match : Match) :=
      let absoluteIndex := anchorEnd + m_index h01Match in
      test PostalAfter
        (substring normalizedText (absoluteIndex + 6) (absoluteIndex + 56)) in
    match tryToken TokenH01 H01 searchWindow anchorEnd looksLikePostalCode with
    | Some r => Some r
    | None => tryToken TokenEP1 EP1 searchWindow anchorEnd (fun _ => false)
    end
  end.

Definition hasAnchorNearby (normalizedText : list N) (m : Match) : bool :=
  test AnchorWord
    (substring normalizedText (Nat.max 0 (m_index m - 200)) (m_index m)).

(** Priority 4: the candidates collected from the whole text. *)
Definition globalH01 (normalizedText : list N) : list IdentifierMatch :=
  flat_map
    (fun m =>
       let norm := normalizeCapture (m_1 m) in
       let captured := default [] (m_1 m) in
       let afterMatch :=
         substring normalizedText (m_index m + length captured)
           (m_index m + length captured + 50) in
       let looksLikePostalCode := test PostalAfter afterMatch in
       if isValidCR norm
          && negb (isInExclusionContext normalizedText (m_index m) captured)
          && negb looksLikePostalCode
       then [mkIdentifier norm H01 (m_1 m) (m_index m) global
               (if hasAnchorNearby normalizedText m then medium else low)]
       else [])
    (matchAll TokenH01 normalizedText).

Definition globalEP1 (normalizedText : list N) : list IdentifierMatch :=
  flat_map
    (fun m =>
       let norm := normalizeCapture (m_1 m) in
       let captured := default [] (m_1 m) in
       if isValidCR norm
          && hasAnchorNearby normalizedText m
          && negb (isInExclusionContext normalizedText (m_index m) captured)
       then [mkIdentifier norm EP1 (m_1 m) (m_index m) global medium]
       else [])
    (matchAll TokenEP1 normalizedText).

Definition globalSearch (normalizedText : list N) : list IdentifierMatch :=
  let h01 := globalH01 normalizedText in
  match List.filter isMedium h01 with
  | best :: _ => [best]
  | [] =>
    let globalCandidates :=
      match h01 with
      | [] => h01 ++ globalEP1 normalizedText
      | _ :: _ => h01
      end in
    match globalCandidates with
    | [] => []
    | first :: _ =>
      match List.filter isMedium globalCandidates with
      | best :: _ => [best]
      | [] => [first]
      end
    end
  end.

Definition findCRsOnText (text : list N) : list IdentifierMatch :=
  match text with
  | [] => []
  | _ =>
    let normalizedText := normalizeOCRText text in
    match firstSome
            (fun searchText =>
               firstSome (tryDirect searchText)
                 [DirectNoOfConfirmation; DirectConfirmationFrom; DirectGelangens])
            [normalizedText; text] with
    | Some r => [r]
    | None =>
      match firstSome (tryStrictAnchor normalizedText)
              [StrictNoOfConfirmation; StrictGelangens; StrictBestaetigung] with
      | Some r => [r]
      | None =>
        match firstSome (tryBroadAnchor normalizedText)
                [BroadConfirmation; BroadGelangen] with
        | Some r => [r]
        | None => globalSearch normalizedText
        end
      end
    end
  end.

End WithHost.

(** A small host for examples: it recognises the English label at the start
    of the text and captures what follows it; no other pattern matches. *)
Definition labelExec (rx : Pattern) (s : list N) : option Match :=
  match rx with
  | DirectNoOfConfirmation =>
    let label := js "No. of confirmation of receipt " in
    if isPrefixOf label s
    then Some (mkMatch 0 s (Some (skipn (length label) s)))
    else None
  | _ => None
  end.

Definition labelMatchAll (rx : Pattern) (s : list N) : list Match := [].

End Locator.

(** ** app.js: candidate extraction and the workbook *)

Module Extraction.
Import JS DeliveryNotes.

(** The text items of [extractAllTextFromPDF]. *)
Record TextItem := mkItem { text : list N; pageNum : nat }.

(** [/^\d{7,12}$/.test(cleaned)]. *)
Definition isCandidate (cleaned : list N) : bool :=
  forallb isDigit cleaned
  && Nat.leb 7 (length cleaned) && Nat.leb (length cleaned) 12.

(** [allCandidates] and [occurrenceCount] in the loop over the items. *)
Record Found := mkFound {
  allCandidates : list (list N);
  counted : gmap (list N) Z
}.

(** [(occurrenceCount[cleaned] || 0) + 1]. *)
Definition nextCount (occ : gmap (list N) Z) (cleaned : list N) : Z :=
  (match occ !! cleaned with
   | Some n => if (n =? 0)%Z then 0 else n
   | None => 0
   end + 1)%Z.

(** One iteration of [for (const item of textItems)]. *)
Definition extractItem (st : Found) (item : TextItem) : Found :=
  let cleaned := removeClass isSpace (text item) in
  match cleaned with
  | [] => st
  | _ :: _ =>
    if isCandidate cleaned then
      mkFound (allCandidates st ++ [cleaned])
        (<[cleaned := nextCount (counted st) cleaned]> (counted st))
    else st
  end.

Definition foundInDocumentReason (n : Z) : list N :=
  js "Found " ++ (if (n <? 0)%Z then js "-" else [])
  ++ numToString (Z.abs_nat n) ++ js " times in document".

(** [occurrenceCount[value]] read as a number compared with 1:
    [undefined > 1] is false. *)
Definition duplicateOf (occ : gmap (list N) Z) (value : list N)
    : list Duplicate :=
  match occ !! value with
  | Some count =>
    if (1 <? count)%Z
    then [mkDuplicate value count (foundInDocumentReason count)]
    else []
  | None => []
  end.

Definition extractPotentialDeliveryNotes (textItems : list TextItem)
    : ExtractionResult :=
  let found := fold_left extractItem textItems (mkFound [] ∅) in
  let uniqueCandidates := dedup ∅ (allCandidates found) in
  mkExtraction uniqueCandidates
    (flat_map (duplicateOf (counted found)) uniqueCandidates)
    (Z.of_nat (length (allCandidates found)))
    (counted found).

(** The result of [processPDF]: the validation results with the page count
    and the two raw counts. *)
Record Processed := mkProcessed {
  p_results : Results;
  p_pageCount : nat;
  rawCount : Z;
  uniqueRawCount : nat
}.

(** [processPDF] once the text items and the page count have been read:
    the error it throws on a document without text, or its result. *)
Definition processPDF (items : list TextItem) (pageCount : nat)
    : list N + Processed :=
  match items with
  | [] =>
    inl (js "Could not extract text from PDF. File may be scanned or protected.")
  | _ :: _ =>
    let extractionResult := extractPotentialDeliveryNotes items in
    let results := validateDeliveryNotes extractionResult in
    inr (mkProcessed results pageCount (totalCount extractionResult)
           (length (unique extractionResult)))
  end.

(** [generateExcel(deliveryNotes)]: the rows of the sheet, one cell each;
    a single empty cell when there is no note. *)
Definition generateExcel (deliveryNotes : list (list N)) : list (list (list N)) :=
  match map (fun note => [note]) (dedup ∅ deliveryNotes) with
  | [] => [[[]]]
  | data => data
  end.

(** What [processFile] stores for a processed document: the workbook, or
    the reason why there is none. *)
Inductive Outcome :=
| Workbook (rows : list (list (list N)))
| Empty (emptyReason : list N).

Definition processFile (results : Results) : Outcome :=
  let acceptedNotes := dedup ∅ (accepted results) in
  match acceptedNotes with
  | _ :: _ => Workbook (generateExcel acceptedNotes)
  | [] =>
    match excluded results, invalid results with
    | _ :: _, _ =>
      Empty (js "No valid delivery notes: "
             ++ numToString (length (excluded results))
             ++ js " excluded (9-10 digits)")
    | [], _ :: _ =>
      Empty (js "No valid delivery notes: "
             ++ numToString (length (invalid results))
             ++ js " invalid entries found")
    | [], [] => Empty (js "No delivery notes found in document")
    end
  end.

(** *** What each bucket holds, candidate by candidate *)

(** The candidates as the first loop sees them. *)
Definition cleanedNotes (er : ExtractionResult) : list (list N) :=
  map (removeClass isSpace) (unique er).

Definition hasDigits (n : nat) (c : list N) : bool :=
  isPureDigits c && Nat.eqb (length c) n.

(** Dropping the leading zeros leaves eight digits. *)
Definition reducesToEight (c : list N) : bool :=
  startsWithZero c && Nat.eqb (length (stripLeadingZeros c)) 8.

Definition excludedEntry (c : list N) : list Entry :=
  if (hasDigits 9 c || hasDigits 10 c) && negb (reducesToEight c)
  then [mkEntry c (excludedReason (length c))] else [].

Definition invalidAtClassification (c : list N) : list Entry :=
  match c with
  | [] => []
  | _ :: _ =>
    if negb (isPureDigits c)
    then [mkEntry c (js "Contains non-digit characters")]
    else if Nat.ltb (length c) 7
            || (Nat.ltb 10 (length c) && negb (reducesToEight c))
    then [mkEntry c (expected8Reason (length c))]
    else []
  end.

Definition invalidAtResolution (dom : option (list N)) (pending : list N)
    : list Entry :=
  if truthy dom then
    if bool_decide (charAt0 pending = dom)
    then [mkEntry pending (alreadyStartsReason (default [] dom))]
    else []
  else [mkEntry pending (js "7 digits - needs manual review")].

(** How often the strings of [l] start with the character [c]. *)
Definition startsWith (c : N) (s : list N) : bool :=
  match s with
  | a :: _ => (a =? c)%N
  | [] => false
  end.

Definition firstDigitTally (st : State) (c : N) : nat :=
  length (List.filter (startsWith c)
            (tempAccepted st ++ map corrected (autoCorrections (results st)))).

Definition acceptedTotal (st : State) : nat :=
  length (tempAccepted st) + length (autoCorrections (results st)).

(** What is known of a logged correction: it removes the leading zeros of a
    longer number, or puts the dominant digit before a 7-digit number that
    does not start with it. *)
Definition zerosRemoved (a : Correction) : Prop :=
  isPureDigits (original a) = true /\ 9 <= length (original a)
  /\ startsWithZero (original a) = true
  /\ corrected a = stripLeadingZeros (original a)
  /\ length (corrected a) = 8
  /\ forallb isDigit (corrected a) = true.

Definition digitAdded (dom : option (list N)) (a : Correction) : Prop :=
  exists d, dom = Some [d] /\ isDigit d = true
            /\ hasDigits 7 (original a) = true
            /\ startsWith d (original a) = false
            /\ corrected a = d :: original a
            /\ c_reason a = addedLeadingReason [d].

Definition wellLogged (cands : list (list N)) (dom : option (list N))
    (a : Correction) : Prop :=
  confidence a = js "high" /\ In (original a) cands
  /\ (zerosRemoved a \/ digitAdded dom a).

(** The dominant digit, when there is one, is a single decimal digit. *)
Definition digitOrNone (dom : option (list N)) : Prop :=
  dom = None \/ exists d, dom = Some [d] /\ isDigit d = true.

(** [o[k] || 0] for the object [firstDigitCounts]. *)
Definition countOf (o : list (list N * nat)) (k : list N) : nat :=
  match List.find (fun kv => bool_decide (fst kv = k)) o with
  | Some kv => snd kv
  | None => 0
  end.

(** The keys counted into [firstDigitCounts], in counting order. *)
Definition firstDigitKeys (st : State) : list (list N) :=
  map firstDigitKey
    (tempAccepted st ++ map corrected (autoCorrections (results st))).

(** The place of an entry among the array-index keys. *)
Definition indexRank (kv : list N * nat) : N :=
  default 0%N (arrayIndex (fst kv)).

(** The cleaned texts that the extraction keeps, in the order of the
    items, and how often one of them occurs. *)
Definition candidatesOf (textItems : list TextItem) : list (list N) :=
  List.filter isCandidate
    (map (fun item => removeClass isSpace (text item)) textItems).

Definition occurrences (c : list N) (textItems : list TextItem) : nat :=
  length (List.filter (fun x => bool_decide (x = c)) (candidatesOf textItems)).

(** Every [duplicates] entry is about a value that has been seen. *)
Definition duplicatesSeen (st : State) : Prop :=
  forall d, In d (duplicates (results st)) -> d_value d ∈ seen st.

End Extraction.

(** ** CR.js: where the pages of a document end up *)

Module Placement.
Import JS Token Grouper.

(** The pages of a list of groups, group after group. *)
Definition allPages (gs : list Group) : list Page := concat (map pages gs).

(** The pages that the loop of [groupPagesByCR] holds: those of the closed
    groups, then those of [currentGroup]. *)
Definition placed (st : Loop) : list Page :=
  allPages (groups st)
  ++ match currentGroup st with
     | Some g => pages g
     | None => []
     end.

(** The number of pages at the head of the document that are visited while
    no group is open and that neither carry an identifier nor are followed
    by one on the next two pages. *)
Fixpoint leadingOrphans (ps : list Page) : nat :=
  match ps with
  | [] => 0
  | page :: following =>
    if truthy (cr page) || truthy (lookAhead following) then 0
    else S (leadingOrphans following)
  end.

(** The page [q] is held by a group of identifier [c]. *)
Definition filed (c : option (list N)) (q : Page) (st : Loop) : Prop :=
  exists g, (In g (groups st) \/ currentGroup st = Some g)
            /\ g_cr g = c /\ In q (pages g).

End Placement.

(** ** CR.js: white space between digits *)

Module Spacing.
Import JS Locator.

(** [/\d\s+\d/.test(s)], as a scan: [st] is [None] when the last character
    read is no digit and no white space after a digit, [Some false] right
    after a digit, [Some true] after a digit and some white space. *)
Fixpoint hasGapFrom (st : option bool) (s : list N) : bool :=
  match s with
  | [] => false
  | c :: rest =>
    match st with
    | None => hasGapFrom (if isDigit c then Some false else None) rest
    | Some spaced =>
      if isSpace c then hasGapFrom (Some true) rest
      else if isDigit c then
        if spaced then true else hasGapFrom (Some false) rest
      else hasGapFrom None rest
    end
  end.

Definition hasDigitGap (s : list N) : bool := hasGapFrom None s.

(** The text without the white space that stands between two digits: the
    scan of [collapseFrom] in which the digit that closes a gap opens the
    next one. *)
Fixpoint squeezeFrom (held : option (list N)) (s : list N) : list N :=
  match s with
  | [] => match held with
          | Some ws => rev ws
          | None => []
          end
  | c :: rest =>
    match held with
    | None =>
      if isDigit c then c :: squeezeFrom (Some []) rest
      else c :: squeezeFrom None rest
    | Some ws =>
      if isSpace c then squeezeFrom (Some (c :: ws)) rest
      else if isDigit c then c :: squeezeFrom (Some []) rest
      else rev ws ++ c :: squeezeFrom None rest
    end
  end.

End Spacing.

(** ** CR.js: from the pages of a file to its manifest *)

Module Documents.
Import JS Token Grouper.

Definition isHigh (c : Locator.IdentifierMatch) : bool :=
  match Locator.confidence c with
  | Locator.high => true
  | _ => false
  end.

(** [chooseValidCRs(candidates, relax)]; the function does not read
    [relax]. *)
Definition chooseValidCRs (candidates : list Locator.IdentifierMatch)
    (relax : bool) : list Locator.IdentifierMatch :=
  match candidates with
  | [] => []
  | _ :: _ =>
    let valid := List.filter (fun c => isValidCR (Locator.value c)) candidates in
    match List.filter isHigh valid with
    | (_ :: _) as highConf => highConf
    | [] =>
      match List.filter Locator.isMedium valid with
      | (_ :: _) as medConf => medConf
      | [] => valid
      end
    end
  end.

(** [parts.join(sep)]. *)
Fixpoint joinWith (sep : list N) (parts : list (list N)) : list N :=
  match parts with
  | [] => []
  | x :: rest =>
    match rest with
    | [] => x
    | _ :: _ => x ++ sep ++ joinWith sep rest
    end
  end.

(** [group.pages.map(p => p.pageNum).join('-')]. *)
Definition pageRange (group : Group) : list N :=
  joinWith (js "-") (map (fun p => numToString (pageNum p)) (pages group)).

(** [`1-${numPages}`]. *)
Definition wholeRange (numPages : nat) : list N :=
  js "1-" ++ numToString numPages.

Definition statusName (s : Verification.Status) : list N :=
  match s with
  | Verification.PRESENT => js "PRESENT"
  | Verification.UNCERTAIN => js "UNCERTAIN"
  | Verification.MISSING => js "MISSING"
  end.

Definition overallName (s : Verification.OverallStatus) : list N :=
  match s with
  | Verification.COMPLETE => js "COMPLETE"
  | Verification.DATE_MISSING => js "DATE_MISSING"
  | Verification.STAMP_MISSING => js "STAMP_MISSING"
  | Verification.SIGNATURE_MISSING => js "SIGNATURE_MISSING"
  | Verification.BOTH_MISSING => js "BOTH_MISSING"
  | Verification.NEEDS_REVIEW => js "NEEDS_REVIEW"
  end.

(** [verification.summary]. *)
Definition summaryOf (v : Verification.RegionVerification) : list N :=
  js "Stamp: " ++ statusName (Verification.status (Verification.stamp v))
  ++ js " | Signature: "
  ++ statusName (Verification.status (Verification.signature v))
  ++ js " | Date: " ++ statusName (Verification.date v).

(** The code units of the three signs used in the messages. *)
Definition warningSign : list N := [9888; 65039]%N.
Definition crossMark : list N := [10060]%N.
Definition magnifier : list N := [55357; 56589]%N.

Definition formatVerificationMessage (fileName pageRange cr : list N)
    (verification : Verification.RegionVerification) : list N :=
  let msg := fileName ++ js " p." ++ pageRange ++ js " (" ++ cr ++ js "): " in
  match Verification.overallStatus verification with
  | Verification.STAMP_MISSING =>
    msg ++ warningSign ++ js " Stamp MISSING - please verify stamp is applied"
  | Verification.SIGNATURE_MISSING =>
    msg ++ warningSign
    ++ js " Signature MISSING - please verify document is signed"
  | Verification.BOTH_MISSING =>
    msg ++ crossMark
    ++ js " Both stamp AND signature MISSING - document incomplete"
  | Verification.DATE_MISSING =>
    msg ++ warningSign
    ++ js " Date MISSING - stamp & signature OK but date field empty"
  | Verification.NEEDS_REVIEW =>
    msg ++ magnifier ++ js " Manual check needed (Stamp: "
    ++ statusName (Verification.status (Verification.stamp verification))
    ++ js ", Sig: "
    ++ statusName (Verification.status (Verification.signature verification))
    ++ js ")"
  | Verification.COMPLETE => msg ++ summaryOf verification
  end.

(** The entries of the manifest; a field that an entry does not have is
    [None], as is a [null] one. *)
Record ManifestEntry := mkManifestEntry {
  e_input : list N;
  e_outputFile : option (list N);
  e_cr : option (list N);
  e_type : option CRType;
  e_status : list N;
  e_stampStatus : option (list N);
  e_signatureStatus : option (list N);
  e_pages : list N;
  e_notes : list N
}.

(** What the processing of a file returns and leaves behind: the manifest
    entries, the names pushed to [window._generatedFiles] and the messages
    pushed to [window._manualBySource[file.name]]. *)
Record Output := mkOutput {
  o_input : list N;
  o_pages : nat;
  manifestEntries : list ManifestEntry;
  generated : list (list N);
  manual : list (list N)
}.

(** [name.replace(/\.pdf$/i, '_signed.pdf')]. *)
Definition isPdfSuffix (s : list N) : bool :=
  match s with
  | [dot; p; d; f] =>
    (dot =? 46)%N && ((p =? 112)%N || (p =? 80)%N)
    && ((d =? 100)%N || (d =? 68)%N) && ((f =? 102)%N || (f =? 70)%N)
  | _ => false
  end.

Fixpoint replacePdfSuffix (name : list N) : list N :=
  match name with
  | [] => []
  | c :: rest =>
    if isPdfSuffix name then js "_signed.pdf" else c :: replacePdfSuffix rest
  end.

(** The elements of [allCRs] in [handleSignedPDF]. *)
Record CRRef := mkRef { r_value : list N; r_type : option CRType }.

(** One call of the function passed to [pages.forEach]. *)
Definition collectCR (allCRs : list CRRef) (p : Page) : list CRRef :=
  match cr p with
  | Some v =>
    if truthy (cr p) && negb (existsb (fun c => streq (r_value c) v) allCRs)
    then allCRs ++ [mkRef v (crType p)]
    else allCRs
  | None => allCRs
  end.

Section WithHost.

Variable toUpperCase : list N -> list N.
Variable exec : Locator.Pattern -> list N -> option Locator.Match.
Variable matchAll : Locator.Pattern -> list N -> list Locator.Match.

(** What the try block of [processFile] does with a group before it
    reports: the verification of the group's last page, or the message of
    the error thrown. *)
Variable verify : Group -> list N + Verification.RegionVerification.

(** The page record that [processFile] pushes for page [i], given the text
    read from the page (by extraction or by OCR). *)
Definition pageRecord (relax : bool) (i : nat) (pageText : list N)
    (ocr : bool) : Page :=
  let rawCandidates :=
    Locator.findCRsOnText toUpperCase exec matchAll pageText in
  let candidates := chooseValidCRs rawCandidates relax in
  mkPage i (i + 1) pageText ocr
    (match candidates with
     | [c] => Some (Locator.value c)
     | _ => None
     end)
    (match candidates with
     | [c] => Some (Locator.type c)
     | _ => None
     end).

(** The page records of a file, from the texts of its pages. *)
Fixpoint pageRecords (relax : bool) (i : nat) (texts : list (list N * bool))
    : list Page :=
  match texts with
  | [] => []
  | (pageText, ocr) :: rest =>
    pageRecord relax i pageText ocr :: pageRecords relax (i + 1) rest
  end.

Definition handleSignedPDF (fileName : list N) (pages : list Page)
    (numPages : nat) : Output :=
  let allCRs := fold_left collectCR pages [] in
  let allCRs :=
    match allCRs with
    | [] =>
      let combinedText := joinWith (js " ") (map text pages) in
      match Locator.findCRsOnText toUpperCase exec matchAll combinedText with
      | c :: _ => [mkRef (Locator.value c) (Some (Locator.type c))]
      | [] => []
      end
    | _ :: _ => allCRs
    end in
  match allCRs with
  | cr :: _ =>
    let outName := r_value cr ++ js ".pdf" in
    mkOutput fileName numPages
      [mkManifestEntry fileName (Some outName) (Some (r_value cr)) (r_type cr)
         (js "DIGITAL_SIGNATURE_VALID") (Some (js "N/A")) (Some (js "DIGITAL"))
         (wholeRange numPages)
         (js "Digital signature preserved - original PDF bytes unchanged")]
      [outName] []
  | [] =>
    let outName := replacePdfSuffix fileName in
    mkOutput fileName numPages
      [mkManifestEntry fileName (Some outName) None None
         (js "DIGITAL_SIG_NO_CR") (Some (js "N/A")) (Some (js "DIGITAL"))
         (wholeRange numPages)
         (js "Digital signature preserved but CR not detected")]
      [outName]
      [fileName
       ++ js ": Digital signature valid but CR number not detected - please verify CR manually"]
  end.

(** [[...].includes(verification.overallStatus)] in [processFile]. *)
Definition needsManualReview (s : Verification.OverallStatus) : bool :=
  existsb (fun name => streq name (overallName s))
    [js "NEEDS_REVIEW"; js "STAMP_MISSING"; js "SIGNATURE_MISSING";
     js "BOTH_MISSING"; js "DATE_MISSING"].

(** One iteration of [for (const group of crGroups)]. *)
Definition processGroup (fileName : list N) (acc : Output) (group : Group)
    : Output :=
  if negb (truthy (g_cr group)) then acc
  else
    let cr := default [] (g_cr group) in
    match verify group with
    | inr verification =>
      let outName := cr ++ js ".pdf" in
      mkOutput (o_input acc) (o_pages acc)
        (manifestEntries acc
         ++ [mkManifestEntry fileName (Some outName) (g_cr group)
               (g_crType group)
               (overallName (Verification.overallStatus verification))
               (Some (statusName
                        (Verification.status (Verification.stamp verification))))
               (Some (statusName
                        (Verification.status
                           (Verification.signature verification))))
               (pageRange group) (summaryOf verification)])
        (generated acc ++ [outName])
        (if needsManualReview (Verification.overallStatus verification)
         then manual acc
              ++ [formatVerificationMessage fileName (pageRange group) cr
                    verification]
         else manual acc)
    | inl message =>
      mkOutput (o_input acc) (o_pages acc)
        (manifestEntries acc
         ++ [mkManifestEntry fileName None (g_cr group) (g_crType group)
               (js "ERROR") None None (pageRange group) message])
        (generated acc) (manual acc)
    end.

(** What a group adds to the manifest, to the generated files and to the
    messages. *)
Definition groupEntry (fileName : list N) (group : Group) : ManifestEntry :=
  match verify group with
  | inr verification =>
    mkManifestEntry fileName (Some (default [] (g_cr group) ++ js ".pdf"))
      (g_cr group) (g_crType group)
      (overallName (Verification.overallStatus verification))
      (Some (statusName (Verification.status (Verification.stamp verification))))
      (Some (statusName
               (Verification.status (Verification.signature verification))))
      (pageRange group) (summaryOf verification)
  | inl message =>
    mkManifestEntry fileName None (g_cr group) (g_crType group) (js "ERROR")
      None None (pageRange group) message
  end.

Definition groupFile (group : Group) : list (list N) :=
  match verify group with
  | inr _ => [default [] (g_cr group) ++ js ".pdf"]
  | inl _ => []
  end.

Definition groupMessage (fileName : list N) (group : Group) : list (list N) :=
  match verify group with
  | inr verification =>
    if needsManualReview (Verification.overallStatus verification)
    then [formatVerificationMessage fileName (pageRange group)
            (default [] (g_cr group)) verification]
    else []
  | inl _ => []
  end.


(** The entry of a file without any group. *)
Definition noGroupEntry (fileName : list N) (numPages : nat) : ManifestEntry :=
  mkManifestEntry fileName None None None (js "NO_CR_FOUND") None None
    (wholeRange numPages) (js "No valid confirmation numbers found").

(** [processFile] from the page records on: the branch for a digitally
    signed file, or the groups and their entries. *)
Definition processPages (fileName : list N) (pages : list Page)
    (hasDigitalSig : bool) : Output :=
  let numPages := length pages in
  if hasDigitalSig then handleSignedPDF fileName pages numPages
  else
    let crGroups := groupPagesByCR pages in
    let out :=
      fold_left (processGroup fileName) crGroups
        (mkOutput fileName numPages [] [] []) in
    match manifestEntries out with
    | [] =>
      mkOutput fileName numPages
        [mkManifestEntry fileName None None None (js "NO_CR_FOUND") None None
           (wholeRange numPages) (js "No valid confirmation numbers found")]
        (generated out) (manual out)
    | _ :: _ => out
    end.

Definition processFile (relax : bool) (fileName : list N)
    (texts : list (list N * bool)) (hasDigitalSig : bool) : Output :=
  processPages fileName (pageRecords relax 0 texts) hasDigitalSig.

End WithHost.

(** The counters of [onRun]. *)
Record Stats := mkStats {
  files : nat;
  crFound : nat;
  outputs : nat;
  complete : nat;
  needsReview : nat
}.

(** The two tests of [onRun] on the status of an entry. *)
Definition countedComplete (e : ManifestEntry) : bool :=
  streq (e_status e) (js "COMPLETE")
  || streq (e_status e) (js "DIGITAL_SIGNATURE_PRESERVED").

Definition countedReview (e : ManifestEntry) : bool :=
  existsb (fun name => streq name (e_status e))
    [js "NEEDS_REVIEW"; js "STAMP_MISSING"; js "SIGNATURE_MISSING";
     js "BOTH_MISSING"; js "AMBIGUOUS"; js "MANUAL_REVIEW"].

(** The function passed to [result.manifestEntries.forEach]. *)
Definition countEntry (stats : Stats) (e : ManifestEntry) : Stats :=
  let stats :=
    if truthy (e_cr e)
    then mkStats (files stats) (crFound stats + 1) (outputs stats)
           (complete stats) (needsReview stats)
    else stats in
  let stats :=
    if truthy (e_outputFile e)
    then mkStats (files stats) (crFound stats) (outputs stats + 1)
           (complete stats) (needsReview stats)
    else stats in
  let stats :=
    if countedComplete e
    then mkStats (files stats) (crFound stats) (outputs stats)
           (complete stats + 1) (needsReview stats)
    else stats in
  if countedReview e
  then mkStats (files stats) (crFound stats) (outputs stats) (complete stats)
         (needsReview stats + 1)
  else stats.

(** One iteration of the loop of [onRun] over the selected files: a file
    whose processing throws is skipped. *)
Definition countFile (stats : Stats) (result : option Output) : Stats :=
  match result with
  | Some r =>
    fold_left countEntry (manifestEntries r)
      (mkStats (files stats + 1) (crFound stats) (outputs stats)
         (complete stats) (needsReview stats))
  | None => stats
  end.

Definition onRunStats (results : list (option Output)) : Stats :=
  fold_left countFile results (mkStats 0 0 0 0 0).

End Documents.

(** * Properties *)

(** ** Token normaliser *)

Module TokenFacts.
Import JS Token.

Ltac by_comparisons :=
  repeat match goal with
         | |- context [N.eqb ?a ?b] => destruct (N.eqb_spec a b); try lia
         | |- context [N.leb ?a ?b] => destruct (N.leb_spec a b); try lia
         end;
  try reflexivity.

Lemma isDigit_range c : isDigit c = true -> (48 <= c <= 57)%N.
Proof.
  unfold isDigit. intros H. apply andb_prop in H as [H1 H2].
  apply N.leb_le in H1. apply N.leb_le in H2. lia.
Qed.

Lemma digit_not_space c : isDigit c = true -> isSpace c = false.
Proof. intros H%isDigit_range. unfold isSpace. by_comparisons. Qed.

Lemma digit_not_separator c : isDigit c = true -> isSeparator c = false.
Proof.
  intros H. unfold isSeparator. rewrite (digit_not_space c H).
  apply isDigit_range in H. by_comparisons.
Qed.

Lemma digit_not_nbsp c : isDigit c = true -> (c =? 160)%N = false.
Proof. intros H%isDigit_range. by_comparisons. Qed.

Lemma digit_not_substituted c :
  isDigit c = true ->
  isOQ c = false /\ isIL c = false /\ isS c = false /\ isB c = false
  /\ isG c = false /\ isZ c = false.
Proof.
  intros H%isDigit_range. unfold isOQ, isIL, isS, isB, isG, isZ.
  repeat split; by_comparisons.
Qed.

Lemma replaceClass_untouched p r s :
  (forall c, In c s -> p c = false) -> replaceClass p r s = s.
Proof.
  unfold replaceClass. induction s as [|c s IH]; intros H; [reflexivity|].
  cbn [map]. rewrite (H c (or_introl eq_refl)).
  f_equal. apply IH. intros d Hd. apply H. now right.
Qed.

Lemma removeClass_untouched p s :
  (forall c, In c s -> p c = false) -> removeClass p s = s.
Proof.
  unfold removeClass. induction s as [|c s IH]; intros H; [reflexivity|].
  cbn [List.filter]. rewrite (H c (or_introl eq_refl)). cbn [negb].
  f_equal. apply IH. intros d Hd. apply H. now right.
Qed.

Lemma removeClass_notDigit_digits s :
  forallb isDigit (removeClass notDigit s) = true.
Proof.
  unfold removeClass, notDigit. induction s as [|c s IH]; [reflexivity|].
  cbn [List.filter]. destruct (isDigit c) eqn:E; cbn [negb]; [|exact IH].
  cbn [forallb]. now rewrite E.
Qed.

(** A string of digits contains no white space: cleaning leaves it as is. *)
Lemma removeClass_isSpace_digits s :
  forallb isDigit s = true -> removeClass isSpace s = s.
Proof.
  intros H. apply removeClass_untouched. intros c Hc.
  apply digit_not_space. rewrite forallb_forall in H. now apply H.
Qed.

Section WithUpperCase.

Variable toUpperCase : list N -> list N.

(** Decimal digits have no case mapping. *)
Hypothesis toUpperCase_digits :
  forall s, forallb isDigit s = true -> toUpperCase s = s.

Lemma normalizeToken_digits (x : list N) :
  forallb isDigit (normalizeToken toUpperCase x) = true.
Proof.
  unfold normalizeToken. destruct x; [reflexivity|].
  apply removeClass_notDigit_digits.
Qed.

Lemma normalizeToken_fixes_digits (s : list N) :
  forallb isDigit s = true -> normalizeToken toUpperCase s = s.
Proof.
  intros H. unfold normalizeToken. destruct s as [|c0 s0] eqn:Es; [reflexivity|].
  rewrite <- Es in *. clear Es c0 s0.
  assert (Hall : forall c, In c s -> isDigit c = true)
    by (now apply forallb_forall).
  rewrite (replaceClass_untouched _ 32%N s)
    by (intros c Hc; apply digit_not_nbsp; auto).
  rewrite (removeClass_untouched isSeparator s)
    by (intros c Hc; apply digit_not_separator; auto).
  rewrite (toUpperCase_digits s H).
  rewrite (replaceClass_untouched isOQ)
    by (intros c Hc; apply (digit_not_substituted c); auto).
  rewrite (replaceClass_untouched isIL)
    by (intros c Hc; apply (digit_not_substituted c); auto).
  rewrite (replaceClass_untouched isS)
    by (intros c Hc; apply (digit_not_substituted c); auto).
  rewrite (replaceClass_untouched isB)
    by (intros c Hc; apply (digit_not_substituted c); auto).
  rewrite (replaceClass_untouched isG)
    by (intros c Hc; apply (digit_not_substituted c); auto).
  rewrite (replaceClass_untouched isZ)
    by (intros c Hc; apply (digit_not_substituted c); auto).
  apply removeClass_untouched. intros c Hc. unfold notDigit.
  now rewrite (Hall c Hc).
Qed.

(** C8. The token normaliser is idempotent: normalising its own output
    changes nothing, and a string that already consists of digits only is
    returned unchanged. *)
Theorem normalizeToken_idempotent (x : list N) :
  normalizeToken toUpperCase (normalizeToken toUpperCase x)
  = normalizeToken toUpperCase x
  /\ (forallb isDigit x = true -> normalizeToken toUpperCase x = x).
Proof.
  split.
  - apply normalizeToken_fixes_digits, normalizeToken_digits.
  - apply normalizeToken_fixes_digits.
Qed.

End WithUpperCase.

Lemma asciiToUpperCase_digits s :
  forallb isDigit s = true -> asciiToUpperCase s = s.
Proof.
  intros H. unfold asciiToUpperCase.
  induction s as [|c s IH]; [reflexivity|].
  cbn [forallb] in H. apply andb_prop in H as [Hc Hs].
  cbn [map]. rewrite (IH Hs). f_equal.
  apply isDigit_range in Hc. by_comparisons.
Qed.

(** The OCR confusions of the repository's heuristic checks. *)
Example normalizeToken_ocr_confusions :
  normalizeToken asciiToUpperCase (js "SS4131") = js "554131"
  /\ normalizeToken asciiToUpperCase (js "1O176660") = js "10176660"
  /\ normalizeToken asciiToUpperCase (js "I0176660") = js "10176660"
  /\ normalizeToken asciiToUpperCase (js "5 7-7.7,7_0") = js "577770".
Proof. repeat split. Qed.

Lemma normalizeToken_idempotent_witness :
  normalizeToken asciiToUpperCase (normalizeToken asciiToUpperCase (js "sS4-13 l"))
  = normalizeToken asciiToUpperCase (js "sS4-13 l")
  /\ normalizeToken asciiToUpperCase (js "554131") = js "554131".
Proof.
  split.
  - exact (proj1 (normalizeToken_idempotent asciiToUpperCase
                    asciiToUpperCase_digits (js "sS4-13 l"))).
  - apply (proj2 (normalizeToken_idempotent asciiToUpperCase
                    asciiToUpperCase_digits (js "554131"))).
    reflexivity.
Defined.

End TokenFacts.

(** ** Stamp and signature decision table *)

Module VerificationFacts.
Import Verification.

(** C7. Whatever the measurements and thresholds, the overall status that
    [analyzeStampAndSignature] returns is the one the decision table gives
    for the stamp status, signature status and date presence it computed:
    both present gives COMPLETE with a date and DATE_MISSING without, both
    missing gives BOTH_MISSING, one missing and the other present gives
    STAMP_MISSING or SIGNATURE_MISSING, and an uncertain status gives
    NEEDS_REVIEW; no other status satisfies the table. *)
Theorem overallStatus_follows_table
    (num : Type) (geb gtb : num -> num -> bool) (falsy : num -> bool)
    (times : num -> num -> num) (lit_0_5 lit_0_1 defaultBlue : num)
    (configBlue : option num) (analysis : ROIAnalysis num)
    (dateAnalysis : DateAnalysis) (signatureAnalysis : StrokeAnalysis num) :
  let v := analyzeStampAndSignature num geb gtb falsy times lit_0_5 lit_0_1
             defaultBlue configBlue analysis dateAnalysis signatureAnalysis in
  date v = (if hasDate dateAnalysis then PRESENT else MISSING)
  /\ forall o,
       tableRow (status (stamp v)) (status (signature v))
         (hasDate dateAnalysis) o
       <-> overallStatus v = o.
Proof.
  cbn zeta. split; [reflexivity|].
  unfold analyzeStampAndSignature. cbn [overallStatus stamp signature].
  destruct (status (stampOf _ _ _ _ _ _)), (status (signatureOf _ _ _ _ _)),
    (hasDate dateAnalysis); cbn [overallOf];
    intros o; (split; [inversion 1; reflexivity | intros <-; constructor]).
Qed.

End VerificationFacts.

(** ** Identifier locator *)

Module LocatorFacts.
Import JS Token Locator.

Section WithHost.

Variable toUpperCase : list N -> list N.
Variable exec : Pattern -> list N -> option Match.
Variable matchAll : Pattern -> list N -> list Match.

Hypothesis toUpperCase_digits :
  forall s, forallb isDigit s = true -> toUpperCase s = s.

Abbreviation valid r := (isValidCR (value r) = true).

Lemma firstSome_sound {A B : Type} (P : B -> Prop) (f : A -> option B) l b :
  (forall a b', f a = Some b' -> P b') -> firstSome f l = Some b -> P b.
Proof.
  intros Hf. induction l as [|a l IH]; cbn [firstSome]; [discriminate|].
  destruct (f a) eqn:E; [intros [= <-]; eauto | exact IH].
Qed.

Lemma tryDirect_valid searchText rx r :
  tryDirect toUpperCase exec searchText rx = Some r -> valid r.
Proof.
  unfold tryDirect. destruct (exec rx searchText) as [m|]; [|discriminate].
  destruct (truthy (m_1 m)); [|discriminate].
  destruct (isValidCR _) eqn:E; [|discriminate].
  now intros [= <-].
Qed.

Lemma tryToken_valid rx ty w anchorEnd veto r :
  tryToken toUpperCase exec rx ty w anchorEnd veto = Some r -> valid r.
Proof.
  unfold tryToken. destruct (exec rx w) as [m|]; [|discriminate].
  destruct (negb (veto m)); cbn [andb]; [|discriminate].
  destruct (isValidCR _) eqn:E; [|discriminate].
  now intros [= <-].
Qed.

Lemma tryStrictAnchor_valid t rx r :
  tryStrictAnchor toUpperCase exec t rx = Some r -> valid r.
Proof.
  unfold tryStrictAnchor. destruct (exec rx t) as [m|]; [|discriminate].
  destruct (tryToken _ _ TokenH01 _ _ _ _) eqn:E.
  - intros [= <-]. eapply tryToken_valid, E.
  - apply tryToken_valid.
Qed.

Lemma tryBroadAnchor_valid t rx r :
  tryBroadAnchor toUpperCase exec t rx = Some r -> valid r.
Proof.
  unfold tryBroadAnchor. destruct (exec rx t) as [m|]; [|discriminate].
  destruct (tryToken _ _ TokenH01 _ _ _ _) eqn:E.
  - intros [= <-]. eapply tryToken_valid, E.
  - apply tryToken_valid.
Qed.

Lemma globalH01_valid t r :
  In r (globalH01 toUpperCase exec matchAll t) -> valid r.
Proof.
  unfold globalH01. rewrite in_flat_map. intros (m & _ & Hr).
  destruct (isValidCR _) eqn:E; cbn [andb] in Hr; [|destruct Hr].
  destruct (_ && _) in Hr; [|destruct Hr].
  destruct Hr as [<-|[]]. exact E.
Qed.

Lemma globalEP1_valid t r :
  In r (globalEP1 toUpperCase exec matchAll t) -> valid r.
Proof.
  unfold globalEP1. rewrite in_flat_map. intros (m & _ & Hr).
  destruct (isValidCR _) eqn:E; cbn [andb] in Hr; [|destruct Hr].
  destruct (_ && _) in Hr; [|destruct Hr].
  destruct Hr as [<-|[]]. exact E.
Qed.

Lemma filter_head_in {A : Type} (f : A -> bool) l x rest :
  List.filter f l = x :: rest -> In x l.
Proof.
  intros H. assert (Hx : In x (List.filter f l)) by (rewrite H; now left).
  now apply filter_In in Hx.
Qed.

Lemma globalSearch_valid t :
  length (globalSearch toUpperCase exec matchAll t) <= 1
  /\ forall r, In r (globalSearch toUpperCase exec matchAll t) -> valid r.
Proof.
  unfold globalSearch.
  destruct (List.filter isMedium (globalH01 _ _ _ t)) as [|best rest] eqn:Ef.
  - destruct (globalH01 _ _ _ t) as [|h hs] eqn:Eh.
    + cbn [app].
      destruct (globalEP1 _ _ _ t) as [|e es] eqn:Ee; [split; [cbn; lia | intros ? []]|].
      destruct (List.filter isMedium (e :: es)) as [|b bs] eqn:Eb.
      * split; [cbn; lia|]. intros r [<-|[]].
        apply (globalEP1_valid t). rewrite Ee. now left.
      * split; [cbn; lia|]. intros r [<-|[]].
        apply (globalEP1_valid t). rewrite Ee. eapply filter_head_in, Eb.
    + destruct (List.filter isMedium (h :: hs)) as [|b bs] eqn:Eb.
      * split; [cbn; lia|]. intros r [<-|[]].
        apply (globalH01_valid t). rewrite Eh. now left.
      * split; [cbn; lia|]. intros r [<-|[]].
        apply (globalH01_valid t). rewrite Eh. eapply filter_head_in, Eb.
  - split; [cbn; lia|]. intros r [<-|[]].
    apply (globalH01_valid t). eapply filter_head_in, Ef.
Qed.

Lemma valid_digits v : isValidCR v = true -> forallb isDigit v = true.
Proof.
  unfold isValidCR, matchesEP1, matchesH01. destruct v as [|c rest]; [discriminate|].
  intros H. apply orb_prop in H.
  cbn [forallb]. apply andb_true_intro.
  destruct H as [H|H]; apply andb_prop in H as [H Hr];
    apply andb_prop in H as [Hc _]; apply N.eqb_eq in Hc; subst c;
    split; [reflexivity | exact Hr | reflexivity | exact Hr].
Qed.

(** C5. On every text [findCRsOnText] returns at most one match, and the
    value of a returned match has one of the two accepted shapes, eight
    digits led by 1 or six digits led by 5; normalising that value again
    leaves it unchanged, so it has the shape after normalisation too. *)
Theorem findCRsOnText_at_most_one_valid (text : list N) :
  length (findCRsOnText toUpperCase exec matchAll text) <= 1
  /\ forall r, In r (findCRsOnText toUpperCase exec matchAll text) ->
       (matchesEP1 (value r) = true \/ matchesH01 (value r) = true)
       /\ normalizeToken toUpperCase (value r) = value r
       /\ isValidCR (normalizeToken toUpperCase (value r)) = true.
Proof.
  assert (Hshape : forall r, valid r ->
            (matchesEP1 (value r) = true \/ matchesH01 (value r) = true)
            /\ normalizeToken toUpperCase (value r) = value r
            /\ isValidCR (normalizeToken toUpperCase (value r)) = true).
  { intros r Hr.
    pose proof (TokenFacts.normalizeToken_fixes_digits toUpperCase
                  toUpperCase_digits (value r) (valid_digits _ Hr)) as Hn.
    rewrite Hn. repeat split; [now apply orb_prop | exact Hr]. }
  unfold findCRsOnText. destruct text as [|c0 t0] eqn:Et; [split; [cbn; lia | intros ? []]|].
  rewrite <- Et. clear Et c0 t0.
  destruct (firstSome _ [normalizeOCRText text; text]) as [r1|] eqn:E1.
  { split; [cbn; lia|]. intros r [<-|[]]. apply Hshape.
    refine (firstSome_sound (fun r => valid r) _ _ _ _ E1). intros s r Hs.
    refine (firstSome_sound (fun r => valid r) _ _ _ _ Hs).
    intros rx r'. apply tryDirect_valid. }
  destruct (firstSome (tryStrictAnchor _ _ _) _) as [r2|] eqn:E2.
  { split; [cbn; lia|]. intros r [<-|[]]. apply Hshape.
    refine (firstSome_sound (fun r => valid r) _ _ _ _ E2).
    intros rx r. apply tryStrictAnchor_valid. }
  destruct (firstSome (tryBroadAnchor _ _ _) _) as [r3|] eqn:E3.
  { split; [cbn; lia|]. intros r [<-|[]]. apply Hshape.
    refine (firstSome_sound (fun r => valid r) _ _ _ _ E3).
    intros rx r. apply tryBroadAnchor_valid. }
  destruct (globalSearch_valid (normalizeOCRText text)) as [Hlen Hval].
  split; [exact Hlen|]. intros r Hr. apply Hshape, Hval, Hr.
Qed.

End WithHost.

Example normalizeOCRText_spaced_digits :
  normalizeOCRText (js "receipt 5 7 7 7 7 0 from 03.10.2025")
  = js "receipt 577770 from 03.10.2025".
Proof. reflexivity. Qed.

Example findCRsOnText_spaced_label :
  map value
    (findCRsOnText asciiToUpperCase labelExec labelMatchAll
       (js "No. of confirmation of receipt 5 7 7 7 7 O"))
  = [js "577770"].
Proof. reflexivity. Qed.

Lemma findCRsOnText_at_most_one_valid_witness :
  let found := findCRsOnText asciiToUpperCase labelExec labelMatchAll
                 (js "No. of confirmation of receipt 5 7 7 7 7 O") in
  length found <= 1
  /\ forall r, In r found ->
       (matchesEP1 (value r) = true \/ matchesH01 (value r) = true)
       /\ normalizeToken asciiToUpperCase (value r) = value r
       /\ isValidCR (normalizeToken asciiToUpperCase (value r)) = true.
Proof.
  exact (findCRsOnText_at_most_one_valid asciiToUpperCase labelExec
           labelMatchAll TokenFacts.asciiToUpperCase_digits
           (js "No. of confirmation of receipt 5 7 7 7 7 O")).
Defined.

End LocatorFacts.

(** ** Page grouper *)

Module GrouperFacts.
Import JS Token Grouper.


Lemma wellFormed_init : wellFormed (mkLoop [] None).
Proof. split; cbn; [intros ? [] | discriminate | reflexivity]. Qed.

Lemma openGroup_wellFormed st :
  wellFormed st -> openGroup st = currentGroup st.
Proof.
  intros W. unfold openGroup. destruct (currentGroup st) as [g|] eqn:E; [|reflexivity].
  destruct (wf_current st W g E) as [_ Hp]. destruct (pages g); [now destruct Hp | reflexivity].
Qed.

Lemma openGroup_Some st g :
  openGroup st = Some g -> currentGroup st = Some g /\ pages g <> [].
Proof.
  unfold openGroup. destruct (currentGroup st) as [g'|]; [|discriminate].
  destruct (pages g') eqn:E; [discriminate|]. intros [= <-].
  split; [reflexivity | now rewrite E].
Qed.

Lemma openGroup_intro st g :
  currentGroup st = Some g -> pages g <> [] -> openGroup st = Some g.
Proof.
  intros Ec Hp. unfold openGroup. rewrite Ec.
  destruct (pages g); [now destruct Hp | reflexivity].
Qed.

Lemma firstCR_truthy l : truthy (firstCR l) = true \/ firstCR l = None.
Proof.
  induction l as [|p l IH]; cbn [firstCR]; [now right|].
  destruct (truthy (cr p)) eqn:E; [now left | exact IH].
Qed.

Lemma firstCR_none l :
  (forall p, In p l -> truthy (cr p) = false) -> firstCR l = None.
Proof.
  induction l as [|p l IH]; intros H; cbn [firstCR]; [reflexivity|].
  rewrite (H p (or_introl eq_refl)). apply IH. intros q Hq. apply H. now right.
Qed.

Lemma closeCurrent_wellFormed st g :
  wellFormed st -> In g (closeCurrent st) -> identified g.
Proof.
  intros W. unfold closeCurrent. destruct (openGroup st) as [c|] eqn:E.
  - rewrite in_app_iff. intros [H|[<-|[]]]; [now apply (wf_groups st W)|].
    apply (wf_current st W). now apply openGroup_Some.
  - apply (wf_groups st W).
Qed.

Lemma visitPage_wellFormed st page following :
  wellFormed st -> wellFormed (visitPage st page following).
Proof.
  intros W. unfold visitPage.
  destruct (truthy (cr page)) eqn:Ecr.
  - destruct (currentGroup st) as [g|] eqn:Ec.
    + destruct (bool_decide (g_cr g = cr page)).
      * split; cbn.
        -- apply (wf_groups st W).
        -- intros ? [= <-]. destruct (wf_current st W g Ec) as [H1 H2].
           split; cbn; [exact H1 | now destruct (pages g)].
        -- discriminate.
      * split; cbn.
        -- intros g'. apply closeCurrent_wellFormed, W.
        -- intros ? [= <-]. split; cbn; [exact Ecr | discriminate].
        -- discriminate.
    + split; cbn.
      * intros g'. apply closeCurrent_wellFormed, W.
      * intros ? [= <-]. split; cbn; [exact Ecr | discriminate].
      * discriminate.
  - destruct (openGroup st) as [g|] eqn:Eo.
    + apply openGroup_Some in Eo as [Ec Hp]. split; cbn.
      * apply (wf_groups st W).
      * intros ? [= <-]. destruct (wf_current st W g Ec) as [H1 H2].
        split; cbn; [exact H1 | now destruct (pages g)].
      * discriminate.
    + destruct (truthy (lookAhead following)) eqn:El; [|exact W].
      split; cbn.
      * apply (wf_groups st W).
      * intros ? [= <-]. split; cbn; [exact El | discriminate].
      * discriminate.
Qed.

Lemma visitAll_wellFormed ps st : wellFormed st -> wellFormed (visitAll st ps).
Proof.
  revert st. induction ps as [|p ps IH]; intros st W; cbn [visitAll]; [exact W|].
  apply IH, visitPage_wellFormed, W.
Qed.

Lemma visitFirst_wellFormed n ps st :
  wellFormed st -> wellFormed (visitFirst n st ps).
Proof.
  revert ps st. induction n as [|n IH]; intros [|p ps] st W; cbn [visitFirst];
    try exact W.
  apply IH, visitPage_wellFormed, W.
Qed.

(** The loop can be cut after any number of iterations. *)
Lemma visitAll_resume n ps st :
  visitAll st ps = visitAll (visitFirst n st ps) (drop n ps).
Proof.
  revert ps st. induction n as [|n IH]; intros [|p ps] st; cbn; try reflexivity.
  apply IH.
Qed.

(** Closed groups stay where they are. *)
Lemma closed_groups_prefix ps st :
  exists others, closeCurrent (visitAll st ps) = groups st ++ others.
Proof.
  revert st. induction ps as [|p ps IH]; intros st; cbn [visitAll].
  - unfold closeCurrent. destruct (openGroup st); eauto. exists []. now rewrite app_nil_r.
  - destruct (IH (visitPage st p ps)) as [others Ho]. rewrite Ho.
    unfold visitPage.
    destruct (truthy (cr p)).
    + destruct (currentGroup st) as [g|] eqn:Ec.
      * destruct (bool_decide (g_cr g = cr p)); cbn [groups]; eauto.
        unfold closeCurrent. destruct (openGroup st); eauto.
        rewrite <- app_assoc. eauto.
      * cbn [groups]. unfold closeCurrent. destruct (openGroup st); eauto.
        rewrite <- app_assoc. eauto.
    + destruct (openGroup st); cbn [groups]; eauto.
      destruct (truthy (lookAhead ps)); cbn [groups]; eauto.
Qed.

(** The open group ends up in the list of groups, right after the groups
    closed before it, possibly with more pages at its end. *)
Lemma open_group_position ps st g :
  currentGroup st = Some g -> pages g <> [] ->
  exists G more others,
    closeCurrent (visitAll st ps) = groups st ++ G :: others
    /\ g_cr G = g_cr g /\ pages G = pages g ++ more.
Proof.
  revert st g. induction ps as [|p ps IH]; intros st g Ec Hp; cbn [visitAll].
  - exists g, [], []. unfold closeCurrent.
    rewrite (openGroup_intro st g Ec Hp), app_nil_r. auto.
  - pose proof (openGroup_intro st g Ec Hp) as Eo.
    unfold visitPage. rewrite Ec, Eo.
    destruct (truthy (cr p)).
    + destruct (bool_decide (g_cr g = cr p)).
      * destruct (IH (mkLoop (groups st) (Some (pushPages [p] g))) _ eq_refl)
          as (G & more & others & H1 & H2 & H3).
        { cbn. now destruct (pages g). }
        exists G, (p :: more), others. cbn in H1, H2, H3.
        rewrite H1, H2, H3, <- app_assoc. auto.
      * destruct (closed_groups_prefix ps
                    (mkLoop (closeCurrent st) (Some (mkGroup (cr p) (crType p) [p]))))
          as [others Ho].
        rewrite Ho. cbn [groups]. unfold closeCurrent. rewrite Eo.
        exists g, [], others. rewrite <- app_assoc, app_nil_r. auto.
    + destruct (IH (mkLoop (groups st) (Some (pushPages [p] g))) _ eq_refl)
        as (G & more & others & H1 & H2 & H3).
      { cbn. now destruct (pages g). }
      exists G, (p :: more), others. cbn in H1, H2, H3.
      rewrite H1, H2, H3, <- app_assoc. auto.
Qed.


Lemma closeCurrent_holds st G q :
  In G (closeCurrent st) -> In q (pages G) -> holdsPage st q.
Proof.
  unfold closeCurrent. destruct (openGroup st) as [c|] eqn:E.
  - rewrite in_app_iff. intros [H|[<-|[]]] Hq; [left; eauto|].
    right. exists c. split; [now apply openGroup_Some | exact Hq].
  - intros H Hq. left. eauto.
Qed.

Lemma visitPage_holds st p following q :
  holdsPage (visitPage st p following) q -> q = p \/ holdsPage st q.
Proof.
  unfold visitPage.
  destruct (truthy (cr p)).
  - destruct (currentGroup st) as [g|] eqn:Ec.
    + destruct (bool_decide (g_cr g = cr p)).
      * intros [(g' & Hg & Hq)|(g' & [= <-] & Hq)]; cbn in *.
        -- right. left. eauto.
        -- apply in_app_iff in Hq as [Hq|[<-|[]]]; [|now left].
           right. right. eauto.
      * intros [(g' & Hg & Hq)|(g' & [= <-] & Hq)]; cbn in *.
        -- right. eapply closeCurrent_holds; eauto.
        -- destruct Hq as [<-|[]]. now left.
    + intros [(g' & Hg & Hq)|(g' & [= <-] & Hq)]; cbn in *.
      * right. eapply closeCurrent_holds; eauto.
      * destruct Hq as [<-|[]]. now left.
  - destruct (openGroup st) as [g|] eqn:Eo.
    + apply openGroup_Some in Eo as [Ec _].
      intros [(g' & Hg & Hq)|(g' & [= <-] & Hq)]; cbn in *.
      * right. left. eauto.
      * apply in_app_iff in Hq as [Hq|[<-|[]]]; [|now left].
        right. right. eauto.
    + destruct (truthy (lookAhead following)); [|now right].
      intros [(g' & Hg & Hq)|(g' & [= <-] & Hq)]; cbn in *.
      * right. left. eauto.
      * destruct Hq as [<-|[]]. now left.
Qed.

Lemma visitAll_holds ps st q :
  holdsPage (visitAll st ps) q -> In q ps \/ holdsPage st q.
Proof.
  revert st. induction ps as [|p ps IH]; intros st; cbn [visitAll]; [now right|].
  intros H. apply IH in H as [H|H]; [left; now right|].
  apply visitPage_holds in H as [->|H]; [left; now left | now right].
Qed.

(** The merge keeps every group's identifier and pages, in order. *)
Lemma mergeGroup_new merged G :
  exists M l1, In M (mergeGroup merged G)
               /\ g_cr M = g_cr G /\ pages M = l1 ++ pages G.
Proof.
  induction merged as [|m merged IH]; cbn [mergeGroup].
  - exists G, []. cbn. auto.
  - destruct (bool_decide (g_cr m = g_cr G)) eqn:E.
    + apply bool_decide_eq_true in E.
      exists (pushPages (pages G) m), (pages m). cbn. auto.
    + destruct IH as (M & l1 & H1 & H2 & H3). exists M, l1. cbn. auto.
Qed.

Lemma mergeGroup_old merged G M :
  In M merged ->
  exists M' l2, In M' (mergeGroup merged G)
                /\ g_cr M' = g_cr M /\ pages M' = pages M ++ l2.
Proof.
  induction merged as [|m merged IH]; cbn [mergeGroup]; [intros []|].
  intros [<-|H].
  - destruct (bool_decide (g_cr m = g_cr G)).
    + exists (pushPages (pages G) m), (pages G). cbn. auto.
    + exists m, []. rewrite app_nil_r. cbn. auto.
  - destruct (bool_decide (g_cr m = g_cr G)).
    + exists M, []. rewrite app_nil_r. cbn. auto.
    + destruct (IH H) as (M' & l2 & H1 & H2 & H3). exists M', l2. cbn. auto.
Qed.

Lemma merge_old gs merged M :
  In M merged ->
  exists M' l2, In M' (fold_left mergeGroup gs merged)
                /\ g_cr M' = g_cr M /\ pages M' = pages M ++ l2.
Proof.
  revert merged M. induction gs as [|g gs IH]; intros merged M H; cbn [fold_left].
  - exists M, []. rewrite app_nil_r. auto.
  - destruct (mergeGroup_old merged g M H) as (M1 & l & H1 & H2 & H3).
    destruct (IH _ _ H1) as (M' & l2 & H4 & H5 & H6).
    exists M', (l ++ l2). rewrite H6, H3, H5, H2, <- app_assoc. auto.
Qed.

Lemma merge_member gs merged G :
  In G gs ->
  exists M l1 l2, In M (fold_left mergeGroup gs merged)
                  /\ g_cr M = g_cr G /\ pages M = l1 ++ pages G ++ l2.
Proof.
  revert merged. induction gs as [|g gs IH]; intros merged; [intros []|].
  cbn [fold_left]. intros [<-|H]; [|now apply IH].
  destruct (mergeGroup_new merged g) as (M1 & l1 & H1 & H2 & H3).
  destruct (merge_old gs _ _ H1) as (M' & l2 & H4 & H5 & H6).
  exists M', l1, l2. rewrite H6, H3, H5, H2, <- app_assoc. auto.
Qed.

Lemma merge_head gs M merged :
  exists M' l rest,
    fold_left mergeGroup gs (M :: merged) = M' :: rest
    /\ g_cr M' = g_cr M /\ pages M' = pages M ++ l.
Proof.
  revert M merged. induction gs as [|g gs IH]; intros M merged; cbn [fold_left].
  - exists M, [], merged. rewrite app_nil_r. auto.
  - cbn [mergeGroup]. destruct (bool_decide (g_cr M = g_cr g)).
    + destruct (IH (pushPages (pages g) M) merged) as (M' & l & rest & H1 & H2 & H3).
      exists M', (pages g ++ l), rest. cbn in H2, H3.
      rewrite H1, H2, H3, <- app_assoc. auto.
    + apply IH.
Qed.

Lemma mergeGroup_pages merged G M q :
  In M (mergeGroup merged G) -> In q (pages M) ->
  In q (pages G) \/ exists A, In A merged /\ In q (pages A).
Proof.
  induction merged as [|m merged IH]; cbn [mergeGroup].
  - intros [<-|[]] Hq. now left.
  - destruct (bool_decide (g_cr m = g_cr G)).
    + intros [<-|H] Hq.
      * cbn in Hq. apply in_app_iff in Hq as [Hq|Hq]; [right; exists m; cbn; auto | now left].
      * right. exists M. cbn. auto.
    + intros [<-|H] Hq.
      * right. exists m. cbn. auto.
      * destruct (IH H Hq) as [Hl|(A & HA & HqA)]; [now left|].
        right. exists A. cbn. auto.
Qed.

Lemma merge_pages gs merged M q :
  In M (fold_left mergeGroup gs merged) -> In q (pages M) ->
  (exists G, In G gs /\ In q (pages G))
  \/ exists A, In A merged /\ In q (pages A).
Proof.
  revert merged. induction gs as [|g gs IH]; intros merged; cbn [fold_left].
  - intros H Hq. right. eauto.
  - intros H Hq. destruct (IH _ H Hq) as [(G & HG & HqG)|(A & HA & HqA)].
    + left. exists G. cbn. auto.
    + destruct (mergeGroup_pages _ _ _ _ HA HqA) as [Hg|HA'].
      * left. exists g. cbn. auto.
      * now right.
Qed.

Lemma mergeGroup_identified merged G :
  identified G -> (forall M, In M merged -> identified M) ->
  forall M, In M (mergeGroup merged G) -> identified M.
Proof.
  intros HG. induction merged as [|m merged IH]; intros Hm M; cbn [mergeGroup].
  - now intros [<-|[]].
  - destruct (bool_decide (g_cr m = g_cr G)).
    + intros [<-|H]; [|apply Hm; now right].
      destruct (Hm m (or_introl eq_refl)) as [H1 H2].
      split; cbn; [exact H1 | now destruct (pages m)].
    + intros [<-|H]; [apply Hm; now left|].
      apply IH; [|exact H]. intros A HA. apply Hm. now right.
Qed.

Lemma merge_identified gs merged :
  (forall G, In G gs -> identified G) ->
  (forall M, In M merged -> identified M) ->
  forall M, In M (fold_left mergeGroup gs merged) -> identified M.
Proof.
  revert merged. induction gs as [|g gs IH]; intros merged Hg Hm; cbn [fold_left];
    [exact Hm|].
  apply IH.
  - intros G HG. apply Hg. now right.
  - apply mergeGroup_identified; [apply Hg; now left | exact Hm].
Qed.

Lemma in_take_in {A : Type} n (l : list A) x : In x (take n l) -> In x l.
Proof.
  revert l. induction n as [|n IH]; intros [|a l]; cbn; try tauto.
  intros [H|H]; [now left | right; now apply IH].
Qed.

Lemma no_identifier_no_visit ps :
  (forall p, In p ps -> truthy (cr p) = false) ->
  visitAll (mkLoop [] None) ps = mkLoop [] None.
Proof.
  induction ps as [|p ps IH]; intros H; cbn [visitAll]; [reflexivity|].
  unfold visitPage at 1. rewrite (H p (or_introl eq_refl)). cbn [openGroup currentGroup].
  unfold lookAhead. rewrite firstCR_none; cbn [truthy].
  - apply IH. intros q Hq. apply H. now right.
  - intros q Hq. apply H. right. eapply in_take_in, Hq.
Qed.

(** C10. Every group that [groupPagesByCR] returns has an identifier and at
    least one page, so the branch of [processFile] that skips a group
    without identifier is never taken; pages none of which has an
    identifier produce no group at all. *)
Theorem groups_always_identified (ps : list Page) :
  (forall G, In G (groupPagesByCR ps) ->
     truthy (g_cr G) = true /\ pages G <> []
     /\ skippedByProcessFile G = false)
  /\ ((forall p, In p ps -> truthy (cr p) = false) -> groupPagesByCR ps = []).
Proof.
  split.
  - intros G HG.
    assert (HI : identified G).
    { revert G HG. unfold groupPagesByCR. apply merge_identified.
      - intros G. apply closeCurrent_wellFormed, visitAll_wellFormed, wellFormed_init.
      - intros ? []. }
    destruct HI as [H1 H2]. unfold skippedByProcessFile. now rewrite H1.
  - intros H. unfold groupPagesByCR. now rewrite no_identifier_no_visit.
Qed.

(** C6. A page without identifier is appended to the open group when there
    is one, and then belongs to the resulting group of that identifier,
    right after the pages the open group already had.  When no group is
    open, it becomes the first page of a new group under the first
    identifier found on the next two pages, and that group is the first of
    the result.  When those two pages carry no identifier either, no
    resulting group contains the page.  A three-page document whose first
    page alone carries 577770 yields the single group of its three pages. *)
Theorem page_without_identifier :
  (forall (ps : list Page) (i : nat) (p : Page),
     ps !! i = Some p -> truthy (cr p) = false ->
     let before := visitFirst i (mkLoop [] None) ps in
     let following := drop (S i) ps in
     (forall g, openGroup before = Some g ->
        exists G l1 l2, In G (groupPagesByCR ps) /\ g_cr G = g_cr g
                        /\ pages G = l1 ++ pages g ++ p :: l2)
     /\ (forall c, openGroup before = None -> lookAhead following = Some c ->
           exists G others rest, groupPagesByCR ps = G :: others
                                 /\ g_cr G = Some c /\ pages G = p :: rest)
     /\ (openGroup before = None -> lookAhead following = None ->
         List.NoDup ps ->
         forall G, In G (groupPagesByCR ps) -> ~ In p (pages G)))
  /\ (forall p1 p2 p3 : Page,
        cr p1 = Some (js "577770") ->
        truthy (cr p2) = false -> truthy (cr p3) = false ->
        groupPagesByCR [p1; p2; p3]
        = [mkGroup (Some (js "577770")) (crType p1) [p1; p2; p3]]).
Proof.
  split.
  - intros ps i p Hi Hcr before following.
    assert (W : wellFormed before)
      by apply visitFirst_wellFormed, wellFormed_init.
    assert (Hrun : visitAll (mkLoop [] None) ps
                   = visitAll (visitPage before p following) following).
    { rewrite (visitAll_resume i). fold before.
      rewrite (drop_S ps p i Hi). reflexivity. }
    unfold groupPagesByCR. rewrite Hrun. clear Hrun.
    split; [|split].
    + intros g Eo. unfold visitPage. rewrite Hcr, Eo.
      apply openGroup_Some in Eo as [Ec Hp].
      destruct (open_group_position following
                  (mkLoop (groups before) (Some (pushPages [p] g))) _ eq_refl)
        as (G & more & others & H1 & H2 & H3).
      { cbn. now destruct (pages g). }
      destruct (merge_member (closeCurrent
                  (visitAll (mkLoop (groups before) (Some (pushPages [p] g)))
                     following)) [] G) as (M & l1 & l2 & HM & Hc & Hpg).
      { rewrite H1. apply in_app_iff. right. now left. }
      exists M, l1, (more ++ l2). split; [exact HM|]. split.
      * now rewrite Hc, H2.
      * rewrite Hpg, H3. cbn. now rewrite <- !app_assoc.
    + intros c Eo Hl. unfold visitPage. rewrite Hcr, Eo, Hl.
      assert (Ht : truthy (Some c) = true).
      { unfold lookAhead in Hl.
        destruct (firstCR_truthy (take 2 following)) as [H|H];
          rewrite Hl in H; [exact H | discriminate]. }
      rewrite Ht.
      rewrite (openGroup_wellFormed before W) in Eo.
      rewrite (wf_none before W Eo).
      destruct (open_group_position following
                  (mkLoop [] (Some (mkGroup (Some c) (Some (getCRType (default [] (Some c)))) [p])))
                  _ eq_refl)
        as (G & more & others & H1 & H2 & H3); [discriminate|].
      rewrite H1. cbn [groups app fold_left mergeGroup].
      destruct (merge_head others G []) as (M & l & rest & Hm & Hc & Hpg).
      rewrite Hm. exists M, rest, (more ++ l). split; [reflexivity|]. split.
      * now rewrite Hc, H2.
      * rewrite Hpg, H3. cbn. reflexivity.
    + intros Eo Hl Hnd G HG Hp. unfold visitPage in HG.
      rewrite Hcr, Eo, Hl in HG. cbn [truthy] in HG.
      destruct (merge_pages _ _ _ _ HG Hp) as [(G' & HG' & Hq)|(A & [] & _)].
      apply (closeCurrent_holds _ _ _ HG') in Hq.
      apply visitAll_holds in Hq as [Hq|Hq].
      * rewrite <- (take_drop_middle ps i p Hi) in Hnd.
        apply List.NoDup_remove_2 in Hnd. apply Hnd.
        apply in_app_iff. now right.
      * rewrite (openGroup_wellFormed before W) in Eo.
        destruct Hq as [(g & Hg & _)|(g & Hg & _)].
        -- rewrite (wf_none before W Eo) in Hg. destruct Hg.
        -- rewrite Eo in Hg. discriminate.
  - intros p1 p2 p3 H1 H2 H3.
    unfold groupPagesByCR. cbn [visitAll].
    unfold visitPage at 3. rewrite H1. cbn [truthy js map list_ascii_of_string currentGroup closeCurrent openGroup groups].
    unfold visitPage at 2. rewrite H2. cbn [openGroup currentGroup pages groups pushPages g_cr g_crType app].
    unfold visitPage at 1. rewrite H3. cbn [openGroup currentGroup pages groups pushPages g_cr g_crType app].
    reflexivity.
Qed.

(** In the sample document the first page is dropped and the other four
    form the group of the identifier on the fourth page. *)
Example groupPagesByCR_sampleDocument :
  groupPagesByCR sampleDocument
  = [mkGroup (Some (js "577770")) (Some H01) (drop 1 sampleDocument)].
Proof. reflexivity. Qed.

Lemma page_without_identifier_witness :
  (exists G others rest,
     groupPagesByCR sampleDocument = G :: others
     /\ g_cr G = Some (js "577770") /\ pages G = samplePage 1 None :: rest)
  /\ forall G, In G (groupPagesByCR sampleDocument) ->
               ~ In (samplePage 0 None) (pages G).
Proof.
  split.
  - apply (proj1 (proj2 (proj1 page_without_identifier sampleDocument 1
                           (samplePage 1 None) eq_refl eq_refl))
             (js "577770")); reflexivity.
  - apply (proj2 (proj2 (proj1 page_without_identifier sampleDocument 0
                           (samplePage 0 None) eq_refl eq_refl)));
      [reflexivity | reflexivity |].
    repeat constructor; cbn; intuition discriminate.
Defined.

Lemma groups_always_identified_witness :
  truthy (g_cr (mkGroup (Some (js "577770")) (Some H01)
                  (drop 1 sampleDocument))) = true
  /\ groupPagesByCR [samplePage 0 None; samplePage 1 None] = [].
Proof.
  split.
  - apply (proj1 (groups_always_identified sampleDocument)
             (mkGroup (Some (js "577770")) (Some H01) (drop 1 sampleDocument))).
    vm_compute. left. reflexivity.
  - apply (proj2 (groups_always_identified [samplePage 0 None; samplePage 1 None])).
    intros p [<-|[<-|[]]]; reflexivity.
Defined.

End GrouperFacts.

(** ** Delivery-note validation *)

Module DeliveryNotesFacts.
Import JS DeliveryNotes.

Section Effects.

Variable P : Correction -> Prop.



Lemma invariant_initial total : invariant P (initialState total).
Proof.
  split; cbn.
  - intros x Hx. set_solver.
  - intros a [].
  - constructor.
  - intros e [].
  - intros e [].
  - intros x [].
  - intros x [].
  - intros x [].
Qed.

Lemma effect_invariant st st' : invariant P st -> effect P st st' -> invariant P st'.
Proof.
  intros [I1 I2 I3 I4 I5 I6 I7 I8] E.
  destruct E as [|e He|e He|x Hx|c Hc Hl HP|d n|x Hx]; split; cbn;
    try assumption;
    try (intros ?; rewrite in_app_iff; intros [?|[<-|[]]]; auto; fail).
  - intros y Hy. apply elem_of_union in Hy as [Hy|Hy].
    + apply elem_of_singleton in Hy as ->. right. apply in_app_iff. right. now left.
    + destruct (I1 y Hy); [now left | right; apply in_app_iff; now left].
  - intros a Ha. destruct (I2 a Ha).
    split; [apply elem_of_union; now right | assumption].
  - intros y Hy. apply elem_of_union in Hy as [Hy|Hy].
    + apply elem_of_singleton in Hy as ->. left. apply in_app_iff. right. now left.
    + destruct (I1 y Hy); [left; apply in_app_iff; now left | now right].
  - intros a Ha. apply in_app_iff in Ha as [Ha|[<-|[]]].
    + destruct (I2 a Ha). split; [apply elem_of_union; now right | assumption].
    + split; [apply elem_of_union; left; now apply elem_of_singleton | assumption].
  - rewrite map_app. cbn [map]. apply List.NoDup_app; [exact I3 | repeat constructor; intros [] |].
    intros y Hin [<-|[]]. apply in_map_iff in Hin as (a & Ha & Hin).
    apply Hc. rewrite <- Ha. now apply I2.
Qed.


Lemma grows_refl st : grows st st.
Proof. split; try apply incl_refl. reflexivity. Qed.

Lemma grows_trans st1 st2 st3 : grows st1 st2 -> grows st2 st3 -> grows st1 st3.
Proof.
  intros [] []. split; try (eapply incl_tran; eassumption).
  etransitivity; eassumption.
Qed.

Lemma effect_grows st st' : effect P st st' -> grows st st'.
Proof.
  intros E. destruct E; split; cbn;
    try apply incl_refl; try (apply incl_appl, incl_refl);
    try reflexivity; apply union_subseteq_r.
Qed.

(** A loop all of whose iterations are effects. *)
Lemma loop_invariant {A : Type} (f : State -> A -> State) (Q : A -> Prop) l :
  (forall st a, Q a -> invariant P st -> effect P st (f st a)) ->
  (forall a, In a l -> Q a) ->
  forall st, invariant P st ->
    invariant P (fold_left f l st) /\ grows st (fold_left f l st).
Proof.
  intros Hf. induction l as [|a l IH]; intros HQ st I; cbn [fold_left].
  - split; [exact I | apply grows_refl].
  - assert (E : effect P st (f st a)) by (apply Hf; [apply HQ; now left | exact I]).
    destruct (IH (fun b Hb => HQ b (or_intror Hb)) (f st a)
                (effect_invariant _ _ I E)) as [I' G'].
    split; [exact I'|]. eapply grows_trans; [apply effect_grows, E | exact G'].
Qed.

(** The state in which a given element of the list is visited. *)
Lemma loop_at {A : Type} (f : State -> A -> State) (Q : A -> Prop) l a :
  (forall st a, Q a -> invariant P st -> effect P st (f st a)) ->
  (forall a, In a l -> Q a) ->
  In a l ->
  forall st0, invariant P st0 ->
    exists st, invariant P st /\ grows st0 st
               /\ grows (f st a) (fold_left f l st0).
Proof.
  intros Hf HQ Ha st0 I0.
  apply in_split in Ha as (l1 & l2 & ->).
  rewrite fold_left_app. cbn [fold_left].
  assert (HQ1 : forall b, In b l1 -> Q b)
    by (intros b Hb; apply HQ, in_app_iff; now left).
  assert (HQa : Q a) by (apply HQ, in_app_iff; right; now left).
  assert (HQ2 : forall b, In b l2 -> Q b)
    by (intros b Hb; apply HQ, in_app_iff; right; now right).
  destruct (loop_invariant f Q l1 Hf HQ1 st0 I0) as [I1 G1].
  exists (fold_left f l1 st0). split; [exact I1|]. split; [exact G1|].
  apply (loop_invariant f Q l2 Hf HQ2).
  apply (effect_invariant _ _ I1). now apply Hf.
Qed.

End Effects.

Lemma invariant_weaken (P Q : Correction -> Prop) st :
  (forall c, P c -> Q c) -> invariant P st -> invariant Q st.
Proof.
  intros H [I1 I2 I3 I4 I5 I6 I7 I8]. split; try assumption.
  intros a Ha. destruct (I2 a Ha). auto.
Qed.


Lemma acceptStripped_effect cleaned stripped why n st :
  length stripped = 8 -> 9 <= length cleaned ->
  effect fromLeadingZeros st (acceptStripped cleaned stripped why n st).
Proof.
  intros Hs Hc. unfold acceptStripped, seenHas.
  destruct (bool_decide (stripped ∈ seen st)) eqn:E; cbn [negb].
  - apply eff_duplicate.
  - apply bool_decide_eq_false in E.
    apply (eff_correct _ st (mkCorrection cleaned stripped (js "high") why));
      cbn; [exact E | lia | exact Hc].
Qed.

Lemma classifyCleaned_effect occ st cleaned :
  effect fromLeadingZeros st (classifyCleaned occ st cleaned).
Proof.
  unfold classifyCleaned.
  destruct (isPureDigits cleaned) eqn:Ed; cbn [negb];
    [|apply eff_invalid; now left].
  destruct (Nat.eqb_spec (length cleaned) 8) as [E8|E8].
  { destruct (_ && _); now apply eff_accept. }
  destruct (Nat.eqb_spec (length cleaned) 9) as [E9|E9]; cbn [andb orb].
  { destruct (startsWithZero cleaned).
    - destruct (Nat.eqb_spec (length (stripLeadingZeros cleaned)) 8).
      + apply acceptStripped_effect; [assumption | lia].
      + apply eff_excluded. cbn. now left.
    - rewrite E9. cbn. apply eff_excluded. cbn. now left. }
  destruct (Nat.eqb_spec (length cleaned) 10) as [E10|E10]; cbn [andb orb].
  { destruct (startsWithZero cleaned).
    - destruct (Nat.eqb_spec (length (stripLeadingZeros cleaned)) 8).
      + apply acceptStripped_effect; [assumption | lia].
      + apply eff_excluded. cbn. now right.
    - rewrite E10. cbn. apply eff_excluded. cbn. now right. }
  destruct (Nat.ltb_spec 10 (length cleaned)) as [E11|E11]; cbn [andb].
  { destruct (startsWithZero cleaned).
    - destruct (Nat.eqb_spec (length (stripLeadingZeros cleaned)) 8).
      + apply acceptStripped_effect; [assumption | lia].
      + apply eff_invalid. cbn. now right.
    - destruct (Nat.eqb_spec (length cleaned) 7); [lia|].
      apply eff_invalid. cbn. now right. }
  destruct (Nat.eqb_spec (length cleaned) 7) as [E7|E7].
  - now apply eff_pending.
  - apply eff_invalid. cbn. now right.
Qed.

Lemma classifyNote_effect occ st note :
  effect fromLeadingZeros st (classifyNote occ st note).
Proof.
  unfold classifyNote. destruct (removeClass isSpace note) eqn:E.
  - apply eff_none.
  - rewrite <- E. apply classifyCleaned_effect.
Qed.

Lemma resolvePending_effect occ dom st pending :
  length pending = 7 ->
  effect (fromPrepending dom) st (resolvePending occ dom st pending).
Proof.
  intros H7. unfold resolvePending.
  destruct dom as [[|c d]|]; cbn [truthy from_option id];
    try (apply eff_invalid; cbn; right; lia).
  destruct (bool_decide (charAt0 pending = Some (c :: d))) eqn:Ec.
  { apply eff_invalid. cbn. right. lia. }
  apply bool_decide_eq_false in Ec. unfold seenHas.
  destruct (bool_decide ((c :: d) ++ pending ∈ seen st)) eqn:Es; cbn [negb].
  - apply eff_duplicate.
  - apply bool_decide_eq_false in Es.
    apply (eff_correct _ st
             (mkCorrection pending ((c :: d) ++ pending) (js "high")
                (addedLeadingReason (c :: d)))); cbn.
    + exact Es.
    + rewrite length_app. lia.
    + now right.
Qed.

(** *** The first loop *)

Lemma afterClassification_invariant er :
  invariant fromLeadingZeros (afterClassification er).
Proof.
  unfold afterClassification, classifyAll.
  apply (loop_invariant fromLeadingZeros _ (fun _ => True)); auto.
  - intros st a _ _. apply classifyNote_effect.
  - apply invariant_initial.
Qed.

Lemma classification_at er note :
  In note (unique er) ->
  exists st, invariant fromLeadingZeros st
             /\ grows (classifyNote (occurrenceCount er) st note)
                  (afterClassification er).
Proof.
  intros Hn. unfold afterClassification, classifyAll.
  destruct (loop_at fromLeadingZeros (classifyNote (occurrenceCount er))
              (fun _ => True) (unique er) note) with
    (st0 := initialState (totalCount er)) as (st & I & _ & G); auto.
  - intros st a _ _. apply classifyNote_effect.
  - apply invariant_initial.
  - eauto.
Qed.

(** *** The second loop *)

Lemma afterResolution_invariant er :
  invariant (fromPrepending (dominantDigit (afterClassification er)))
    (afterResolution er)
  /\ grows (afterClassification er) (afterResolution er).
Proof.
  pose proof (afterClassification_invariant er) as I.
  assert (I' : invariant (fromPrepending (dominantDigit (afterClassification er)))
                 (afterClassification er)).
  { eapply invariant_weaken; [|exact I]. intros c Hc. now left. }
  unfold afterResolution, resolveAllPending.
  destruct (pending7Digit (afterClassification er)) eqn:E.
  - split; [exact I' | apply grows_refl].
  - rewrite <- E.
    apply (loop_invariant _ _ (fun p => length p = 7)); [| |exact I'].
    + intros st a Ha _. now apply resolvePending_effect.
    + apply (inv_pending _ _ I).
Qed.

Lemma resolution_at er pending :
  In pending (pending7Digit (afterClassification er)) ->
  exists st,
    invariant (fromPrepending (dominantDigit (afterClassification er))) st
    /\ grows (resolvePending (occurrenceCount er)
                (dominantDigit (afterClassification er)) st pending)
         (afterResolution er).
Proof.
  intros Hp.
  pose proof (afterClassification_invariant er) as I.
  assert (I' : invariant (fromPrepending (dominantDigit (afterClassification er)))
                 (afterClassification er)).
  { eapply invariant_weaken; [|exact I]. intros c Hc. now left. }
  unfold afterResolution, resolveAllPending.
  destruct (pending7Digit (afterClassification er)) eqn:E; [destruct Hp|].
  rewrite <- E in *.
  destruct (loop_at (fromPrepending (dominantDigit (afterClassification er)))
              (resolvePending (occurrenceCount er)
                 (dominantDigit (afterClassification er)))
              (fun p => length p = 7)
              (pending7Digit (afterClassification er)) pending)
    with (st0 := afterClassification er) as (st & Ist & _ & G); auto.
  - intros st a Ha _. now apply resolvePending_effect.
  - apply (inv_pending _ _ I).
  - eauto.
Qed.

(** *** The returned object *)

Lemma merge_duplicates_fields dups st :
  let st' := fold_left mergeExtractedDuplicate dups st in
  accepted (results st') = accepted (results st)
  /\ excluded (results st') = excluded (results st)
  /\ invalid (results st') = invalid (results st)
  /\ autoCorrections (results st') = autoCorrections (results st)
  /\ incl (duplicates (results st)) (duplicates (results st')).
Proof.
  revert st. induction dups as [|d dups IH]; intros st; cbn [fold_left].
  - repeat split; try reflexivity. apply incl_refl.
  - destruct (IH (mergeExtractedDuplicate st d)) as (H1 & H2 & H3 & H4 & H5).
    cbn zeta. rewrite H1, H2, H3, H4. unfold mergeExtractedDuplicate in *.
    destruct (_ && _); [destruct (negb _)|]; cbn in *; repeat split; try reflexivity;
      try exact H5.
    eapply incl_tran; [|exact H5]. apply incl_appl, incl_refl.
Qed.

Lemma validate_fields er :
  let st := afterResolution er in
  let r := validateDeliveryNotes er in
  accepted r = accepted (results st) ++ tempAccepted st
  /\ excluded r = excluded (results st)
  /\ invalid r = invalid (results st)
  /\ autoCorrections r = autoCorrections (results st)
  /\ incl (duplicates (results st)) (duplicates r).
Proof.
  cbn zeta. unfold validateDeliveryNotes.
  destruct (merge_duplicates_fields (extractedDuplicates er)
              (flushTempAccepted (afterResolution er))) as (H1 & H2 & H3 & H4 & H5).
  cbn [setUniqueCount accepted excluded invalid autoCorrections duplicates].
  rewrite H1, H2, H3, H4. repeat split; try reflexivity. exact H5.
Qed.

Lemma isPureDigits_intro s :
  forallb isDigit s = true -> 1 <= length s -> isPureDigits s = true.
Proof.
  intros Hd Hl. unfold isPureDigits. rewrite Hd.
  destruct s; [cbn in Hl; lia | reflexivity].
Qed.

(** A candidate made of digits is classified as it stands. *)
Lemma classifyNote_digits occ st c :
  forallb isDigit c = true -> 1 <= length c ->
  classifyNote occ st c = classifyCleaned occ st c.
Proof.
  intros Hd Hl. unfold classifyNote.
  rewrite (TokenFacts.removeClass_isSpace_digits c Hd).
  destruct c; [cbn in Hl; lia | reflexivity].
Qed.

Lemma classifyCleaned_eight occ st c :
  forallb isDigit c = true -> length c = 8 ->
  classifyCleaned occ st c = pushTempAccepted c (addSeen c st).
Proof.
  intros Hd Hl. unfold classifyCleaned.
  rewrite (isPureDigits_intro c Hd) by lia. cbn [negb].
  rewrite Hl. cbn [Nat.eqb]. now destruct (_ && _).
Qed.

Lemma classifyCleaned_seven occ st c :
  forallb isDigit c = true -> length c = 7 ->
  classifyCleaned occ st c = pushPending c st.
Proof.
  intros Hd Hl. unfold classifyCleaned.
  rewrite (isPureDigits_intro c Hd) by lia. cbn [negb].
  rewrite Hl. reflexivity.
Qed.

Lemma classifyCleaned_long_zero_led occ st c :
  forallb isDigit c = true -> 10 < length c -> startsWithZero c = true ->
  length (stripLeadingZeros c) <> 8 ->
  classifyCleaned occ st c
  = withResults (pushInvalid (mkEntry c (expected8Reason (length c)))) st.
Proof.
  intros Hd Hl Hz Hs. unfold classifyCleaned.
  rewrite (isPureDigits_intro c Hd) by lia. cbn [negb]. rewrite Hz.
  destruct (Nat.eqb_spec (length c) 8); [lia|].
  destruct (Nat.eqb_spec (length c) 9); [lia|].
  destruct (Nat.eqb_spec (length c) 10); [lia|]. cbn [andb].
  destruct (Nat.ltb_spec 10 (length c)); [|lia]. cbn [andb].
  destruct (Nat.eqb_spec (length (stripLeadingZeros c)) 8); [contradiction|].
  reflexivity.
Qed.

Lemma classifyCleaned_zero_led occ st c :
  forallb isDigit c = true -> 9 <= length c -> startsWithZero c = true ->
  length (stripLeadingZeros c) = 8 ->
  exists why n,
    classifyCleaned occ st c = acceptStripped c (stripLeadingZeros c) why n st.
Proof.
  intros Hd Hl Hz Hs. unfold classifyCleaned.
  rewrite (isPureDigits_intro c Hd) by lia. cbn [negb]. rewrite Hz, Hs.
  cbn [Nat.eqb].
  destruct (Nat.eqb_spec (length c) 8); [lia|].
  destruct (Nat.eqb_spec (length c) 9); cbn [andb]; [eauto|].
  destruct (Nat.eqb_spec (length c) 10); cbn [andb]; [eauto|].
  destruct (Nat.ltb_spec 10 (length c)); [|lia]. cbn [andb]. eauto.
Qed.

Lemma acceptStripped_outcome c s why n st :
  let st' := acceptStripped c s why n st in
  s ∈ seen st'
  /\ ((exists a, In a (autoCorrections (results st'))
                 /\ original a = c /\ corrected a = s)
      \/ (exists d, In d (duplicates (results st'))
                    /\ d_value d = s /\ d_reason d = alreadyExistsReason c)).
Proof.
  cbn zeta. unfold acceptStripped, seenHas.
  destruct (bool_decide (s ∈ seen st)) eqn:E; cbn.
  - apply bool_decide_eq_true in E. split; [exact E|]. right.
    eexists. split; [apply in_app_iff; right; now left|]. cbn. auto.
  - split; [apply elem_of_union; left; now apply elem_of_singleton|]. left.
    eexists. split; [apply in_app_iff; right; now left|]. cbn. auto.
Qed.

Lemma at_most_one_with {A B : Type} `{EqDecision B} (f : A -> B) (b : B) l :
  List.NoDup (map f l) ->
  length (List.filter (fun a => bool_decide (f a = b)) l) <= 1.
Proof.
  induction l as [|a l IH]; cbn [map List.filter]; [cbn; lia|].
  intros Hnd. apply List.NoDup_cons_iff in Hnd as [Hna Hnd].
  destruct (bool_decide (f a = b)) eqn:E; [|now apply IH].
  apply bool_decide_eq_true in E. cbn [length].
  destruct (List.filter _ l) as [|a' l'] eqn:Ef; [cbn; lia|].
  exfalso. apply Hna.
  assert (Ha' : In a' (List.filter (fun a => bool_decide (f a = b)) l))
    by (rewrite Ef; now left).
  apply filter_In in Ha' as [Hin Hb]. apply bool_decide_eq_true in Hb.
  rewrite E, <- Hb. now apply in_map.
Qed.

(** *** The scenarios of the repository's test-suite *)

Example scenario_all_accepted :
  let r := validateDeliveryNotes
             (makeExtractionResult
                [js "26996798"; js "27008029"; js "27005099"; js "27010223"]) in
  length (accepted r) = 4 /\ excluded r = [] /\ invalid r = [].
Proof. vm_compute. repeat split. Qed.

Example scenario_nine_digits_excluded :
  let r := validateDeliveryNotes (makeExtractionResult [js "123456789"]) in
  accepted r = []
  /\ excluded r = [mkEntry (js "123456789")
                     (js "9 digits (excluded - likely Transport ID)")].
Proof. vm_compute. repeat split. Qed.

Example scenario_leading_zeros_removed :
  let r := validateDeliveryNotes (makeExtractionResult [js "0080652245"]) in
  accepted r = [js "80652245"]
  /\ autoCorrections r
     = [mkCorrection (js "0080652245") (js "80652245") (js "high")
          (js "Removed 2 leading zero(s)")]
  /\ excluded r = [].
Proof. vm_compute. repeat split. Qed.

Example scenario_already_starts_with_dominant :
  let r := validateDeliveryNotes
             (makeExtractionResult
                [js "26996798"; js "27008029"; js "27005099"; js "2715703"]) in
  length (accepted r) = 3 /\ autoCorrections r = []
  /\ invalid r
     = [mkEntry (js "2715703")
          (js "7 digits - already starts with '2' (missing last digit, not first)")].
Proof. vm_compute. repeat split. Qed.

Example scenario_leading_digit_added :
  let r := validateDeliveryNotes
             (makeExtractionResult [js "26996798"; js "27008029"; js "7180890"]) in
  autoCorrections r
  = [mkCorrection (js "7180890") (js "27180890") (js "high")
       (js "Added leading '2'")]
  /\ length (accepted r) = 3 /\ invalid r = [].
Proof. vm_compute. repeat split. Qed.

Example scenario_duplicates_counted :
  let r := validateDeliveryNotes
             (makeExtractionResult [js "26996798"; js "26996798"; js "27008029"]) in
  length (accepted r) = 2 /\ duplicateCount r = 1%Z.
Proof. vm_compute. repeat split. Qed.

(** C1. A candidate of exactly eight digits is in [accepted], whatever its
    leading digits, and is the value of no [excluded] or [invalid] entry. *)
Theorem eight_digits_accepted (er : ExtractionResult) (s : list N) :
  In s (unique er) -> length s = 8 -> forallb isDigit s = true ->
  let r := validateDeliveryNotes er in
  In s (accepted r)
  /\ (forall e, In e (excluded r) -> value e <> s)
  /\ (forall e, In e (invalid r) -> value e <> s).
Proof.
  intros Hin Hl Hd r.
  destruct (validate_fields er) as (Ha & He & Hi & _ & _). fold r in Ha, He, Hi.
  destruct (afterResolution_invariant er) as [I2 G2].
  destruct (classification_at er s Hin) as (st & I & G).
  rewrite classifyNote_digits, classifyCleaned_eight in G by (auto; lia).
  split; [|split].
  - rewrite Ha. apply in_app_iff. right.
    apply (gr_temp _ _ G2), (gr_temp _ _ G). cbn.
    apply in_app_iff. right. now left.
  - intros e Hex <-. rewrite He in Hex.
    destruct (inv_excluded _ _ I2 e Hex); lia.
  - intros e Hiv <-. rewrite Hi in Hiv.
    destruct (inv_invalid _ _ I2 e Hiv) as [H|H]; [|lia].
    rewrite isPureDigits_intro in H by (auto; lia). discriminate.
Qed.

Lemma eight_digits_accepted_witness :
  let r := validateDeliveryNotes
             (makeExtractionResult [js "00123456"; js "123456789"]) in
  In (js "00123456") (accepted r)
  /\ (forall e, In e (excluded r) -> value e <> js "00123456")
  /\ (forall e, In e (invalid r) -> value e <> js "00123456").
Proof.
  apply (eight_digits_accepted
           (makeExtractionResult [js "00123456"; js "123456789"])
           (js "00123456")).
  - vm_compute. left. reflexivity.
  - reflexivity.
  - reflexivity.
Defined.

(** C2, as the code has it.  A candidate of more than ten digits that
    starts with 0 and whose remainder after the leading zeros is not eight
    digits long is put in [invalid] with the reason "<n> digits (expected
    8)"; it is the value of no [excluded] entry. *)
Theorem long_zero_led_invalid (er : ExtractionResult) (c : list N) :
  In c (unique er) -> forallb isDigit c = true -> 10 < length c ->
  startsWithZero c = true -> length (stripLeadingZeros c) <> 8 ->
  let r := validateDeliveryNotes er in
  In (mkEntry c (expected8Reason (length c))) (invalid r)
  /\ (forall e, In e (excluded r) -> value e <> c).
Proof.
  intros Hin Hd Hl Hz Hs r.
  destruct (validate_fields er) as (_ & He & Hi & _ & _). fold r in He, Hi.
  destruct (afterResolution_invariant er) as [I2 G2].
  destruct (classification_at er c Hin) as (st & I & G).
  rewrite classifyNote_digits, classifyCleaned_long_zero_led in G by (auto; lia).
  split.
  - rewrite Hi. apply (gr_invalid _ _ G2), (gr_invalid _ _ G). cbn.
    apply in_app_iff. right. now left.
  - intros e Hex <-. rewrite He in Hex.
    destruct (inv_excluded _ _ I2 e Hex); lia.
Qed.

Lemma long_zero_led_invalid_witness :
  let r := validateDeliveryNotes (makeExtractionResult [js "00123456789"]) in
  In (mkEntry (js "00123456789") (js "11 digits (expected 8)")) (invalid r)
  /\ (forall e, In e (excluded r) -> value e <> js "00123456789").
Proof.
  apply (long_zero_led_invalid (makeExtractionResult [js "00123456789"])
           (js "00123456789")).
  - vm_compute. left. reflexivity.
  - reflexivity.
  - vm_compute. lia.
  - reflexivity.
  - vm_compute. lia.
Defined.

(** C2 as stated fails: the eleven-digit candidate 00123456789, whose
    remainder 123456789 has nine digits, is not excluded. *)
Lemma long_zero_led_not_excluded :
  let c := js "00123456789" in
  let r := validateDeliveryNotes (makeExtractionResult [c]) in
  length c = 11 /\ startsWithZero c = true
  /\ stripLeadingZeros c = js "123456789"
  /\ excluded r = []
  /\ invalid r = [mkEntry c (js "11 digits (expected 8)")].
Proof. vm_compute. repeat split. Qed.

Lemma classification_split er before c after :
  unique er = before ++ c :: after ->
  let st := classifyAll (occurrenceCount er) (initialState (totalCount er))
              before in
  invariant fromLeadingZeros st
  /\ grows (classifyNote (occurrenceCount er) st c) (afterClassification er).
Proof.
  intros Hsplit st.
  assert (Hstep : forall (st : State) (a : list N), True ->
            invariant fromLeadingZeros st ->
            effect fromLeadingZeros st (classifyNote (occurrenceCount er) st a))
    by (intros; apply classifyNote_effect).
  destruct (loop_invariant fromLeadingZeros _ (fun _ => True) before Hstep
              (fun _ _ => I) _ (invariant_initial fromLeadingZeros (totalCount er)))
    as [Ist _].
  fold (classifyAll (occurrenceCount er) (initialState (totalCount er)) before) in Ist.
  fold st in Ist. split; [exact Ist|].
  unfold afterClassification, classifyAll. rewrite Hsplit, fold_left_app.
  cbn [fold_left].
  apply (loop_invariant fromLeadingZeros _ (fun _ => True) after Hstep (fun _ _ => I)).
  apply (effect_invariant _ _ _ Ist), classifyNote_effect.
Qed.

Lemma acceptStripped_new c s why n st :
  seenHas st s = false ->
  acceptStripped c s why n st
  = withResults (pushAccepted s)
      (withResults (pushAutoCorrection (mkCorrection c s (js "high") why))
         (addSeen s st)).
Proof. intros H. unfold acceptStripped. now rewrite H. Qed.

Lemma acceptStripped_seen c s why n st :
  seenHas st s = true ->
  acceptStripped c s why n st
  = withResults (pushDuplicate (mkDuplicate s n (alreadyExistsReason c)) 1%Z) st.
Proof. intros H. unfold acceptStripped. now rewrite H. Qed.

(** C3, as the code has it.  For a candidate of nine digits or more that
    starts with 0 and whose remainder after the leading zeros is eight
    digits long, the remainder is in [accepted], and at most one
    [autoCorrections] entry has it as [corrected].  If the remainder has not
    been seen when the candidate is reached, the correction of the candidate
    is logged in [autoCorrections]; if it has been seen, the candidate adds
    nothing to [autoCorrections] and a [duplicates] entry for the remainder
    names the candidate, the remainder being in [accepted] all the same. *)
Theorem leading_zero_correction (er : ExtractionResult) (c : list N) :
  In c (unique er) -> forallb isDigit c = true -> 9 <= length c ->
  startsWithZero c = true -> length (stripLeadingZeros c) = 8 ->
  let s := stripLeadingZeros c in
  let r := validateDeliveryNotes er in
  In s (accepted r)
  /\ length (List.filter (fun a => bool_decide (corrected a = s))
               (autoCorrections r)) <= 1
  /\ ((exists a, In a (autoCorrections r) /\ original a = c /\ corrected a = s)
      \/ (exists d, In d (duplicates r)
                    /\ d_value d = s /\ d_reason d = alreadyExistsReason c))
  /\ (forall before after, unique er = before ++ c :: after ->
        let st := classifyAll (occurrenceCount er)
                    (initialState (totalCount er)) before in
        (seenHas st s = false ->
           exists a, In a (autoCorrections r)
                     /\ original a = c /\ corrected a = s)
        /\ (seenHas st s = true ->
              (exists d, In d (duplicates r)
                         /\ d_value d = s
                         /\ d_reason d = alreadyExistsReason c)
              /\ autoCorrections
                   (results (classifyNote (occurrenceCount er) st c))
                 = autoCorrections (results st))).
Proof.
  intros Hin Hd Hl Hz Hs s r.
  destruct (validate_fields er) as (Ha & _ & _ & Hc & Hdup). fold r in Ha, Hc, Hdup.
  destruct (afterResolution_invariant er) as [I2 G2].
  split; [|split; [|split]].
  - destruct (classification_at er c Hin) as (st & I & G).
    rewrite classifyNote_digits in G by (auto; lia).
    destruct (classifyCleaned_zero_led (occurrenceCount er) st c Hd Hl Hz Hs)
      as (why & n & Eq).
    rewrite Eq in G. fold s in G.
    destruct (acceptStripped_outcome c s why n st) as [Hseen _].
    rewrite Ha. apply in_app_iff.
    apply (inv_seen _ _ I2), (gr_seen _ _ G2), (gr_seen _ _ G), Hseen.
  - rewrite Hc. apply at_most_one_with, (inv_nodup _ _ I2).
  - destruct (classification_at er c Hin) as (st & I & G).
    rewrite classifyNote_digits in G by (auto; lia).
    destruct (classifyCleaned_zero_led (occurrenceCount er) st c Hd Hl Hz Hs)
      as (why & n & Eq).
    rewrite Eq in G. fold s in G.
    destruct (acceptStripped_outcome c s why n st)
      as [_ [(a & Hia & Ho & Hcr)|(d & Hid & Hv & Hr)]].
    + left. exists a. rewrite Hc.
      split; [apply (gr_logged _ _ G2), (gr_logged _ _ G), Hia | auto].
    + right. exists d.
      split; [apply Hdup, (gr_duplicates _ _ G2), (gr_duplicates _ _ G), Hid | auto].
  - intros before after Hsplit st.
    destruct (classification_split er before c after Hsplit) as [I G].
    fold st in I, G.
    rewrite classifyNote_digits in * by (auto; lia).
    destruct (classifyCleaned_zero_led (occurrenceCount er) st c Hd Hl Hz Hs)
      as (why & n & Eq).
    rewrite Eq in *. fold s in G |- *.
    split; intros Hseen.
    + rewrite (acceptStripped_new c s why n st Hseen) in G.
      exists (mkCorrection c s (js "high") why). rewrite Hc.
      split; [|split; reflexivity].
      apply (gr_logged _ _ G2), (gr_logged _ _ G). cbn.
      apply in_app_iff. right. now left.
    + rewrite (acceptStripped_seen c s why n st Hseen) in G |- *.
      split; [|reflexivity].
      exists (mkDuplicate s n (alreadyExistsReason c)).
      split; [|split; reflexivity].
      apply Hdup, (gr_duplicates _ _ G2), (gr_duplicates _ _ G). cbn.
      apply in_app_iff. right. now left.
Qed.

Lemma leading_zero_correction_witness :
  let r := validateDeliveryNotes (makeExtractionResult [js "0080652245"]) in
  In (js "80652245") (accepted r)
  /\ exists a, In a (autoCorrections r)
               /\ original a = js "0080652245" /\ corrected a = js "80652245".
Proof.
  pose proof (leading_zero_correction (makeExtractionResult [js "0080652245"])
                (js "0080652245")) as H.
  destruct H as (Hacc & _ & _ & Hcond).
  - vm_compute. left. reflexivity.
  - reflexivity.
  - vm_compute. lia.
  - reflexivity.
  - reflexivity.
  - split; [exact Hacc|].
    apply (proj1 (Hcond [] [] eq_refl)). reflexivity.
Defined.

(** C3 as stated fails: with 12345678 already accepted, the candidate
    012345678 produces no [autoCorrections] entry, and its remainder is in
    [accepted] and in [duplicates] at once. *)
Lemma seen_remainder_not_logged :
  let c := js "012345678" in
  let s := js "12345678" in
  let r := validateDeliveryNotes (makeExtractionResult [s; c]) in
  stripLeadingZeros c = s
  /\ autoCorrections r = []
  /\ accepted r = [s]
  /\ map d_value (duplicates r) = [s].
Proof. vm_compute. repeat split. Qed.

Lemma alreadyStartsReason_mentions d :
  includes (alreadyStartsReason d) (js "already starts with") = true.
Proof. vm_compute. reflexivity. Qed.

(** C4. When the accepted values have a dominant first digit, a 7-digit
    candidate that starts with that digit is put in [invalid] with the
    reason "7 digits - already starts with '<d>' (missing last digit, not
    first)"; no [autoCorrections] entry has it as [original], and it is not
    in [accepted]. *)
Theorem seven_digits_with_dominant_start (er : ExtractionResult)
    (p d : list N) :
  In p (unique er) -> forallb isDigit p = true -> length p = 7 ->
  dominantDigit (afterClassification er) = Some d ->
  charAt0 p = Some d ->
  let r := validateDeliveryNotes er in
  In (mkEntry p (alreadyStartsReason d)) (invalid r)
  /\ includes (alreadyStartsReason d) (js "already starts with") = true
  /\ (forall a, In a (autoCorrections r) -> original a <> p)
  /\ ~ In p (accepted r).
Proof.
  intros Hin Hd Hl Hdom Hfirst r.
  destruct (validate_fields er) as (Ha & _ & Hi & Hc & _). fold r in Ha, Hi, Hc.
  destruct (afterResolution_invariant er) as [I2 G2].
  destruct (classification_at er p Hin) as (st & I & G).
  rewrite classifyNote_digits, classifyCleaned_seven in G by (auto; lia).
  assert (Hpend : In p (pending7Digit (afterClassification er))).
  { apply (gr_pending _ _ G). cbn. apply in_app_iff. right. now left. }
  destruct (resolution_at er p Hpend) as (st' & I' & G').
  rewrite Hdom in G', I2.
  assert (Estep : resolvePending (occurrenceCount er) (Some d) st' p
                  = withResults (pushInvalid (mkEntry p (alreadyStartsReason d))) st').
  { unfold resolvePending. destruct p as [|c p']; [discriminate|].
    cbn in Hfirst. injection Hfirst as <-. cbn [truthy from_option id charAt0].
    now rewrite bool_decide_eq_true_2. }
  rewrite Estep in G'.
  split; [|split; [|split]].
  - rewrite Hi. apply (gr_invalid _ _ G'). cbn. apply in_app_iff. right. now left.
  - apply alreadyStartsReason_mentions.
  - intros a Hia <-. rewrite Hc in Hia.
    destruct (inv_logged _ _ I2 a Hia) as [_ [H9|Hne]]; [lia | contradiction].
  - rewrite Ha, in_app_iff. intros [H|H].
    + apply (inv_accepted _ _ I2) in H. lia.
    + apply (inv_temp _ _ I2) in H. lia.
Qed.

Lemma seven_digits_with_dominant_start_witness :
  let r := validateDeliveryNotes
             (makeExtractionResult
                [js "26996798"; js "27008029"; js "27005099"; js "2715703"]) in
  In (mkEntry (js "2715703") (alreadyStartsReason (js "2"))) (invalid r)
  /\ includes (alreadyStartsReason (js "2")) (js "already starts with") = true
  /\ (forall a, In a (autoCorrections r) -> original a <> js "2715703")
  /\ ~ In (js "2715703") (accepted r).
Proof.
  apply (seven_digits_with_dominant_start
           (makeExtractionResult
              [js "26996798"; js "27008029"; js "27005099"; js "2715703"])
           (js "2715703") (js "2")).
  - vm_compute. tauto.
  - reflexivity.
  - reflexivity.
  - vm_compute. reflexivity.
  - reflexivity.
Defined.


Lemma recorded_grows c st st' : grows st st' -> recorded c st -> recorded c st'.
Proof.
  intros G [H|[H|[(e & H & E)|[(e & H & E)|[(a & H & E)|(d & t & H & E)]]]]].
  - left. now apply (gr_accepted _ _ G).
  - right. left. now apply (gr_temp _ _ G).
  - right. right. left. exists e. split; [now apply (gr_excluded _ _ G) | exact E].
  - right. right. right. left. exists e.
    split; [now apply (gr_invalid _ _ G) | exact E].
  - right. right. right. right. left. exists a.
    split; [now apply (gr_logged _ _ G) | exact E].
  - right. right. right. right. right. exists d, t.
    split; [now apply (gr_duplicates _ _ G) | exact E].
Qed.

Ltac last_pushed := cbn; apply in_app_iff; right; now left.

Lemma recorded_invalid c why st :
  recorded c (withResults (pushInvalid (mkEntry c why)) st).
Proof. right. right. right. left. eexists. split; [last_pushed | reflexivity]. Qed.

Lemma recorded_excluded c why st :
  recorded c (withResults (pushExcluded (mkEntry c why)) st).
Proof. right. right. left. eexists. split; [last_pushed | reflexivity]. Qed.

Lemma recorded_stripped c s why n st : recorded c (acceptStripped c s why n st).
Proof.
  unfold acceptStripped. destruct (negb _).
  - right. right. right. right. left. eexists. split; [last_pushed | reflexivity].
  - right. right. right. right. right. eexists. exists [].
    split; [last_pushed | cbn; now rewrite app_nil_r].
Qed.

Lemma classifyCleaned_recorded occ st c :
  recorded c (classifyCleaned occ st c)
  \/ In c (pending7Digit (classifyCleaned occ st c)).
Proof.
  unfold classifyCleaned.
  repeat match goal with
         | |- context [if ?b then _ else _] => destruct b
         end;
    try (left; apply recorded_invalid);
    try (left; apply recorded_excluded);
    try (left; apply recorded_stripped);
    try (left; right; left; last_pushed);
    right; last_pushed.
Qed.

Lemma correctedFromReason_prefix p n :
  exists tail, correctedFromReason p n = alreadyExistsReason p ++ tail.
Proof.
  unfold correctedFromReason, alreadyExistsReason.
  exists (js " (now " ++ (if (n <? 0)%Z then js "-" else [])
          ++ numToString (Z.abs_nat n) ++ js " times)").
  rewrite <- !app_assoc. reflexivity.
Qed.

Lemma resolvePending_recorded occ dom st p :
  recorded p (resolvePending occ dom st p).
Proof.
  unfold resolvePending. destruct (truthy dom); [|apply recorded_invalid].
  destruct (bool_decide _); [apply recorded_invalid|].
  destruct (negb _).
  - right. right. right. right. left. eexists. split; [last_pushed | reflexivity].
  - destruct (correctedFromReason_prefix p
                (existingCount occ (default [] dom ++ p) + 1)) as [tail Ht].
    right. right. right. right. right. eexists. exists tail.
    split; [last_pushed | exact Ht].
Qed.

(** C9, as the code has it.  [validateDeliveryNotes] is a total function of
    the extraction result: nothing in it can throw on strings.  Every
    candidate that is not empty once its white space is removed is recorded:
    as a value of [accepted], as the value of an [excluded] or [invalid]
    entry, as the original of an [autoCorrections] entry, or in the reason
    of a [duplicates] entry, each of the last four carrying a reason.  A
    candidate that is empty after cleaning is skipped: its iteration leaves
    the state as it was. *)
Theorem every_candidate_recorded (er : ExtractionResult) (note : list N) :
  In note (unique er) ->
  let c := removeClass isSpace note in
  let r := validateDeliveryNotes er in
  (c <> [] ->
   In c (accepted r)
   \/ (exists e, In e (excluded r) /\ value e = c)
   \/ (exists e, In e (invalid r) /\ value e = c)
   \/ (exists a, In a (autoCorrections r) /\ original a = c)
   \/ (exists d tail, In d (duplicates r)
                      /\ d_reason d = alreadyExistsReason c ++ tail))
  /\ (c = [] ->
      forall st, classifyNote (occurrenceCount er) st note = st).
Proof.
  intros Hin c r. split.
  2: { intros Hc st. unfold classifyNote. fold c. now rewrite Hc. }
  intros Hne.
  destruct (validate_fields er) as (Ha & He & Hi & Hc & Hdup).
  fold r in Ha, He, Hi, Hc, Hdup.
  destruct (afterResolution_invariant er) as [I2 G2].
  assert (Hrec : recorded c (afterResolution er)).
  { destruct (classification_at er note Hin) as (st & I & G).
    unfold classifyNote in G. fold c in G, Hne.
    destruct c as [|c0 c'] eqn:Ec; [now destruct Hne|]. rewrite <- Ec in *.
    destruct (classifyCleaned_recorded (occurrenceCount er) st c) as [H|H].
    - eapply recorded_grows; [exact G2|]. eapply recorded_grows; [exact G | exact H].
    - apply (gr_pending _ _ G) in H.
      destruct (resolution_at er c H) as (st' & I' & G').
      eapply recorded_grows; [exact G' | apply resolvePending_recorded]. }
  destruct Hrec as [H|[H|[(e & H & E)|[(e & H & E)|[(a & H & E)|(d & t & H & E)]]]]].
  - left. rewrite Ha. apply in_app_iff. now left.
  - left. rewrite Ha. apply in_app_iff. now right.
  - right. left. exists e. now rewrite He.
  - right. right. left. exists e. now rewrite Hi.
  - right. right. right. left. exists a. now rewrite Hc.
  - right. right. right. right. exists d, t. split; [now apply Hdup | exact E].
Qed.

Lemma every_candidate_recorded_witness :
  let c := removeClass isSpace (js "12 345") in
  let r := validateDeliveryNotes (makeExtractionResult [js "12 345"]) in
  In c (accepted r)
  \/ (exists e, In e (excluded r) /\ value e = c)
  \/ (exists e, In e (invalid r) /\ value e = c)
  \/ (exists a, In a (autoCorrections r) /\ original a = c)
  \/ (exists d tail, In d (duplicates r)
                     /\ d_reason d = alreadyExistsReason c ++ tail).
Proof.
  apply (proj1 (every_candidate_recorded (makeExtractionResult [js "12 345"])
                  (js "12 345") (or_introl eq_refl))).
  vm_compute. discriminate.
Defined.

(** C9 as stated fails for a candidate of any length or content: the empty
    candidate and one that consists of white space are in none of the five
    buckets. *)
Lemma blank_candidate_dropped :
  let r := validateDeliveryNotes (makeExtractionResult [js ""; js "  "]) in
  accepted r = [] /\ excluded r = [] /\ invalid r = []
  /\ autoCorrections r = [] /\ duplicates r = [].
Proof. vm_compute. repeat split. Qed.

End DeliveryNotesFacts.

(** ** Extraction and the contents of the buckets *)

Module ExtractionFacts.
Import JS DeliveryNotes Extraction DeliveryNotesFacts.

(** Case analysis on everything the classification of [c] tests. *)
Ltac classify_cases c :=
  destruct (isPureDigits c) eqn:?;
  destruct (startsWithZero c) eqn:?;
  destruct (Nat.eqb_spec (length (stripLeadingZeros c)) 8);
  destruct (Nat.eqb_spec (length c) 7);
  destruct (Nat.eqb_spec (length c) 8);
  destruct (Nat.eqb_spec (length c) 9);
  destruct (Nat.eqb_spec (length c) 10);
  destruct (Nat.ltb_spec 10 (length c));
  destruct (Nat.ltb_spec (length c) 7);
  try lia; cbn [negb andb orb].

Lemma acceptStripped_untouched c s why n st :
  let st' := acceptStripped c s why n st in
  excluded (results st') = excluded (results st)
  /\ invalid (results st') = invalid (results st)
  /\ tempAccepted st' = tempAccepted st
  /\ pending7Digit st' = pending7Digit st.
Proof. cbn zeta. unfold acceptStripped. destruct (negb _); cbn; auto. Qed.

Lemma classifyCleaned_buckets occ st c :
  c <> [] ->
  let st' := classifyCleaned occ st c in
  excluded (results st') = excluded (results st) ++ excludedEntry c
  /\ invalid (results st') = invalid (results st) ++ invalidAtClassification c
  /\ tempAccepted st' = tempAccepted st ++ (if hasDigits 8 c then [c] else [])
  /\ pending7Digit st' = pending7Digit st ++ (if hasDigits 7 c then [c] else []).
Proof.
  intros Hne. cbn zeta.
  assert (Hinv : invalidAtClassification c
                 = if negb (isPureDigits c)
                   then [mkEntry c (js "Contains non-digit characters")]
                   else if Nat.ltb (length c) 7
                           || (Nat.ltb 10 (length c) && negb (reducesToEight c))
                   then [mkEntry c (expected8Reason (length c))]
                   else [])
    by (destruct c; [now destruct Hne | reflexivity]).
  rewrite Hinv. clear Hinv.
  unfold classifyCleaned, excludedEntry, hasDigits, reducesToEight.
  classify_cases c;
    repeat match goal with
           | |- context [acceptStripped ?a ?b ?w ?n ?s] =>
             destruct (acceptStripped_untouched a b w n s) as (-> & -> & -> & ->)
           | |- context [if ?b then _ else _] => destruct b
           end;
    cbn [results excluded invalid tempAccepted pending7Digit withResults
         pushInvalid pushExcluded pushTempAccepted addSeen pushPending];
    rewrite ?app_nil_r; repeat split; congruence.
Qed.

Lemma classifyNote_buckets occ st note :
  let c := removeClass isSpace note in
  let st' := classifyNote occ st note in
  excluded (results st') = excluded (results st) ++ excludedEntry c
  /\ invalid (results st') = invalid (results st) ++ invalidAtClassification c
  /\ tempAccepted st' = tempAccepted st ++ (if hasDigits 8 c then [c] else [])
  /\ pending7Digit st' = pending7Digit st ++ (if hasDigits 7 c then [c] else []).
Proof.
  cbn zeta. unfold classifyNote.
  destruct (removeClass isSpace note) as [|a l] eqn:E.
  - cbn. rewrite !app_nil_r. auto.
  - apply classifyCleaned_buckets. discriminate.
Qed.

Lemma filter_as_flat_map {A : Type} (f : A -> bool) l :
  List.filter f l = flat_map (fun x => if f x then [x] else []) l.
Proof.
  induction l as [|a l IH]; [reflexivity|]. cbn.
  rewrite IH. now destruct (f a).
Qed.

Lemma classifyAll_buckets occ notes st :
  let cs := map (removeClass isSpace) notes in
  let st' := classifyAll occ st notes in
  excluded (results st') = excluded (results st) ++ flat_map excludedEntry cs
  /\ invalid (results st')
     = invalid (results st) ++ flat_map invalidAtClassification cs
  /\ tempAccepted st' = tempAccepted st ++ List.filter (hasDigits 8) cs
  /\ pending7Digit st' = pending7Digit st ++ List.filter (hasDigits 7) cs.
Proof.
  cbn zeta. rewrite !filter_as_flat_map. unfold classifyAll.
  revert st. induction notes as [|n notes IH]; intros st; cbn [fold_left map flat_map].
  - rewrite !app_nil_r. auto.
  - destruct (IH (classifyNote occ st n)) as (-> & -> & -> & ->).
    destruct (classifyNote_buckets occ st n) as (-> & -> & -> & ->).
    rewrite <- !app_assoc. auto.
Qed.

Lemma resolvePending_buckets occ dom st p :
  let st' := resolvePending occ dom st p in
  excluded (results st') = excluded (results st)
  /\ invalid (results st') = invalid (results st) ++ invalidAtResolution dom p
  /\ tempAccepted st' = tempAccepted st
  /\ pending7Digit st' = pending7Digit st.
Proof.
  cbn zeta. unfold resolvePending, invalidAtResolution.
  destruct dom as [[|c d]|]; cbn [truthy from_option id]; cbn; auto.
  destruct (bool_decide (charAt0 p = Some (c :: d))); cbn; auto.
  destruct (negb _); cbn; rewrite app_nil_r; auto.
Qed.

Lemma resolveAll_buckets occ dom ps st :
  let st' := fold_left (resolvePending occ dom) ps st in
  excluded (results st') = excluded (results st)
  /\ invalid (results st')
     = invalid (results st) ++ flat_map (invalidAtResolution dom) ps
  /\ tempAccepted st' = tempAccepted st
  /\ pending7Digit st' = pending7Digit st.
Proof.
  cbn zeta. revert st. induction ps as [|p ps IH]; intros st; cbn [fold_left flat_map].
  - rewrite app_nil_r. auto.
  - destruct (IH (resolvePending occ dom st p)) as (-> & -> & -> & ->).
    destruct (resolvePending_buckets occ dom st p) as (-> & -> & -> & ->).
    rewrite <- app_assoc. auto.
Qed.

Lemma afterClassification_buckets er :
  let st := afterClassification er in
  excluded (results st) = flat_map excludedEntry (cleanedNotes er)
  /\ invalid (results st) = flat_map invalidAtClassification (cleanedNotes er)
  /\ tempAccepted st = List.filter (hasDigits 8) (cleanedNotes er)
  /\ pending7Digit st = List.filter (hasDigits 7) (cleanedNotes er).
Proof.
  cbn zeta. unfold afterClassification, cleanedNotes.
  destruct (classifyAll_buckets (occurrenceCount er) (unique er)
              (initialState (totalCount er))) as (-> & -> & -> & ->).
  auto.
Qed.

Lemma afterResolution_buckets er :
  let st := afterResolution er in
  let dom := dominantDigit (afterClassification er) in
  excluded (results st) = flat_map excludedEntry (cleanedNotes er)
  /\ invalid (results st)
     = flat_map invalidAtClassification (cleanedNotes er)
       ++ flat_map (invalidAtResolution dom)
            (List.filter (hasDigits 7) (cleanedNotes er))
  /\ tempAccepted st = List.filter (hasDigits 8) (cleanedNotes er).
Proof.
  cbn zeta.
  destruct (afterClassification_buckets er) as (He & Hi & Ht & Hp).
  unfold afterResolution, resolveAllPending.
  destruct (pending7Digit (afterClassification er)) as [|p ps] eqn:E.
  - rewrite <- Hp. cbn. rewrite app_nil_r. auto.
  - destruct (resolveAll_buckets (occurrenceCount er)
                (dominantDigit (afterClassification er)) (p :: ps)
                (afterClassification er)) as (-> & -> & -> & _).
    rewrite He, Hi, Ht, <- Hp. auto.
Qed.

(** [accepted] and [autoCorrections] are pushed together. *)
Lemma effect_paired P st st' :
  effect P st st' ->
  accepted (results st) = map corrected (autoCorrections (results st)) ->
  accepted (results st') = map corrected (autoCorrections (results st')).
Proof.
  intros E H. destruct E; cbn; try exact H.
  rewrite map_app, H. reflexivity.
Qed.

Lemma loop_paired {A : Type} P (f : State -> A -> State) l :
  (forall st a, effect P st (f st a)) ->
  forall st,
    accepted (results st) = map corrected (autoCorrections (results st)) ->
    accepted (results (fold_left f l st))
    = map corrected (autoCorrections (results (fold_left f l st))).
Proof.
  intros Hf. induction l as [|a l IH]; intros st H; cbn [fold_left]; [exact H|].
  apply IH. eapply effect_paired; [apply Hf | exact H].
Qed.

Lemma resolvePending_paired occ dom st p :
  accepted (results st) = map corrected (autoCorrections (results st)) ->
  accepted (results (resolvePending occ dom st p))
  = map corrected (autoCorrections (results (resolvePending occ dom st p))).
Proof.
  intros H. unfold resolvePending.
  destruct (truthy dom); [|exact H].
  destruct (bool_decide _); [exact H|].
  destruct (negb _); cbn; [|exact H].
  rewrite map_app, H. reflexivity.
Qed.

Lemma resolveAll_paired occ dom ps st :
  accepted (results st) = map corrected (autoCorrections (results st)) ->
  accepted (results (fold_left (resolvePending occ dom) ps st))
  = map corrected
      (autoCorrections (results (fold_left (resolvePending occ dom) ps st))).
Proof.
  revert st. induction ps as [|q qs IH]; intros st H; cbn [fold_left]; [exact H|].
  apply IH, resolvePending_paired, H.
Qed.

Lemma afterResolution_paired er :
  accepted (results (afterResolution er))
  = map corrected (autoCorrections (results (afterResolution er))).
Proof.
  assert (H1 : accepted (results (afterClassification er))
               = map corrected (autoCorrections (results (afterClassification er)))).
  { unfold afterClassification, classifyAll.
    apply (loop_paired fromLeadingZeros); [|reflexivity].
    intros st a. apply classifyNote_effect. }
  unfold afterResolution, resolveAllPending.
  destruct (pending7Digit (afterClassification er)) as [|p ps]; [exact H1|].
  apply resolveAll_paired, H1.
Qed.

(** X1. [excluded] holds exactly the candidates of nine or ten digits that
    dropping the leading zeros does not turn into eight digits, in the
    order of the candidates, each with the reason "<n> digits (excluded -
    likely Transport ID)". *)
Theorem excluded_exactly (er : ExtractionResult) :
  excluded (validateDeliveryNotes er)
  = flat_map excludedEntry (cleanedNotes er).
Proof.
  destruct (validate_fields er) as (_ & -> & _).
  now destruct (afterResolution_buckets er) as (-> & _).
Qed.

(** X2. [invalid] holds, in this order: for each candidate in turn, the
    ones with a character that is no digit ("Contains non-digit
    characters") and the ones of fewer than 7 digits, or of more than 10
    that the leading zeros do not explain ("<n> digits (expected 8)");
    then the 7-digit candidates that start with the dominant digit, or all
    of them ("7 digits - needs manual review") when there is no dominant
    digit. *)
Theorem invalid_exactly (er : ExtractionResult) :
  invalid (validateDeliveryNotes er)
  = flat_map invalidAtClassification (cleanedNotes er)
    ++ flat_map (invalidAtResolution (dominantDigit (afterClassification er)))
         (List.filter (hasDigits 7) (cleanedNotes er)).
Proof.
  destruct (validate_fields er) as (_ & _ & -> & _).
  now destruct (afterResolution_buckets er) as (_ & -> & _).
Qed.

Lemma accepted_split er :
  accepted (validateDeliveryNotes er)
  = map corrected (autoCorrections (validateDeliveryNotes er))
    ++ List.filter (hasDigits 8) (cleanedNotes er).
Proof.
  destruct (validate_fields er) as (-> & _ & _ & -> & _).
  rewrite afterResolution_paired.
  now destruct (afterResolution_buckets er) as (_ & _ & ->).
Qed.

Lemma invalid_split er :
  invalid (validateDeliveryNotes er)
  = flat_map invalidAtClassification (cleanedNotes er)
    ++ flat_map (invalidAtResolution (dominantDigit (afterClassification er)))
         (List.filter (hasDigits 7) (cleanedNotes er)).
Proof.
  destruct (validate_fields er) as (_ & _ & -> & _).
  now destruct (afterResolution_buckets er) as (_ & -> & _).
Qed.

(** X3. [accepted] consists of the corrected values of [autoCorrections],
    in the order of the log, followed by the 8-digit candidates in the order
    of the candidates. *)
Theorem accepted_exactly (er : ExtractionResult) :
  accepted (validateDeliveryNotes er)
  = map corrected (autoCorrections (validateDeliveryNotes er))
    ++ List.filter (hasDigits 8) (cleanedNotes er).
Proof. exact (accepted_split er). Qed.

(** *** The object [firstDigitCounts] *)

Lemma countOf_bump k o k' :
  countOf (bump k o) k' = countOf o k' + (if bool_decide (k = k') then 1 else 0).
Proof.
  unfold countOf. induction o as [|[k0 v] o IH]; cbn [bump List.find fst snd].
  - destruct (bool_decide (k = k')); reflexivity.
  - unfold streq. destruct (bool_decide (k = k0)) eqn:E0; cbn [List.find fst snd].
    + apply bool_decide_eq_true in E0 as <-.
      destruct (bool_decide (k = k')); cbn [snd]; lia.
    + apply bool_decide_eq_false in E0.
      destruct (bool_decide (k0 = k')) eqn:E1; [|exact IH].
      apply bool_decide_eq_true in E1 as <-.
      rewrite bool_decide_eq_false_2 by exact E0. cbn [snd]. lia.
Qed.

Lemma bump_keys k o kv :
  In kv (bump k o) -> fst kv = k \/ In (fst kv) (map fst o).
Proof.
  induction o as [|[k0 v] o IH]; cbn [bump].
  - intros [<-|[]]. now left.
  - unfold streq. destruct (bool_decide (k = k0)); cbn [map fst In].
    + intros [<-|H]; cbn; [auto | right; right; now apply in_map].
    + intros [<-|H]; cbn; [auto|]. destruct (IH H); auto.
Qed.

Lemma bump_nodup k o :
  List.NoDup (map fst o) -> List.NoDup (map fst (bump k o)).
Proof.
  induction o as [|[k0 v] o IH]; cbn [bump map fst]; intros H.
  - repeat constructor. intros [].
  - unfold streq. destruct (bool_decide (k = k0)) eqn:E; cbn [map fst]; [exact H|].
    apply bool_decide_eq_false in E.
    apply List.NoDup_cons_iff in H as [Hn Hd].
    constructor; [|now apply IH].
    intros Hin. apply in_map_iff in Hin as (kv & Hk & Hin).
    destruct (bump_keys _ _ _ Hin) as [Hb|Hb]; [congruence|].
    apply Hn. now rewrite <- Hk.
Qed.

Lemma countOf_member o k v :
  List.NoDup (map fst o) -> In (k, v) o -> countOf o k = v.
Proof.
  unfold countOf. induction o as [|[k0 v0] o IH]; [intros _ []|].
  cbn [map fst List.find]. intros Hnd [Heq|Hin].
  - injection Heq as -> ->. now rewrite bool_decide_eq_true_2.
  - apply List.NoDup_cons_iff in Hnd as [Hn Hd].
    rewrite bool_decide_eq_false_2; [now apply IH|].
    intros ->. apply Hn. now apply (in_map fst _ (k, v)).
Qed.

Lemma countOf_positive o k :
  0 < countOf o k -> In (k, countOf o k) o.
Proof.
  unfold countOf. destruct (List.find _ o) as [[k0 v]|] eqn:E; [|cbn; lia].
  intros _. apply find_some in E as [Hin Hk].
  apply bool_decide_eq_true in Hk. cbn in Hk. subst k0. exact Hin.
Qed.

Lemma bump_all_nodup ks o :
  List.NoDup (map fst o) ->
  List.NoDup (map fst (fold_left (fun o k => bump k o) ks o)).
Proof.
  revert o. induction ks as [|k ks IH]; intros o H; cbn [fold_left]; [exact H|].
  apply IH, bump_nodup, H.
Qed.

Lemma bump_all_count ks o k' :
  countOf (fold_left (fun o k => bump k o) ks o) k'
  = countOf o k' + length (List.filter (fun k => bool_decide (k = k')) ks).
Proof.
  revert o. induction ks as [|k ks IH]; intros o; cbn [fold_left List.filter].
  - cbn. lia.
  - rewrite IH, countOf_bump. destruct (bool_decide (k = k')); cbn [length]; lia.
Qed.

Lemma bump_all_keys ks o kv :
  In kv (fold_left (fun o k => bump k o) ks o) ->
  In (fst kv) ks \/ In (fst kv) (map fst o).
Proof.
  revert o. induction ks as [|k ks IH]; intros o; cbn [fold_left].
  - intros H. right. now apply in_map.
  - intros H. destruct (IH _ H) as [Hk|Hk]; [left; now right|].
    apply in_map_iff in Hk as (kv' & Hf & Hin). rewrite <- Hf.
    destruct (bump_keys _ _ _ Hin) as [->|Ho]; [left; now left | now right].
Qed.

Lemma firstDigitCounts_keys st :
  firstDigitCounts st = fold_left (fun o k => bump k o) (firstDigitKeys st) [].
Proof.
  unfold firstDigitCounts, firstDigitKeys.
  rewrite map_app, fold_left_app, map_map.
  assert (Hmap : forall (A : Type) (g : A -> list N) (l : list A) o,
            fold_left (fun o a => bump (g a) o) l o
            = fold_left (fun o k => bump k o) (map g l) o).
  { intros A g l. induction l as [|a l IH]; intros o; cbn; [reflexivity | apply IH]. }
  rewrite <- (Hmap _ firstDigitKey).
  rewrite <- (Hmap _ (fun x => firstDigitKey (corrected x))). reflexivity.
Qed.

Lemma key_count c l :
  length (List.filter (fun k => bool_decide (k = [c])) (map firstDigitKey l))
  = length (List.filter (startsWith c) l).
Proof.
  induction l as [|s l IH]; [reflexivity|].
  cbn [map List.filter]. destruct s as [|a s]; cbn [firstDigitKey charAt0 startsWith].
  - rewrite bool_decide_eq_false_2 by discriminate. exact IH.
  - destruct (N.eqb_spec a c) as [->|Hne].
    + rewrite bool_decide_eq_true_2 by reflexivity. cbn [length]. now rewrite IH.
    + rewrite bool_decide_eq_false_2 by congruence. exact IH.
Qed.

Lemma firstDigitCounts_tally st c :
  countOf (firstDigitCounts st) [c] = firstDigitTally st c.
Proof.
  rewrite firstDigitCounts_keys, bump_all_count. cbn [countOf List.find].
  unfold firstDigitKeys, firstDigitTally. now rewrite key_count.
Qed.

Lemma firstDigitCounts_nodup st : List.NoDup (map fst (firstDigitCounts st)).
Proof. rewrite firstDigitCounts_keys. apply bump_all_nodup. constructor. Qed.

(** *** [Object.entries] *)

Lemma insertByIndex_in (e : N * (list N * nat)) l x :
  In x (insertByIndex e l) <-> x = e \/ In x l.
Proof.
  induction l as [|a l IH]; cbn [insertByIndex]; [cbn; intuition|].
  destruct (fst e <=? fst a)%N; cbn [In]; [intuition|].
  rewrite IH. intuition.
Qed.

Lemma sorted_in (l : list (N * (list N * nat))) x :
  In x (fold_right insertByIndex [] l) <-> In x l.
Proof.
  induction l as [|a l IH]; cbn [fold_right]; [reflexivity|].
  rewrite insertByIndex_in, IH. cbn. intuition.
Qed.

Lemma insertByIndex_sorted (e : N * (list N * nat)) l :
  StronglySorted (fun a b => (fst a <= fst b)%N) l ->
  StronglySorted (fun a b => (fst a <= fst b)%N) (insertByIndex e l).
Proof.
  induction l as [|a l IH]; cbn [insertByIndex]; intros H.
  - repeat constructor.
  - destruct (N.leb_spec (fst e) (fst a)) as [Hle|Hgt].
    + constructor; [exact H|].
      apply StronglySorted_inv in H as [_ Hall].
      constructor; [exact Hle|].
      apply List.Forall_forall. intros b Hb. rewrite List.Forall_forall in Hall.
      specialize (Hall b Hb). cbn in Hall. lia.
    + apply StronglySorted_inv in H as [Hs Hall].
      constructor; [now apply IH|].
      apply List.Forall_forall. intros x Hx.
      apply insertByIndex_in in Hx as [->|Hx]; [lia|].
      rewrite List.Forall_forall in Hall. now apply Hall.
Qed.

Lemma sorted_sorted (l : list (N * (list N * nat))) :
  StronglySorted (fun a b => (fst a <= fst b)%N) (fold_right insertByIndex [] l).
Proof.
  induction l as [|a l IH]; cbn [fold_right]; [constructor|].
  now apply insertByIndex_sorted.
Qed.

Lemma objectEntries_in o kv : In kv (objectEntries o) <-> In kv o.
Proof.
  unfold objectEntries. rewrite in_app_iff, in_map_iff, filter_In. split.
  - intros [((i & kv') & <- & Hin)|[Hin _]]; [|exact Hin].
    apply sorted_in, in_flat_map in Hin as (x & Hx & Hin).
    destruct (arrayIndex (fst x)); [|destruct Hin].
    destruct Hin as [[= <- <-]|[]]. exact Hx.
  - intros Hin. destruct (arrayIndex (fst kv)) as [i|] eqn:E; [left | right; auto].
    exists (i, kv). split; [reflexivity|].
    apply sorted_in, in_flat_map. exists kv. rewrite E. split; [exact Hin | now left].
Qed.

(** When every key is an array index, the entries are in ascending order
    of their keys. *)
Lemma objectEntries_sorted o :
  (forall kv, In kv o -> arrayIndex (fst kv) <> None) ->
  StronglySorted (fun a b => (indexRank a <= indexRank b)%N) (objectEntries o).
Proof.
  intros Hall. unfold objectEntries.
  assert (Hnone : List.filter (fun kv => match arrayIndex (fst kv) with
                                         | Some _ => false
                                         | None => true
                                         end) o = []).
  { induction o as [|kv o IH]; [reflexivity|]. cbn [List.filter].
    destruct (arrayIndex (fst kv)) eqn:E.
    - apply IH. intros x Hx. apply Hall. now right.
    - exfalso. apply (Hall kv); [now left | exact E]. }
  rewrite Hnone, app_nil_r.
  set (tagged := flat_map (fun kv : list N * nat =>
                             match arrayIndex (fst kv) with
                             | Some i => [(i, kv)]
                             | None => []
                             end) o).
  assert (Htag : forall x, In x (fold_right insertByIndex [] tagged) ->
                           fst x = indexRank (snd x)).
  { intros x Hx. apply (proj1 (sorted_in tagged x)) in Hx. subst tagged.
    apply in_flat_map in Hx as (kv & _ & Hx). unfold indexRank.
    destruct (arrayIndex (fst kv)) eqn:E; [|destruct Hx].
    destruct Hx as [<-|[]]. cbn. now rewrite E. }
  pose proof (sorted_sorted tagged) as Hs.
  induction (fold_right insertByIndex [] tagged) as [|x xs IH]; cbn [map];
    [constructor|].
  apply StronglySorted_inv in Hs as [Hs Hx].
  constructor.
  - apply IH; [|exact Hs]. intros y Hy. apply Htag. now right.
  - apply List.Forall_forall. intros y Hy. apply in_map_iff in Hy as (z & <- & Hz).
    rewrite List.Forall_forall in Hx. specialize (Hx z Hz).
    rewrite <- (Htag x (or_introl eq_refl)), <- (Htag z (or_intror Hz)). exact Hx.
Qed.

(** *** The selection of the dominant digit *)

Lemma meetsThreshold_mono c c' total :
  meetsThreshold c total = true -> c <= c' -> meetsThreshold c' total = true.
Proof.
  unfold meetsThreshold. intros H Hle. apply andb_prop in H as [H1 H2].
  apply Nat.leb_le in H1. apply Nat.leb_le in H2.
  apply andb_true_intro. split; apply Nat.leb_le; lia.
Qed.

Lemma selectDominant_snoc total E e :
  selectDominant total (E ++ [e])
  = let acc := selectDominant total E in
    if Nat.ltb (snd acc) (snd e) && meetsThreshold (snd e) total
    then (Some (fst e), snd e) else acc.
Proof. unfold selectDominant. now rewrite fold_left_app. Qed.

Lemma selectDominant_spec total E :
  match selectDominant total E with
  | (None, m) =>
    m = 0 /\ forall e, In e E -> meetsThreshold (snd e) total = false
  | (Some k, m) =>
    meetsThreshold m total = true
    /\ (forall e, In e E -> snd e <= m)
    /\ exists E1 E2, E = E1 ++ (k, m) :: E2 /\ forall e, In e E1 -> snd e < m
  end.
Proof.
  assert (J : (forall e, In e E -> meetsThreshold (snd e) total = true ->
                         snd e <= snd (selectDominant total E))
              /\ match selectDominant total E with
                 | (None, m) => m = 0
                 | (Some k, m) =>
                   meetsThreshold m total = true
                   /\ exists E1 E2, E = E1 ++ (k, m) :: E2
                        /\ forall e, In e E1 ->
                             meetsThreshold (snd e) total = true -> snd e < m
                 end).
  { induction E as [|e E IH] using rev_ind; [cbn; split; [intros ? []|reflexivity]|].
    rewrite selectDominant_snoc. cbn zeta.
    destruct (selectDominant total E) as [dom m]. cbn [snd] in *.
    destruct IH as [Hle Hdom].
    destruct (Nat.ltb_spec m (snd e)) as [Hlt|Hge]; cbn [andb].
    - destruct (meetsThreshold (snd e) total) eqn:Hm.
      + cbn [snd]. split.
        * intros e' He' Hm'. apply in_app_iff in He' as [He'|[<-|[]]]; [|lia].
          specialize (Hle e' He' Hm'). lia.
        * split; [exact Hm|]. exists E, []. destruct e as [k v]. cbn [fst snd] in *.
          split; [reflexivity|]. intros e' He' Hm'. specialize (Hle e' He' Hm'). lia.
      + cbn [snd]. split.
        * intros e' He' Hm'. apply in_app_iff in He' as [He'|[<-|[]]]; [auto|congruence].
        * destruct dom as [k|]; [|exact Hdom].
          destruct Hdom as (Hmk & E1 & E2 & -> & Hbefore).
          split; [exact Hmk|]. exists E1, (E2 ++ [e]).
          split; [now rewrite <- app_assoc | exact Hbefore].
    - cbn [snd]. split.
      + intros e' He' Hm'. apply in_app_iff in He' as [He'|[<-|[]]]; [auto|lia].
      + destruct dom as [k|]; [|exact Hdom].
        destruct Hdom as (Hmk & E1 & E2 & -> & Hbefore).
        split; [exact Hmk|]. exists E1, (E2 ++ [e]).
        split; [now rewrite <- app_assoc | exact Hbefore]. }
  destruct (selectDominant total E) as [[k|] m]; cbn [snd] in J.
  - destruct J as (Hle & Hmk & E1 & E2 & HE & Hbefore).
    split; [exact Hmk|]. split.
    + intros e He. destruct (Nat.le_gt_cases (snd e) m) as [H|H]; [exact H|].
      apply Hle; [exact He|]. eapply meetsThreshold_mono; [exact Hmk | lia].
    + exists E1, E2. split; [exact HE|]. intros e He.
      destruct (Nat.lt_ge_cases (snd e) m) as [H|H]; [exact H|].
      apply Hbefore; [exact He|]. eapply meetsThreshold_mono; [exact Hmk | exact H].
  - destruct J as (Hle & ->). split; [reflexivity|]. intros e He.
    destruct (meetsThreshold (snd e) total) eqn:Hm; [|reflexivity].
    specialize (Hle e He Hm). unfold meetsThreshold in Hm.
    apply andb_prop in Hm as [H1 _]. apply Nat.leb_le in H1. lia.
Qed.

Lemma sorted_tail {A : Type} (R : A -> A -> Prop) l1 a l2 :
  StronglySorted R (l1 ++ a :: l2) -> Forall (R a) l2.
Proof.
  induction l1 as [|x l1 IH]; cbn [app]; intros H;
    apply StronglySorted_inv in H as [Hs Hall]; [exact Hall | now apply IH].
Qed.

(** *** What is logged *)

Lemma isPureDigits_digits c : isPureDigits c = true -> forallb isDigit c = true.
Proof. unfold isPureDigits. intros H. now apply andb_prop in H as [_ H]. Qed.

Lemma stripLeadingZeros_digits c :
  forallb isDigit c = true -> forallb isDigit (stripLeadingZeros c) = true.
Proof.
  induction c as [|a c IH]; [reflexivity|]. cbn [stripLeadingZeros].
  intros H. destruct (a =? 48)%N; [|exact H].
  cbn [forallb] in H. apply andb_prop in H as [_ H]. now apply IH.
Qed.

Lemma acceptStripped_logged cands dom c why n st :
  In c cands ->
  isPureDigits c = true -> 9 <= length c -> startsWithZero c = true ->
  length (stripLeadingZeros c) = 8 ->
  effect (wellLogged cands dom) st
    (acceptStripped c (stripLeadingZeros c) why n st).
Proof.
  intros Hin Hd Hl Hz Hs. unfold acceptStripped, seenHas.
  destruct (bool_decide (stripLeadingZeros c ∈ seen st)) eqn:E; cbn [negb].
  - apply eff_duplicate.
  - apply bool_decide_eq_false in E.
    apply (eff_correct _ st
             (mkCorrection c (stripLeadingZeros c) (js "high") why)); cbn.
    + exact E.
    + lia.
    + split; [reflexivity|]. split; [exact Hin|]. left. unfold zerosRemoved. cbn.
      repeat split; auto.
      apply stripLeadingZeros_digits, isPureDigits_digits, Hd.
Qed.

Lemma classifyCleaned_logged cands dom occ st c :
  In c cands ->
  effect (wellLogged cands dom) st (classifyCleaned occ st c).
Proof.
  intros Hin. unfold classifyCleaned.
  classify_cases c;
    try match goal with
        | |- context [if ?b && ?b' then _ else _] => destruct (b && b')
        end;
    first
      [ apply eff_accept; assumption
      | apply acceptStripped_logged; (assumption || lia)
      | apply eff_pending; assumption
      | apply eff_excluded; cbn [value]; lia
      | apply eff_invalid; cbn [value]; (left; assumption) || (right; lia) ].
Qed.

Lemma classifyNote_logged cands dom occ st note :
  In (removeClass isSpace note) cands ->
  effect (wellLogged cands dom) st (classifyNote occ st note).
Proof.
  intros Hin. unfold classifyNote. destruct (removeClass isSpace note) eqn:E.
  - apply eff_none.
  - now apply classifyCleaned_logged.
Qed.

Lemma hasDigits_length n c : hasDigits n c = true -> length c = n.
Proof. unfold hasDigits. intros H. apply andb_prop in H as [_ H]. now apply Nat.eqb_eq. Qed.

Lemma resolvePending_logged cands occ dom st p :
  digitOrNone dom -> hasDigits 7 p = true -> In p cands ->
  effect (wellLogged cands dom) st (resolvePending occ dom st p).
Proof.
  intros Hdom Hp Hin. pose proof (hasDigits_length 7 p Hp) as Hl.
  unfold resolvePending.
  destruct Hdom as [->|(d & -> & Hd)]; cbn [truthy from_option id].
  { apply eff_invalid. cbn [value]. right. lia. }
  destruct (bool_decide (charAt0 p = Some [d])) eqn:Ec.
  { apply eff_invalid. cbn [value]. right. lia. }
  apply bool_decide_eq_false in Ec. unfold seenHas.
  destruct (bool_decide ([d] ++ p ∈ seen st)) eqn:Es; cbn [negb].
  - apply eff_duplicate.
  - apply bool_decide_eq_false in Es.
    apply (eff_correct _ st
             (mkCorrection p ([d] ++ p) (js "high") (addedLeadingReason [d])));
      cbn [corrected].
    + exact Es.
    + rewrite length_app. cbn. lia.
    + split; [reflexivity|]. split; [exact Hin|]. right. exists d. cbn.
      repeat split; auto.
      destruct p as [|a p']; [discriminate|]. cbn in Ec |- *.
      destruct (N.eqb_spec a d) as [->|]; [now destruct Ec | reflexivity].
Qed.

Lemma afterClassification_logged dom er :
  invariant (wellLogged (cleanedNotes er) dom) (afterClassification er).
Proof.
  unfold afterClassification, classifyAll.
  apply (loop_invariant (wellLogged (cleanedNotes er) dom) _
           (fun note => In (removeClass isSpace note) (cleanedNotes er))).
  - intros st a Ha _. now apply classifyNote_logged.
  - intros a Ha. unfold cleanedNotes. now apply in_map.
  - apply invariant_initial.
Qed.

(** At the end of the first loop every counted value starts with a digit. *)
Lemma counted_values_digit_led er s :
  In s (tempAccepted (afterClassification er)
        ++ map corrected (autoCorrections (results (afterClassification er)))) ->
  exists a rest, s = a :: rest /\ isDigit a = true.
Proof.
  assert (H8 : forall x, forallb isDigit x = true -> length x = 8 ->
                         exists a rest, x = a :: rest /\ isDigit a = true).
  { intros [|a rest] Hd Hl; [discriminate|]. exists a, rest.
    cbn in Hd. apply andb_prop in Hd as [Ha _]. auto. }
  intros Hin. apply in_app_iff in Hin as [Hin|Hin].
  - destruct (afterClassification_buckets er) as (_ & _ & Ht & _).
    rewrite Ht in Hin. apply filter_In in Hin as [_ Hin].
    apply H8; [|eapply hasDigits_length, Hin].
    unfold hasDigits in Hin. apply andb_prop in Hin as [Hin _].
    now apply isPureDigits_digits.
  - apply in_map_iff in Hin as (a & <- & Hin).
    destruct (inv_logged _ _ (afterClassification_logged None er) a Hin)
      as [_ [_ [_ [(_ & _ & _ & _ & Hl & Hd)|(d & Hnone & _)]]]]; [|discriminate].
    now apply H8.
Qed.

Lemma counted_keys_digits er kv :
  In kv (firstDigitCounts (afterClassification er)) ->
  exists c, fst kv = [c] /\ isDigit c = true.
Proof.
  rewrite firstDigitCounts_keys. intros Hin.
  apply bump_all_keys in Hin as [Hin|[]].
  unfold firstDigitKeys in Hin. apply in_map_iff in Hin as (s & <- & Hs).
  destruct (counted_values_digit_led er s Hs) as (a & rest & -> & Ha).
  exists a. auto.
Qed.

Lemma arrayIndex_digit c : isDigit c = true -> arrayIndex [c] = Some (c - 48)%N.
Proof.
  intros H. unfold arrayIndex, isPureDigits. cbn [length forallb Nat.eqb negb andb].
  rewrite H. cbn [andb]. rewrite orb_true_r. cbn [andb parseDecimal fold_left].
  apply TokenFacts.isDigit_range in H.
  destruct (N.ltb_spec (0 * 10 + (c - 48)) 4294967295); [reflexivity | lia].
Qed.

Lemma dominantDigit_characterised (er : ExtractionResult) :
  let st := afterClassification er in
  match dominantDigit st with
  | Some d =>
    exists c, d = [c] /\ isDigit c = true
      /\ meetsThreshold (firstDigitTally st c) (acceptedTotal st) = true
      /\ forall c', firstDigitTally st c' <= firstDigitTally st c
                    /\ (firstDigitTally st c' = firstDigitTally st c ->
                        (c <= c')%N)
  | None =>
    forall c, meetsThreshold (firstDigitTally st c) (acceptedTotal st) = false
  end.
Proof.
  cbn zeta. set (st := afterClassification er).
  pose proof (firstDigitCounts_nodup st) as Hnd.
  assert (Hentry : forall c, 0 < firstDigitTally st c ->
            In ([c], firstDigitTally st c) (objectEntries (firstDigitCounts st))).
  { intros c Hc. apply (proj2 (objectEntries_in _ _)). rewrite <- firstDigitCounts_tally in *.
    now apply countOf_positive. }
  assert (Hkeys : forall kv, In kv (objectEntries (firstDigitCounts st)) ->
            exists c, kv = ([c], firstDigitTally st c) /\ isDigit c = true).
  { intros [k v] Hin. apply (proj1 (objectEntries_in _ _)) in Hin.
    destruct (counted_keys_digits er _ Hin) as (c & Hk & Hc). cbn in Hk. subst k.
    exists c. split; [|exact Hc]. f_equal.
    rewrite <- firstDigitCounts_tally. symmetry. now apply countOf_member. }
  assert (Hsorted : StronglySorted (fun a b => (indexRank a <= indexRank b)%N)
                      (objectEntries (firstDigitCounts st))).
  { apply objectEntries_sorted. intros kv Hin.
    destruct (counted_keys_digits er _ Hin) as (c & -> & Hc).
    now rewrite arrayIndex_digit. }
  unfold dominantDigit, acceptedTotal.
  pose proof (selectDominant_spec
                (length (tempAccepted st) + length (autoCorrections (results st)))
                (objectEntries (firstDigitCounts st))) as Hsel.
  destruct (selectDominant _ _) as [[k|] m]; cbn [fst].
  - destruct Hsel as (Hm & Hmax & E1 & E2 & HE & Hbefore).
    destruct (Hkeys (k, m)) as (c & [= -> ->] & Hc);
      [rewrite HE; apply in_app_iff; right; now left|].
    exists c. repeat split; auto.
    + destruct (Nat.eq_dec (firstDigitTally st c') 0) as [->|Hpos]; [lia|].
      apply (Hmax ([c'], firstDigitTally st c')), Hentry. lia.
    + intros Heq.
      assert (Hpos : 0 < firstDigitTally st c').
      { rewrite Heq. unfold meetsThreshold in Hm.
        apply andb_prop in Hm as [H1 _]. now apply Nat.leb_le in H1. }
      pose proof (Hentry c' Hpos) as Hin.
      destruct (Hkeys _ Hin) as (c'' & [= ->] & Hc').
      rewrite HE in Hin, Hsorted.
      apply in_app_iff in Hin as [Hin|[Hin|Hin]].
      * apply Hbefore in Hin. cbn in Hin. lia.
      * now injection Hin as ->.
      * apply sorted_tail in Hsorted. rewrite List.Forall_forall in Hsorted.
        specialize (Hsorted _ Hin). unfold indexRank in Hsorted. cbn [fst] in Hsorted.
        rewrite !arrayIndex_digit in Hsorted by assumption. cbn in Hsorted.
        apply TokenFacts.isDigit_range in Hc, Hc'. lia.
  - destruct Hsel as [_ Hnone]. intros c.
    destruct (Nat.eq_dec (firstDigitTally st c) 0) as [->|Hpos]; [reflexivity|].
    apply (Hnone ([c], firstDigitTally st c)), Hentry. lia.
Qed.

(** X4. The dominant digit of a document is a decimal digit: the one that
    most of the accepted and zero-stripped values start with, the smallest
    such digit when several are equally frequent, provided its frequency is
    at least 1 and at least 30% of those values; otherwise there is none. *)
Theorem dominant_digit_rule (er : ExtractionResult) :
  let st := afterClassification er in
  match dominantDigit st with
  | Some d =>
    exists c, d = [c] /\ isDigit c = true
      /\ meetsThreshold (firstDigitTally st c) (acceptedTotal st) = true
      /\ forall c', firstDigitTally st c' <= firstDigitTally st c
                    /\ (firstDigitTally st c' = firstDigitTally st c ->
                        (c <= c')%N)
  | None =>
    forall c, meetsThreshold (firstDigitTally st c) (acceptedTotal st) = false
  end.
Proof. exact (dominantDigit_characterised er). Qed.

Lemma dominant_digit_or_none er :
  digitOrNone (dominantDigit (afterClassification er)).
Proof.
  pose proof (dominantDigit_characterised er) as H. cbn zeta in H.
  destruct (dominantDigit (afterClassification er)) as [d|]; [|now left].
  destruct H as (c & -> & Hc & _). right. eauto.
Qed.

Lemma afterResolution_logged er :
  invariant (wellLogged (cleanedNotes er)
               (dominantDigit (afterClassification er)))
    (afterResolution er).
Proof.
  pose proof (afterClassification_logged
                (dominantDigit (afterClassification er)) er) as I.
  destruct (afterClassification_buckets er) as (_ & _ & _ & Hp).
  unfold afterResolution, resolveAllPending.
  destruct (pending7Digit (afterClassification er)) as [|p ps] eqn:E; [exact I|].
  apply (loop_invariant _ _
           (fun q => hasDigits 7 q = true /\ In q (cleanedNotes er)));
    [| |exact I].
  - intros st q [Hq Hin] _.
    apply resolvePending_logged; auto. apply dominant_digit_or_none.
  - intros q Hq. rewrite Hp in Hq. apply filter_In in Hq. tauto.
Qed.

Lemma corrections_logged_at_end er a :
  In a (autoCorrections (validateDeliveryNotes er)) ->
  wellLogged (cleanedNotes er) (dominantDigit (afterClassification er)) a.
Proof.
  intros Hin. destruct (validate_fields er) as (_ & _ & _ & Hc & _).
  rewrite Hc in Hin. apply (inv_logged _ _ (afterResolution_logged er) a Hin).
Qed.

(** X5. Every entry of [autoCorrections] has confidence "high" and repairs
    one of the candidates.  Either the candidate is a digit string of nine
    digits or more that starts with 0 and the corrected value is what is
    left of it without its leading zeros, eight digits; or the candidate has
    seven digits, does not start with the dominant digit, and the corrected
    value is the candidate with the dominant digit before it.  The corrected
    value is in [accepted]. *)
Theorem corrections_well_logged (er : ExtractionResult) (a : Correction) :
  In a (autoCorrections (validateDeliveryNotes er)) ->
  wellLogged (cleanedNotes er) (dominantDigit (afterClassification er)) a
  /\ In (corrected a) (accepted (validateDeliveryNotes er)).
Proof.
  intros Hin. split.
  - destruct (validate_fields er) as (_ & _ & _ & Hc & _). rewrite Hc in Hin.
    apply (inv_logged _ _ (afterResolution_logged er) a Hin).
  - rewrite accepted_split. apply in_app_iff. left. now apply in_map.
Qed.

Lemma corrections_well_logged_witness :
  let er := makeExtractionResult [js "26996798"; js "27008029"; js "7180890"] in
  let a := mkCorrection (js "7180890") (js "27180890") (js "high")
             (js "Added leading '2'") in
  wellLogged (cleanedNotes er) (dominantDigit (afterClassification er)) a
  /\ In (corrected a) (accepted (validateDeliveryNotes er)).
Proof.
  apply (corrections_well_logged
           (makeExtractionResult [js "26996798"; js "27008029"; js "7180890"])).
  vm_compute. left. reflexivity.
Defined.

Lemma wellLogged_eight cands dom a :
  wellLogged cands dom a -> hasDigits 8 (corrected a) = true.
Proof.
  intros (_ & _ & [(_ & _ & _ & _ & Hl & Hd)|(d & _ & Hd & Ho & _ & -> & _)]).
  - unfold hasDigits. rewrite (isPureDigits_intro _ Hd) by lia.
    rewrite Hl. reflexivity.
  - pose proof (hasDigits_length _ _ Ho) as Hl.
    unfold hasDigits in Ho |- *. apply andb_prop in Ho as [Ho _].
    apply isPureDigits_digits in Ho.
    rewrite isPureDigits_intro; cbn [forallb length]; [|now rewrite Hd, Ho | lia].
    rewrite Hl. reflexivity.
Qed.

Lemma accepted_eight er x :
  In x (accepted (validateDeliveryNotes er)) -> hasDigits 8 x = true.
Proof.
  rewrite accepted_split, in_app_iff. intros [Hin|Hin].
  - apply in_map_iff in Hin as (a & <- & Ha).
    eapply wellLogged_eight, corrections_logged_at_end, Ha.
  - now apply filter_In in Hin.
Qed.

(** X6. Every value of [accepted] is a string of exactly eight decimal
    digits, whatever the candidates are. *)
Theorem accepted_are_eight_digits (er : ExtractionResult) (x : list N) :
  In x (accepted (validateDeliveryNotes er)) -> hasDigits 8 x = true.
Proof. apply accepted_eight. Qed.

Lemma accepted_are_eight_digits_witness :
  hasDigits 8 (js "17654321") = true.
Proof.
  apply (accepted_are_eight_digits
           (makeExtractionResult [js "012345678"; js "7654321"])).
  vm_compute. tauto.
Defined.

(** *** The bucket [duplicates] *)

Lemma fold_preserves {A : Type} (R : State -> Prop) (f : State -> A -> State) l :
  (forall st a, R st -> R (f st a)) ->
  forall st, R st -> R (fold_left f l st).
Proof.
  intros Hf. induction l as [|a l IH]; intros st H; cbn [fold_left]; auto.
Qed.

Lemma acceptStripped_duplicatesSeen c s why n st :
  duplicatesSeen st -> duplicatesSeen (acceptStripped c s why n st).
Proof.
  intros H d. unfold acceptStripped, seenHas.
  destruct (bool_decide_reflect (s ∈ seen st)) as [Hs|Hs];
    cbn [negb results duplicates seen withResults pushAccepted
         pushAutoCorrection addSeen pushDuplicate]; intros Hd.
  - apply in_app_iff in Hd as [Hd|[<-|[]]]; [apply H, Hd | exact Hs].
  - apply elem_of_union_r, H, Hd.
Qed.

Lemma classifyCleaned_duplicatesSeen occ st c :
  duplicatesSeen st -> duplicatesSeen (classifyCleaned occ st c).
Proof.
  intros H. unfold classifyCleaned.
  classify_cases c;
    repeat match goal with
           | |- context [if ?b then _ else _] => destruct b
           end;
    try apply acceptStripped_duplicatesSeen; try exact H;
    intros d Hd; apply elem_of_union_r, H, Hd.
Qed.

Lemma classifyNote_duplicatesSeen occ st note :
  duplicatesSeen st -> duplicatesSeen (classifyNote occ st note).
Proof.
  intros H. unfold classifyNote. destruct (removeClass isSpace note); [exact H|].
  now apply classifyCleaned_duplicatesSeen.
Qed.

Lemma resolvePending_duplicatesSeen occ dom st p :
  duplicatesSeen st -> duplicatesSeen (resolvePending occ dom st p).
Proof.
  intros H. unfold resolvePending, seenHas.
  destruct (truthy dom); [|exact H].
  destruct (bool_decide (charAt0 p = _)); [exact H|].
  destruct (bool_decide_reflect (default [] dom ++ p ∈ seen st)) as [Hs|Hs];
    cbn [negb results duplicates seen withResults pushAccepted
         pushAutoCorrection addSeen pushDuplicate]; intros d Hd.
  - apply in_app_iff in Hd as [Hd|[<-|[]]]; [apply H, Hd | exact Hs].
  - apply elem_of_union_r, H, Hd.
Qed.

Lemma afterResolution_duplicatesSeen er : duplicatesSeen (afterResolution er).
Proof.
  assert (H : duplicatesSeen (afterClassification er)).
  { unfold afterClassification, classifyAll. apply fold_preserves.
    - intros st a. apply classifyNote_duplicatesSeen.
    - intros d []. }
  unfold afterResolution, resolveAllPending.
  destruct (pending7Digit (afterClassification er)); [exact H|].
  apply fold_preserves; [|exact H].
  intros st a. apply resolvePending_duplicatesSeen.
Qed.

(** The last loop adds an extracted duplicate when its value has eight
    characters, has been seen, and is not listed yet. *)
Lemma merge_duplicates_spec dups st :
  let st' := fold_left mergeExtractedDuplicate dups st in
  seen st' = seen st
  /\ (forall d, In d (duplicates (results st')) ->
        In d (duplicates (results st)) \/ In d dups /\ d_value d ∈ seen st)
  /\ (forall dup, In dup dups -> length (d_value dup) = 8 ->
        d_value dup ∈ seen st ->
        exists d, In d (duplicates (results st')) /\ d_value d = d_value dup).
Proof.
  cbn zeta. revert st. induction dups as [|x dups IH]; intros st; cbn [fold_left].
  - split; [reflexivity|]. split; [auto | intros dup []].
  - destruct (IH (mergeExtractedDuplicate st x)) as (Hs & Hd & Hl).
    destruct (merge_duplicates_fields dups (mergeExtractedDuplicate st x))
      as (_ & _ & _ & _ & Hincl).
    assert (Es : seen (mergeExtractedDuplicate st x) = seen st).
    { unfold mergeExtractedDuplicate.
      destruct (_ && _); [destruct (negb _)|]; reflexivity. }
    rewrite Es in *. split; [exact Hs|]. split.
    + intros d Hin. apply Hd in Hin as [Hin|[Hin Hv]]; [|right; split; [now right | exact Hv]].
      unfold mergeExtractedDuplicate, seenHas in Hin.
      destruct (Nat.eqb (length (d_value x)) 8); cbn [andb] in Hin; [|now left].
      destruct (bool_decide_reflect (d_value x ∈ seen st)) as [Hx|Hx]; [|now left].
      destruct (negb _); [|now left].
      cbn [results duplicates withResults pushDuplicate] in Hin.
      apply in_app_iff in Hin as [Hin|[<-|[]]]; [now left|].
      right. split; [now left | exact Hx].
    + intros dup [<-|Hin] H8 Hseen; [|now apply Hl].
      assert (exists d, In d (duplicates (results (mergeExtractedDuplicate st x)))
                        /\ d_value d = d_value x) as (d & Hin & Hv).
      { unfold mergeExtractedDuplicate, seenHas.
        rewrite H8, (bool_decide_eq_true_2 _ Hseen). cbn [Nat.eqb andb].
        destruct (existsb _ _) eqn:Ex; cbn [negb].
        - apply existsb_exists in Ex as (d & Hin & Hv).
          exists d. split; [exact Hin|]. unfold streq in Hv.
          now apply bool_decide_eq_true in Hv.
        - exists x. split; [|reflexivity].
          cbn [results duplicates withResults pushDuplicate].
          apply in_app_iff. right. now left. }
      exists d. split; [apply Hincl, Hin | exact Hv].
Qed.

(** The values seen by the end of the two loops are the accepted ones. *)
Lemma seen_iff_accepted er x :
  x ∈ seen (afterResolution er) <-> In x (accepted (validateDeliveryNotes er)).
Proof.
  destruct (afterResolution_invariant er) as [I G].
  split.
  - intros Hx. destruct (validate_fields er) as (-> & _).
    apply in_app_iff. apply (inv_seen _ _ I x Hx).
  - intros Hx. rewrite accepted_split in Hx.
    apply in_app_iff in Hx as [Hx|Hx].
    + apply in_map_iff in Hx as (a & <- & Ha).
      destruct (validate_fields er) as (_ & _ & _ & Hc & _). rewrite Hc in Ha.
      apply (inv_logged _ _ I a Ha).
    + apply filter_In in Hx as [Hin H8].
      unfold cleanedNotes in Hin. apply in_map_iff in Hin as (note & <- & Hn).
      destruct (classification_at er note Hn) as (st & _ & G').
      apply (gr_seen _ _ G), (gr_seen _ _ G').
      pose proof (hasDigits_length _ _ H8) as Hl.
      unfold hasDigits in H8. apply andb_prop in H8 as [Hd _].
      apply isPureDigits_digits in Hd.
      unfold classifyNote.
      destruct (removeClass isSpace note) as [|a l] eqn:E; [discriminate Hl|].
      rewrite <- E in *. rewrite classifyCleaned_eight by assumption.
      cbn. apply elem_of_union_l, elem_of_singleton. reflexivity.
Qed.

Lemma duplicates_origin er d :
  In d (duplicates (validateDeliveryNotes er)) ->
  d_value d ∈ seen (afterResolution er).
Proof.
  unfold validateDeliveryNotes.
  cbn [setUniqueCount duplicates]. intros Hd.
  destruct (merge_duplicates_spec (extractedDuplicates er)
              (flushTempAccepted (afterResolution er))) as (_ & Ho & _).
  apply Ho in Hd as [Hd|[_ Hd]]; [|exact Hd].
  apply (afterResolution_duplicatesSeen er), Hd.
Qed.

(** X7. Every entry of [duplicates] is about an accepted value: its value
    is in [accepted], a string of eight digits. *)
Theorem duplicates_are_accepted (er : ExtractionResult) (d : Duplicate) :
  In d (duplicates (validateDeliveryNotes er)) ->
  In (d_value d) (accepted (validateDeliveryNotes er)).
Proof. intros Hd. apply (proj1 (seen_iff_accepted er _)), duplicates_origin, Hd. Qed.

Lemma duplicates_are_accepted_witness :
  let r := validateDeliveryNotes
             (makeExtractionResult [js "12345678"; js "012345678"]) in
  In (d_value (mkDuplicate (js "12345678") 2
                 (js "Corrected from 012345678, already exists")))
     (accepted r).
Proof.
  apply (duplicates_are_accepted
           (makeExtractionResult [js "12345678"; js "012345678"])).
  vm_compute. left. reflexivity.
Defined.

Lemma repeated_listed er dup :
  In dup (extractedDuplicates er) ->
  In (d_value dup) (accepted (validateDeliveryNotes er)) ->
  exists d, In d (duplicates (validateDeliveryNotes er))
            /\ d_value d = d_value dup.
Proof.
  intros Hin Hacc.
  assert (H8 : length (d_value dup) = 8).
  { rewrite accepted_split, in_app_iff in Hacc. destruct Hacc as [Ha|Ha].
    - apply in_map_iff in Ha as (a & <- & Ha).
      eapply hasDigits_length, wellLogged_eight, corrections_logged_at_end, Ha.
    - apply filter_In in Ha. now apply hasDigits_length. }
  apply (proj2 (seen_iff_accepted er _)) in Hacc.
  unfold validateDeliveryNotes. cbn [setUniqueCount duplicates].
  destruct (merge_duplicates_spec (extractedDuplicates er)
              (flushTempAccepted (afterResolution er))) as (_ & _ & Hl).
  now apply Hl.
Qed.

(** X8. A value reported as repeated by the extraction and accepted by the
    validation is listed in [duplicates]. *)
Theorem repeated_accepted_listed (er : ExtractionResult) (dup : Duplicate) :
  In dup (extractedDuplicates er) ->
  In (d_value dup) (accepted (validateDeliveryNotes er)) ->
  exists d, In d (duplicates (validateDeliveryNotes er))
            /\ d_value d = d_value dup.
Proof. apply repeated_listed. Qed.

Lemma repeated_accepted_listed_witness :
  let er := makeExtractionResult [js "12345678"; js "12345678"] in
  exists d, In d (duplicates (validateDeliveryNotes er))
            /\ d_value d = d_value (mkDuplicate (js "12345678") 2
                                      (js "Found 2 times")).
Proof.
  apply (repeated_accepted_listed
           (makeExtractionResult [js "12345678"; js "12345678"])).
  - vm_compute. left. reflexivity.
  - vm_compute. left. reflexivity.
Defined.

(** *** Where the entries of [excluded] and [invalid] come from *)

Lemma excluded_origin er e :
  In e (excluded (validateDeliveryNotes er)) ->
  In (value e) (cleanedNotes er)
  /\ (hasDigits 9 (value e) || hasDigits 10 (value e)) = true
  /\ reducesToEight (value e) = false
  /\ reason e = excludedReason (length (value e)).
Proof.
  destruct (validate_fields er) as (_ & -> & _).
  destruct (afterResolution_buckets er) as (-> & _).
  intros Hin. apply in_flat_map in Hin as (c & Hc & Hin).
  unfold excludedEntry in Hin.
  destruct (hasDigits 9 c || hasDigits 10 c) eqn:E1; [|destruct Hin].
  destruct (reducesToEight c) eqn:E2; [destruct Hin|].
  destruct Hin as [<-|[]]. cbn [value reason]. auto.
Qed.

Lemma invalid_origin er e :
  In e (invalid (validateDeliveryNotes er)) ->
  In (value e) (cleanedNotes er)
  /\ (In e (invalidAtClassification (value e))
      /\ (isPureDigits (value e) = false \/ length (value e) < 7
          \/ 10 < length (value e))
      \/ hasDigits 7 (value e) = true
         /\ In e (invalidAtResolution (dominantDigit (afterClassification er))
                    (value e))).
Proof.
  rewrite invalid_split, in_app_iff. intros [Hin|Hin].
  - apply in_flat_map in Hin as (c & Hc & Hin).
    assert (E : value e = c /\ (isPureDigits c = false \/ length c < 7
                                \/ 10 < length c)).
    { unfold invalidAtClassification in Hin. destruct c as [|a l]; [destruct Hin|].
      destruct (isPureDigits (a :: l)); cbn [negb] in Hin.
      - destruct (Nat.ltb_spec (length (a :: l)) 7); cbn [orb] in Hin.
        + destruct Hin as [<-|[]]. cbn [value]. auto.
        + destruct (Nat.ltb_spec 10 (length (a :: l))); cbn [andb] in Hin;
            [|destruct Hin].
          destruct (negb _); [|destruct Hin].
          destruct Hin as [<-|[]]. cbn [value]. auto.
      - destruct Hin as [<-|[]]. cbn [value]. auto. }
    destruct E as [<- E]. auto.
  - apply in_flat_map in Hin as (q & Hq & Hin). apply filter_In in Hq as [Hq H7].
    assert (E : value e = q).
    { unfold invalidAtResolution in Hin. destruct (truthy _).
      - destruct (bool_decide _); [|destruct Hin]. now destruct Hin as [<-|[]].
      - now destruct Hin as [<-|[]]. }
    subst q. auto.
Qed.

Lemma startsWith_charAt0 d p :
  startsWith d p = false -> charAt0 p <> Some [d].
Proof.
  destruct p as [|c p]; cbn; [discriminate|].
  intros H [= ->]. now rewrite N.eqb_refl in H.
Qed.

Lemma pending_candidates er p :
  In p (pending7Digit (afterClassification er))
  <-> In p (cleanedNotes er) /\ hasDigits 7 p = true.
Proof.
  destruct (afterClassification_buckets er) as (_ & _ & _ & ->).
  apply filter_In.
Qed.

(** X9. When there is a dominant digit, a 7-digit candidate that does not
    start with it is completed: the candidate with the dominant digit before
    it is in [accepted].  The completion is logged in [autoCorrections] with
    the reason "Added leading '<d>'", or, its result having been seen
    already, in [duplicates]; the candidate itself is not in [invalid]. *)
Theorem seven_digits_completed (er : ExtractionResult) (p : list N) (d : N) :
  In p (cleanedNotes er) -> hasDigits 7 p = true ->
  dominantDigit (afterClassification er) = Some [d] ->
  startsWith d p = false ->
  let r := validateDeliveryNotes er in
  In (d :: p) (accepted r)
  /\ (In (mkCorrection p (d :: p) (js "high") (addedLeadingReason [d]))
        (autoCorrections r)
      \/ exists dup n, In dup (duplicates r) /\ d_value dup = d :: p
                       /\ d_reason dup = correctedFromReason p n)
  /\ forall e, In e (invalid r) -> value e <> p.
Proof.
  intros Hin H7 Hdom Hstart r.
  pose proof (startsWith_charAt0 _ _ Hstart) as Hfirst.
  assert (Hpend : In p (pending7Digit (afterClassification er)))
    by now apply (proj2 (pending_candidates er p)).
  destruct (resolution_at er p Hpend) as (st & I & G).
  destruct (validate_fields er) as (_ & _ & _ & Hc & Hdup). fold r in Hc, Hdup.
  rewrite Hdom in G. unfold resolvePending, seenHas in G.
  cbn [truthy from_option id default app] in G.
  rewrite (bool_decide_eq_false_2 _ Hfirst) in G.
  split; [|split].
  - apply (proj1 (seen_iff_accepted er _)), (gr_seen _ _ G).
    destruct (bool_decide_reflect (d :: p ∈ seen st)) as [Hs|Hs];
      cbn [negb seen withResults addSeen]; [exact Hs|].
    apply elem_of_union_l, elem_of_singleton. reflexivity.
  - destruct (bool_decide_reflect (d :: p ∈ seen st)) as [Hs|Hs];
      cbn [negb] in G.
    + right. eexists. eexists. split; [|split].
      * apply Hdup, (gr_duplicates _ _ G).
        cbn [results duplicates withResults pushDuplicate].
        apply in_app_iff. right. left. reflexivity.
      * reflexivity.
      * reflexivity.
    + left. rewrite Hc. apply (gr_logged _ _ G).
      cbn [results autoCorrections withResults pushAccepted pushAutoCorrection
           addSeen].
      apply in_app_iff. right. left. reflexivity.
  - intros e He Hv. apply invalid_origin in He as [_ [[_ He]|[_ He]]].
    + rewrite Hv in He. pose proof (hasDigits_length _ _ H7) as Hl.
      unfold hasDigits in H7. apply andb_prop in H7 as [Hp _].
      rewrite Hp, Hl in He. destruct He as [He|[He|He]]; [discriminate|lia|lia].
    + rewrite Hv, Hdom in He. unfold invalidAtResolution in He.
      cbn [truthy] in He. rewrite (bool_decide_eq_false_2 _ Hfirst) in He.
      destruct He.
Qed.

Lemma seven_digits_completed_witness :
  let er := makeExtractionResult [js "26996798"; js "27008029"; js "7180890"] in
  let r := validateDeliveryNotes er in
  In (js "27180890") (accepted r)
  /\ (In (mkCorrection (js "7180890") (js "27180890") (js "high")
            (addedLeadingReason (js "2")))
        (autoCorrections r)
      \/ exists dup n, In dup (duplicates r) /\ d_value dup = js "27180890"
                       /\ d_reason dup = correctedFromReason (js "7180890") n)
  /\ forall e, In e (invalid r) -> value e <> js "7180890".
Proof.
  apply (seven_digits_completed
           (makeExtractionResult [js "26996798"; js "27008029"; js "7180890"])
           (js "7180890") 50%N).
  - vm_compute. tauto.
  - reflexivity.
  - vm_compute. reflexivity.
  - reflexivity.
Defined.

(** X10. When there is no dominant digit, every 7-digit candidate is put in
    [invalid] with the reason "7 digits - needs manual review"; it is
    neither accepted nor the original of a logged correction, and every
    logged correction is the removal of leading zeros. *)
Theorem seven_digits_without_dominant (er : ExtractionResult) (p : list N) :
  In p (cleanedNotes er) -> hasDigits 7 p = true ->
  dominantDigit (afterClassification er) = None ->
  let r := validateDeliveryNotes er in
  In (mkEntry p (js "7 digits - needs manual review")) (invalid r)
  /\ ~ In p (accepted r)
  /\ forall a, In a (autoCorrections r) -> zerosRemoved a /\ original a <> p.
Proof.
  intros Hin H7 Hdom r. pose proof (hasDigits_length _ _ H7) as Hl.
  split; [|split].
  - unfold r. rewrite invalid_split. apply in_app_iff. right.
    apply in_flat_map. exists p. split; [now apply filter_In|].
    rewrite Hdom. left. reflexivity.
  - intros Ha. apply accepted_eight, hasDigits_length in Ha. lia.
  - intros a Ha. apply corrections_logged_at_end in Ha.
    rewrite Hdom in Ha. destruct Ha as (_ & _ & [Hz|(d & Hd & _)]);
      [|discriminate].
    split; [exact Hz|]. intros E. destruct Hz as (_ & H9 & _).
    rewrite E in H9. lia.
Qed.

Lemma seven_digits_without_dominant_witness :
  let r := validateDeliveryNotes (makeExtractionResult [js "7180890"]) in
  In (mkEntry (js "7180890") (js "7 digits - needs manual review")) (invalid r)
  /\ ~ In (js "7180890") (accepted r)
  /\ forall a, In a (autoCorrections r) ->
               zerosRemoved a /\ original a <> js "7180890".
Proof.
  apply (seven_digits_without_dominant (makeExtractionResult [js "7180890"])).
  - vm_compute. tauto.
  - reflexivity.
  - vm_compute. reflexivity.
Defined.

(** X11. The three buckets of values are disjoint: an accepted value is the
    value of no [excluded] and of no [invalid] entry, and the value of an
    [excluded] entry is the value of no [invalid] entry. *)
Theorem buckets_disjoint (er : ExtractionResult) (x : list N) :
  let r := validateDeliveryNotes er in
  let rejected es := exists e, In e es /\ value e = x in
  (In x (accepted r) -> ~ rejected (excluded r) /\ ~ rejected (invalid r))
  /\ (rejected (excluded r) -> ~ rejected (invalid r)).
Proof.
  cbn zeta.
  assert (Hinv : forall e, In e (invalid (validateDeliveryNotes er)) ->
            isPureDigits (value e) = false \/ length (value e) <= 7
            \/ 10 < length (value e)).
  { intros e He. apply invalid_origin in He as [_ [[_ He]|[He _]]].
    - destruct He as [He|[He|He]]; auto. right. left. lia.
    - apply hasDigits_length in He. right. left. lia. }
  assert (Hexc : forall e, In e (excluded (validateDeliveryNotes er)) ->
            isPureDigits (value e) = true
            /\ (length (value e) = 9 \/ length (value e) = 10)).
  { intros e He. apply excluded_origin in He as (_ & He & _).
    apply orb_prop in He. unfold hasDigits in He.
    destruct He as [He|He]; apply andb_prop in He as [Hp Hl];
      apply Nat.eqb_eq in Hl; auto. }
  split.
  - intros Ha. apply accepted_eight in Ha. pose proof (hasDigits_length _ _ Ha) as Hl.
    unfold hasDigits in Ha. apply andb_prop in Ha as [Hp _].
    split; intros (e & He & <-).
    + apply Hexc in He. lia.
    + apply Hinv in He. rewrite Hp in He. destruct He as [He|He]; [discriminate|lia].
  - intros (e & He & <-) (e' & He' & E). apply Hexc in He as [Hp Hl].
    apply Hinv in He'. rewrite E, Hp in He'.
    destruct He' as [He'|He']; [discriminate|lia].
Qed.

(** *** The extraction of the candidates *)

Lemma dedup_in s l x : In x (dedup s l) <-> In x l /\ x ∉ s.
Proof.
  revert s. induction l as [|n l IH]; intros s; cbn [dedup In]; [tauto|].
  destruct (bool_decide_reflect (n ∈ s)) as [Hn|Hn].
  - rewrite IH. split; [tauto|]. intros [[->|H] Hs]; [contradiction | tauto].
  - cbn [In]. rewrite IH, not_elem_of_union, elem_of_singleton.
    destruct (decide (n = x)) as [->|Hne]; [tauto|].
    split; [intros [E|H]; [contradiction | tauto]|].
    intros [[E|H] Hs]; [contradiction|]. right. repeat split; auto.
Qed.

Lemma dedup_nodup s l : List.NoDup (dedup s l).
Proof.
  revert s. induction l as [|n l IH]; intros s; cbn [dedup]; [constructor|].
  destruct (bool_decide_reflect (n ∈ s)) as [Hn|Hn]; [apply IH|].
  constructor; [|apply IH]. rewrite dedup_in, not_elem_of_union, elem_of_singleton.
  tauto.
Qed.

Lemma dedup_fixed s l :
  List.NoDup l -> (forall x, In x l -> x ∉ s) -> dedup s l = l.
Proof.
  revert s. induction l as [|n l IH]; intros s Hnd Hs; cbn [dedup]; [reflexivity|].
  rewrite bool_decide_eq_false_2 by (apply Hs; now left).
  apply List.NoDup_cons_iff in Hnd as [Hn Hnd]. f_equal. apply IH; [exact Hnd|].
  intros x Hx. apply not_elem_of_union. split; [|apply Hs; now right].
  intros E. apply elem_of_singleton in E. now subst.
Qed.

Lemma dedup_length s l :
  length (dedup s l) = size ((list_to_set l : gset (list N)) ∖ s).
Proof.
  revert s. induction l as [|n l IH]; intros s; cbn [dedup list_to_set].
  - assert (E : (∅ : gset (list N)) ∖ s = ∅).
    { apply set_eq. intros x. rewrite elem_of_difference, elem_of_empty. tauto. }
    now rewrite E, size_empty.
  - destruct (bool_decide_reflect (n ∈ s)) as [Hn|Hn].
    + rewrite IH. f_equal. apply set_eq. intros x.
      rewrite !elem_of_difference, elem_of_union, elem_of_singleton.
      split; [tauto|]. intros [[->|H] Hs]; [contradiction | tauto].
    + cbn [length]. rewrite IH.
      assert (E : ({[n]} ∪ list_to_set l : gset (list N)) ∖ s
                  = {[n]} ∪ (list_to_set l ∖ ({[n]} ∪ s))).
      { apply set_eq. intros x.
        rewrite !elem_of_difference, !elem_of_union, elem_of_difference,
          elem_of_union, !elem_of_singleton.
        destruct (decide (x = n)) as [->|Hne]; tauto. }
      rewrite E.
      rewrite (size_union ({[n]} : gset (list N))), size_singleton; [reflexivity|].
      apply disjoint_singleton_l. intros Hx.
      apply elem_of_difference in Hx as [_ Hx].
      apply Hx, elem_of_union_l, elem_of_singleton. reflexivity.
Qed.

Lemma extract_fold items st :
  fold_left extractItem items st
  = mkFound (allCandidates st ++ candidatesOf items)
      (fold_left (fun occ c => <[c := nextCount occ c]> occ)
         (candidatesOf items) (counted st)).
Proof.
  unfold candidatesOf. revert st.
  induction items as [|item items IH]; intros st; cbn [fold_left map List.filter].
  - rewrite app_nil_r. now destruct st.
  - rewrite IH. unfold extractItem.
    destruct (removeClass isSpace (text item)) as [|a l] eqn:E.
    + reflexivity.
    + destruct (isCandidate (a :: l)); cbn [allCandidates counted fold_left];
        [|reflexivity].
      now rewrite <- app_assoc.
Qed.

(** The counting object holds, for each candidate, the number of its
    occurrences so far. *)
Lemma count_fold cs : forall (occ : gmap (list N) Z) c,
  (forall k n, occ !! k = Some n -> (0 < n)%Z) ->
  let occ' := fold_left (fun occ c => <[c := nextCount occ c]> occ) cs occ in
  let m := length (List.filter (fun x => bool_decide (x = c)) cs) in
  (forall k n, occ' !! k = Some n -> (0 < n)%Z)
  /\ occ' !! c = match occ !! c with
                 | Some n => Some (n + Z.of_nat m)%Z
                 | None => if Nat.eqb m 0 then None else Some (Z.of_nat m)
                 end.
Proof.
  induction cs as [|x cs IH]; intros occ c Hpos; cbn zeta.
  - cbn [fold_left List.filter length Nat.eqb]. split; [exact Hpos|].
    destruct (occ !! c); [f_equal; lia | reflexivity].
  - cbn [fold_left List.filter].
    assert (Hnext : (0 < nextCount occ x)%Z).
    { unfold nextCount. destruct (occ !! x) as [n|] eqn:E; [|lia].
      specialize (Hpos _ _ E). destruct (Z.eqb_spec n 0); lia. }
    assert (Hpos' : forall k n,
               <[x := nextCount occ x]> occ !! k = Some n -> (0 < n)%Z).
    { intros k n. destruct (decide (x = k)) as [->|Hne].
      - rewrite lookup_insert_eq. now intros [= <-].
      - rewrite lookup_insert_ne by exact Hne. apply Hpos. }
    destruct (IH (<[x := nextCount occ x]> occ) c Hpos') as [H1 H2].
    split; [exact H1|]. cbn zeta in H2. rewrite H2.
    destruct (bool_decide_reflect (x = c)) as [->|Hne].
    + rewrite lookup_insert_eq. cbn [length]. unfold nextCount.
      destruct (occ !! c) as [n|] eqn:E.
      * specialize (Hpos _ _ E). destruct (Z.eqb_spec n 0); [lia|]. f_equal. lia.
      * cbn [Nat.eqb]. f_equal. lia.
    + rewrite lookup_insert_ne by exact Hne. reflexivity.
Qed.

Lemma extraction_fields items :
  let er := extractPotentialDeliveryNotes items in
  unique er = dedup ∅ (candidatesOf items)
  /\ totalCount er = Z.of_nat (length (candidatesOf items))
  /\ (forall c, occurrenceCount er !! c
                = if Nat.eqb (occurrences c items) 0 then None
                  else Some (Z.of_nat (occurrences c items)))
  /\ extractedDuplicates er
     = flat_map (duplicateOf (occurrenceCount er)) (unique er).
Proof.
  cbn zeta. unfold extractPotentialDeliveryNotes. rewrite extract_fold.
  cbn [allCandidates counted unique totalCount occurrenceCount
       extractedDuplicates app].
  repeat split. intros c.
  destruct (count_fold (candidatesOf items) ∅ c) as [_ H].
  { intros k n. rewrite lookup_empty. discriminate. }
  cbn zeta in H. rewrite H, lookup_empty. reflexivity.
Qed.

Lemma occurrences_positive c items :
  In c (candidatesOf items) <-> 0 < occurrences c items.
Proof.
  unfold occurrences. induction (candidatesOf items) as [|x l IH];
    cbn [In List.filter length]; [lia|].
  destruct (bool_decide_reflect (x = c)) as [->|Hne]; cbn [length].
  - split; [lia | now left].
  - rewrite <- IH. split; [intros [E|H]; [contradiction | exact H] | now right].
Qed.

Lemma duplicateOf_nodup occ l :
  List.NoDup l -> List.NoDup (map d_value (flat_map (duplicateOf occ) l)).
Proof.
  induction l as [|c l IH]; intros Hnd; cbn [flat_map map]; [constructor|].
  apply List.NoDup_cons_iff in Hnd as [Hc Hnd]. rewrite map_app.
  assert (Hl : forall x, In x (map d_value (flat_map (duplicateOf occ) l)) ->
                         In x l).
  { intros x Hx. apply in_map_iff in Hx as (y & <- & Hy).
    apply in_flat_map in Hy as (c' & Hc' & Hy). unfold duplicateOf in Hy.
    destruct (occ !! c'); [|destruct Hy]. destruct (_ <? _)%Z; [|destruct Hy].
    destruct Hy as [<-|[]]. exact Hc'. }
  unfold duplicateOf at 1.
  destruct (occ !! c) as [n|]; [destruct (_ <? _)%Z|]; cbn [map d_value app];
    try (apply IH; exact Hnd).
  constructor; [|apply IH; exact Hnd].
  intros Hx. apply Hc, Hl, Hx.
Qed.

(** X12. The extraction counts what it keeps: [totalCount] is the number of
    text items that, white space removed, are strings of 7 to 12 digits,
    and [occurrenceCount] maps each such string to the number of items
    that give it, and nothing else to anything. *)
Theorem extraction_counts (items : list TextItem) :
  let er := extractPotentialDeliveryNotes items in
  totalCount er = Z.of_nat (length (candidatesOf items))
  /\ forall c, occurrenceCount er !! c
               = if Nat.eqb (occurrences c items) 0 then None
                 else Some (Z.of_nat (occurrences c items)).
Proof.
  destruct (extraction_fields items) as (_ & H1 & H2 & _). now split.
Qed.

(** X13. [unique] lists every kept string once: it has no repetition, a
    string is in it exactly when some text item gives it, and each of its
    members is a string of 7 to 12 digits without white space. *)
Theorem extraction_unique (items : list TextItem) :
  let er := extractPotentialDeliveryNotes items in
  List.NoDup (unique er)
  /\ (forall c, In c (unique er) <->
        exists item, In item items /\ removeClass isSpace (text item) = c
                     /\ isCandidate c = true)
  /\ cleanedNotes er = unique er.
Proof.
  destruct (extraction_fields items) as (Hu & _). cbn zeta.
  assert (Hin : forall c, In c (unique (extractPotentialDeliveryNotes items)) <->
            exists item, In item items /\ removeClass isSpace (text item) = c
                         /\ isCandidate c = true).
  { intros c. rewrite Hu, dedup_in. unfold candidatesOf.
    rewrite filter_In, in_map_iff. split.
    - intros [[(item & E & Hi) Hc] _]. eauto.
    - intros (item & Hi & E & Hc). split; [eauto | apply not_elem_of_empty]. }
  split; [rewrite Hu; apply dedup_nodup|]. split; [exact Hin|].
  unfold cleanedNotes. rewrite <- (map_id (unique _)) at 2.
  apply map_ext_in. intros c Hc. apply Hin in Hc as (_ & _ & _ & Hc).
  unfold isCandidate in Hc. apply andb_prop in Hc as [Hc _].
  apply andb_prop in Hc as [Hc _].
  now apply TokenFacts.removeClass_isSpace_digits.
Qed.

Lemma extractedDuplicates_spec items d :
  let er := extractPotentialDeliveryNotes items in
  let n := occurrences (d_value d) items in
  (In d (extractedDuplicates er) <->
   1 < n /\ d = mkDuplicate (d_value d) (Z.of_nat n)
                  (foundInDocumentReason (Z.of_nat n)))
  /\ List.NoDup (map d_value (extractedDuplicates er)).
Proof.
  destruct (extraction_fields items) as (Hu & _ & Hocc & Hd). cbn zeta.
  rewrite Hd. split.
  - rewrite in_flat_map. unfold duplicateOf. split.
    + intros (c & Hc & Hin). rewrite Hocc in Hin.
      destruct (Nat.eqb_spec (occurrences c items) 0); [destruct Hin|].
      destruct (Z.ltb_spec 1 (Z.of_nat (occurrences c items))); [|destruct Hin].
      destruct Hin as [<-|[]]. cbn [d_value]. split; [lia | reflexivity].
    + intros [Hn E]. exists (d_value d). split.
      * rewrite Hu, dedup_in. split; [|apply not_elem_of_empty].
        apply occurrences_positive. lia.
      * rewrite Hocc.
        destruct (Nat.eqb_spec (occurrences (d_value d) items) 0); [lia|].
        destruct (Z.ltb_spec 1 (Z.of_nat (occurrences (d_value d) items))); [|lia].
        left. now rewrite <- E.
  - apply duplicateOf_nodup. rewrite Hu. apply dedup_nodup.
Qed.

(** X14. The extraction reports as duplicates exactly the kept strings that
    occur more than once, each once, with the number of its occurrences and
    the reason "Found <n> times in document". *)
Theorem extraction_duplicates (items : list TextItem) (d : Duplicate) :
  let er := extractPotentialDeliveryNotes items in
  let n := occurrences (d_value d) items in
  (In d (extractedDuplicates er) <->
   1 < n /\ d = mkDuplicate (d_value d) (Z.of_nat n)
                  (foundInDocumentReason (Z.of_nat n)))
  /\ List.NoDup (map d_value (extractedDuplicates er)).
Proof. apply extractedDuplicates_spec. Qed.

(** *** From the text items to the results *)

Lemma unique_candidates items c :
  In c (unique (extractPotentialDeliveryNotes items))
  <-> In c (candidatesOf items).
Proof.
  destruct (extraction_fields items) as (-> & _).
  rewrite dedup_in. split; [tauto|]. intros H. split; [exact H|].
  apply not_elem_of_empty.
Qed.

Lemma candidate_digits items c :
  In c (candidatesOf items) ->
  forallb isDigit c = true /\ 7 <= length c <= 12.
Proof.
  unfold candidatesOf. rewrite filter_In. intros [_ H]. unfold isCandidate in H.
  apply andb_prop in H as [H H12]. apply andb_prop in H as [Hd H7].
  apply Nat.leb_le in H7, H12. auto.
Qed.

Lemma cleaned_candidates items :
  cleanedNotes (extractPotentialDeliveryNotes items)
  = unique (extractPotentialDeliveryNotes items).
Proof.
  unfold cleanedNotes. rewrite <- (map_id (unique _)) at 2.
  apply map_ext_in. intros c Hc. apply unique_candidates, candidate_digits in Hc.
  now apply TokenFacts.removeClass_isSpace_digits.
Qed.

Lemma candidate_recorded er note :
  In note (unique er) -> removeClass isSpace note <> [] ->
  recorded (removeClass isSpace note) (afterResolution er).
Proof.
  intros Hin Hne.
  destruct (afterResolution_invariant er) as [I2 G2].
  destruct (classification_at er note Hin) as (st & I & G).
  unfold classifyNote in G.
  destruct (removeClass isSpace note) as [|c0 c'] eqn:Ec; [now destruct Hne|].
  destruct (classifyCleaned_recorded (occurrenceCount er) st (c0 :: c')) as [H|H].
  - eapply recorded_grows; [exact G2|]. eapply recorded_grows; [exact G | exact H].
  - apply (gr_pending _ _ G) in H.
    destruct (resolution_at er _ H) as (st' & I' & G').
    eapply recorded_grows; [exact G' | apply resolvePending_recorded].
Qed.

Lemma recorded_in_results er c :
  recorded c (afterResolution er) ->
  let r := validateDeliveryNotes er in
  In c (accepted r)
  \/ (exists e, In e (excluded r) /\ value e = c)
  \/ (exists e, In e (invalid r) /\ value e = c)
  \/ (exists a, In a (autoCorrections r) /\ original a = c)
  \/ (exists d tail, In d (duplicates r)
                     /\ d_reason d = alreadyExistsReason c ++ tail).
Proof.
  intros Hrec. cbn zeta.
  destruct (validate_fields er) as (Ha & He & Hi & Hc & Hdup).
  destruct Hrec as [H|[H|[(e & H & E)|[(e & H & E)|[(a & H & E)|(d & t & H & E)]]]]].
  - left. rewrite Ha. apply in_app_iff. now left.
  - left. rewrite Ha. apply in_app_iff. now right.
  - right. left. exists e. now rewrite He.
  - right. right. left. exists e. now rewrite Hi.
  - right. right. right. left. exists a. now rewrite Hc.
  - right. right. right. right. exists d, t. split; [now apply Hdup | exact E].
Qed.

Lemma processPDF_result items pageCount p :
  processPDF items pageCount = inr p ->
  p = mkProcessed (validateDeliveryNotes (extractPotentialDeliveryNotes items))
        pageCount (totalCount (extractPotentialDeliveryNotes items))
        (length (unique (extractPotentialDeliveryNotes items))).
Proof. destruct items; [discriminate|]. now intros [= <-]. Qed.

(** X15. Every number of the document is accounted for.  When a text item,
    white space removed, is a string of 7 to 12 digits, [processPDF] returns
    results, and the string is a value of [accepted], the value of an
    [excluded] or [invalid] entry, the original of an [autoCorrections]
    entry, or named in the reason of a [duplicates] entry. *)
Theorem document_numbers_recorded (items : list TextItem) (pageCount : nat)
    (item : TextItem) :
  In item items ->
  let c := removeClass isSpace (text item) in
  isCandidate c = true ->
  exists p, processPDF items pageCount = inr p
    /\ (In c (accepted (p_results p))
        \/ (exists e, In e (excluded (p_results p)) /\ value e = c)
        \/ (exists e, In e (invalid (p_results p)) /\ value e = c)
        \/ (exists a, In a (autoCorrections (p_results p)) /\ original a = c)
        \/ (exists d tail, In d (duplicates (p_results p))
                           /\ d_reason d = alreadyExistsReason c ++ tail)).
Proof.
  intros Hin c Hc.
  assert (Hcand : In c (candidatesOf items)).
  { unfold candidatesOf. apply filter_In. split; [|exact Hc].
    apply in_map_iff. eauto. }
  destruct items as [|i0 items']; [destruct Hin|].
  eexists. split; [reflexivity|]. cbn [p_results].
  set (items := i0 :: items') in *.
  pose proof (candidate_digits _ _ Hcand) as [Hd Hl].
  apply unique_candidates in Hcand.
  pose proof (TokenFacts.removeClass_isSpace_digits c Hd) as Hclean.
  rewrite <- Hclean. apply recorded_in_results, candidate_recorded; [exact Hcand|].
  rewrite Hclean. intros E. rewrite E in Hl. cbn in Hl. lia.
Qed.

Lemma document_numbers_recorded_witness :
  let items := [mkItem (js "Delivery") 1; mkItem (js "2699 6798") 1] in
  let c := removeClass isSpace (js "2699 6798") in
  exists p, processPDF items 1 = inr p
    /\ (In c (accepted (p_results p))
        \/ (exists e, In e (excluded (p_results p)) /\ value e = c)
        \/ (exists e, In e (invalid (p_results p)) /\ value e = c)
        \/ (exists a, In a (autoCorrections (p_results p)) /\ original a = c)
        \/ (exists d tail, In d (duplicates (p_results p))
                           /\ d_reason d = alreadyExistsReason c ++ tail)).
Proof.
  apply (document_numbers_recorded
           [mkItem (js "Delivery") 1; mkItem (js "2699 6798") 1] 1
           (mkItem (js "2699 6798") 1)).
  - right. left. reflexivity.
  - reflexivity.
Defined.

(** X16. In the results of a document no [invalid] entry is there for a
    character that is no digit: the value of every [invalid] entry is a
    digit string of 7, 11 or 12 digits, that of every [excluded] entry one
    of 9 or 10 digits.  The two raw counts are those of the extraction. *)
Theorem document_rejections (items : list TextItem) (pageCount : nat)
    (p : Processed) :
  processPDF items pageCount = inr p ->
  (forall e, In e (invalid (p_results p)) ->
     forallb isDigit (value e) = true
     /\ (length (value e) = 7 \/ length (value e) = 11
         \/ length (value e) = 12))
  /\ (forall e, In e (excluded (p_results p)) ->
        forallb isDigit (value e) = true
        /\ (length (value e) = 9 \/ length (value e) = 10))
  /\ rawCount p = Z.of_nat (length (candidatesOf items))
  /\ uniqueRawCount p = length (dedup ∅ (candidatesOf items))
  /\ p_pageCount p = pageCount.
Proof.
  intros E. apply processPDF_result in E as ->.
  cbn [p_results rawCount uniqueRawCount p_pageCount].
  destruct (extraction_fields items) as (Hu & Ht & _).
  split; [|split; [|split; [exact Ht | now rewrite Hu]]].
  - intros e He. apply invalid_origin in He as [Hin He].
    rewrite cleaned_candidates in Hin.
    apply unique_candidates, candidate_digits in Hin as [Hd Hl].
    split; [exact Hd|]. destruct He as [[_ [He|[He|He]]]|[He _]].
    + rewrite isPureDigits_intro in He by (auto; lia). discriminate.
    + lia.
    + lia.
    + apply hasDigits_length in He. lia.
  - intros e He. apply excluded_origin in He as (Hin & He & _).
    rewrite cleaned_candidates in Hin.
    apply unique_candidates, candidate_digits in Hin as [Hd Hl].
    split; [exact Hd|]. apply orb_prop in He.
    destruct He as [He|He]; apply hasDigits_length in He; lia.
Qed.

Lemma document_rejections_witness :
  let items := [mkItem (js "001234567890") 1; mkItem (js "123456789") 2] in
  let p := mkProcessed
             (validateDeliveryNotes (extractPotentialDeliveryNotes items)) 2 2 2 in
  (forall e, In e (invalid (p_results p)) ->
     forallb isDigit (value e) = true
     /\ (length (value e) = 7 \/ length (value e) = 11
         \/ length (value e) = 12))
  /\ (forall e, In e (excluded (p_results p)) ->
        forallb isDigit (value e) = true
        /\ (length (value e) = 9 \/ length (value e) = 10))
  /\ rawCount p = Z.of_nat (length (candidatesOf items))
  /\ uniqueRawCount p = length (dedup ∅ (candidatesOf items))
  /\ p_pageCount p = 2.
Proof.
  apply (document_rejections
           [mkItem (js "001234567890") 1; mkItem (js "123456789") 2] 2).
  reflexivity.
Defined.

(** X17. A number of eight digits that the document shows more than once is
    accepted and listed in [duplicates]. *)
Theorem document_repeated_number (items : list TextItem) (pageCount : nat)
    (p : Processed) (c : list N) :
  processPDF items pageCount = inr p ->
  hasDigits 8 c = true -> 1 < occurrences c items ->
  In c (accepted (p_results p))
  /\ exists d, In d (duplicates (p_results p)) /\ d_value d = c.
Proof.
  intros E H8 Hocc. apply processPDF_result in E as ->. cbn [p_results].
  assert (Hacc : In c (accepted (validateDeliveryNotes
                                   (extractPotentialDeliveryNotes items)))).
  { rewrite accepted_split, cleaned_candidates. apply in_app_iff. right.
    apply filter_In. split; [|exact H8].
    apply unique_candidates, occurrences_positive. lia. }
  split; [exact Hacc|].
  set (dup := mkDuplicate c (Z.of_nat (occurrences c items))
                (foundInDocumentReason (Z.of_nat (occurrences c items)))).
  apply (repeated_listed _ dup); [|exact Hacc].
  apply (proj1 (extractedDuplicates_spec items dup)). cbn [d_value dup].
  split; [exact Hocc | reflexivity].
Qed.

Lemma document_repeated_number_witness :
  let items := [mkItem (js "26996798") 1; mkItem (js "2699 6798") 2] in
  let p := mkProcessed
             (validateDeliveryNotes (extractPotentialDeliveryNotes items)) 2 2 1 in
  In (js "26996798") (accepted (p_results p))
  /\ exists d, In d (duplicates (p_results p)) /\ d_value d = js "26996798".
Proof.
  apply (document_repeated_number
           [mkItem (js "26996798") 1; mkItem (js "2699 6798") 2] 2).
  - reflexivity.
  - reflexivity.
  - vm_compute. lia.
Defined.

(** *** The workbook *)

Lemma uniqueCount_distinct er :
  uniqueCount (validateDeliveryNotes er)
  = length (dedup ∅ (accepted (validateDeliveryNotes er))).
Proof.
  rewrite dedup_length. unfold validateDeliveryNotes.
  cbn [setUniqueCount uniqueCount accepted]. f_equal.
  apply set_eq. intros x. rewrite elem_of_difference, elem_of_empty. tauto.
Qed.

(** X18. A workbook is generated exactly when some value is accepted.  Its
    rows are then the distinct accepted values, one cell each, none twice,
    as many as [uniqueCount] says; the row with an empty cell is not among
    them.  Otherwise [uniqueCount] is 0 and the reason why there is no
    workbook is stored. *)
Theorem workbook_rows (er : ExtractionResult) :
  let r := validateDeliveryNotes er in
  match processFile r with
  | Workbook rows =>
    accepted r <> [] /\ length rows = uniqueCount r /\ List.NoDup rows
    /\ forall row, In row rows <-> exists x, row = [x] /\ In x (accepted r)
  | Empty _ => accepted r = [] /\ uniqueCount r = 0
  end.
Proof.
  cbn zeta. rewrite uniqueCount_distinct. unfold processFile.
  set (r := validateDeliveryNotes er).
  pose proof (dedup_nodup ∅ (accepted r)) as Hnd.
  assert (Hin : forall x, In x (dedup ∅ (accepted r)) <-> In x (accepted r)).
  { intros x. rewrite dedup_in. split; [tauto|]. intros H. split; [exact H|].
    apply not_elem_of_empty. }
  destruct (dedup ∅ (accepted r)) as [|a l] eqn:E.
  - assert (Ha : accepted r = []).
    { destruct (accepted r) as [|x xs]; [reflexivity|].
      destruct (proj2 (Hin x) (or_introl eq_refl)). }
    destruct (excluded r), (invalid r); (split; [exact Ha | reflexivity]).
  - unfold generateExcel.
    rewrite (dedup_fixed ∅ (a :: l) Hnd) by (intros; apply not_elem_of_empty).
    cbn [map]. repeat split.
    + intros Ha. rewrite Ha in E. discriminate.
    + cbn [length]. now rewrite length_map.
    + change (List.NoDup (map (fun note : list N => [note]) (a :: l))).
      apply Finite.Injective_map_NoDup; [|exact Hnd].
      intros x y [= ->]. reflexivity.
    + change (In row (map (fun note : list N => [note]) (a :: l)) ->
              exists x, row = [x] /\ In x (accepted r)).
      intros H. apply in_map_iff in H as (x & <- & Hx). exists x.
      split; [reflexivity | now apply Hin].
    + intros (x & -> & Hx). apply Hin in Hx.
      apply (in_map (fun note : list N => [note]) (a :: l) x Hx).
Qed.

End ExtractionFacts.

(** ** Page grouper: where the pages end up *)

Module PlacementFacts.
Import JS Token Grouper Placement GrouperFacts.

Lemma allPages_snoc gs g : allPages (gs ++ [g]) = allPages gs ++ pages g.
Proof.
  unfold allPages. rewrite map_app, concat_app. cbn. now rewrite app_nil_r.
Qed.

Lemma closeCurrent_open st g :
  currentGroup st = Some g -> pages g <> [] -> closeCurrent st = groups st ++ [g].
Proof.
  intros Ec Hp. unfold closeCurrent. now rewrite (openGroup_intro st g Ec Hp).
Qed.

(** Once a group is open every page is placed, at the end. *)
Lemma visitPage_open st p following g :
  currentGroup st = Some g -> pages g <> [] ->
  placed (visitPage st p following) = placed st ++ [p]
  /\ exists g', currentGroup (visitPage st p following) = Some g'
                /\ pages g' <> [].
Proof.
  intros Ec Hp. pose proof (openGroup_intro st g Ec Hp) as Eo.
  pose proof (closeCurrent_open st g Ec Hp) as Eclose.
  unfold visitPage, placed. rewrite Ec, Eo.
  destruct (truthy (cr p)); [destruct (bool_decide (g_cr g = cr p))|];
    cbn [groups currentGroup pushPages pages]; rewrite ?Eclose, ?allPages_snoc,
      <- ?app_assoc;
    (split; [reflexivity|]); eexists; (split; [reflexivity|]);
    cbn [pages pushPages]; try discriminate; now destruct (pages g).
Qed.

Lemma visitAll_open ps st g :
  currentGroup st = Some g -> pages g <> [] ->
  placed (visitAll st ps) = placed st ++ ps.
Proof.
  revert st g. induction ps as [|p ps IH]; intros st g Ec Hp; cbn [visitAll].
  - now rewrite app_nil_r.
  - destruct (visitPage_open st p ps g Ec Hp) as (E & g' & Ec' & Hp').
    rewrite (IH _ g' Ec' Hp'), E, <- app_assoc. reflexivity.
Qed.

(** Before that, a page opens a group or is dropped. *)
Lemma visitAll_from_start ps :
  placed (visitAll (mkLoop [] None) ps) = drop (leadingOrphans ps) ps.
Proof.
  induction ps as [|p ps IH]; [reflexivity|].
  cbn [visitAll leadingOrphans]. unfold visitPage.
  cbn [currentGroup openGroup closeCurrent groups].
  destruct (truthy (cr p)); cbn [orb].
  - erewrite visitAll_open; [reflexivity | reflexivity | discriminate].
  - destruct (truthy (lookAhead ps)).
    + erewrite visitAll_open; [reflexivity | reflexivity | discriminate].
    + rewrite IH. reflexivity.
Qed.

Lemma closeCurrent_placed st :
  wellFormed st -> allPages (closeCurrent st) = placed st.
Proof.
  intros W. unfold closeCurrent, placed. rewrite (openGroup_wellFormed st W).
  destruct (currentGroup st); [apply allPages_snoc | now rewrite app_nil_r].
Qed.

Lemma closed_pages ps :
  allPages (closeCurrent (visitAll (mkLoop [] None) ps))
  = drop (leadingOrphans ps) ps.
Proof.
  rewrite closeCurrent_placed
    by apply visitAll_wellFormed, wellFormed_init.
  apply visitAll_from_start.
Qed.

(** The merge moves pages between groups and loses none. *)
Lemma mergeGroup_permutation merged G :
  Permutation (allPages (mergeGroup merged G)) (allPages merged ++ pages G).
Proof.
  induction merged as [|m merged IH]; cbn [mergeGroup].
  - unfold allPages. cbn. now rewrite app_nil_r.
  - destruct (bool_decide (g_cr m = g_cr G)); unfold allPages in *;
      cbn [map concat pushPages pages].
    + rewrite <- !app_assoc. apply Permutation_app_head, Permutation_app_comm.
    + rewrite <- app_assoc. now apply Permutation_app_head.
Qed.

Lemma merge_permutation gs merged :
  Permutation (allPages (fold_left mergeGroup gs merged))
    (allPages merged ++ allPages gs).
Proof.
  revert merged. induction gs as [|g gs IH]; intros merged; cbn [fold_left].
  - unfold allPages at 3. cbn. now rewrite app_nil_r.
  - rewrite IH, mergeGroup_permutation, <- app_assoc. reflexivity.
Qed.

(** X19. Grouping places every page once.  The pages at the head of the
    document that are dropped are those that neither carry an identifier
    nor have one on the two pages after them, up to the first page that
    does; every page after them is in one group, and the groups hold
    nothing else. *)
Theorem pages_placed_once (ps : list Page) :
  Permutation (allPages (groupPagesByCR ps)) (drop (leadingOrphans ps) ps).
Proof.
  unfold groupPagesByCR. rewrite merge_permutation, closed_pages. reflexivity.
Qed.

(** The identifiers of the merged groups. *)
Lemma mergeGroup_keys merged G c :
  In c (map g_cr (mergeGroup merged G)) ->
  c = g_cr G \/ In c (map g_cr merged).
Proof.
  induction merged as [|m merged IH]; cbn [mergeGroup map In];
    [intros [<-|[]]; now left|].
  destruct (bool_decide_reflect (g_cr m = g_cr G)) as [E|E]; cbn [map In g_cr pushPages].
  - tauto.
  - intros [H|H]; [tauto|]. apply IH in H. tauto.
Qed.

Lemma mergeGroup_nodup merged G :
  List.NoDup (map g_cr merged) -> List.NoDup (map g_cr (mergeGroup merged G)).
Proof.
  induction merged as [|m merged IH]; cbn [mergeGroup map]; intros H.
  - repeat constructor. intros [].
  - apply List.NoDup_cons_iff in H as [Hm H].
    destruct (bool_decide_reflect (g_cr m = g_cr G)) as [E|E];
      cbn [map g_cr pushPages]; constructor; auto.
    intros Hin. apply mergeGroup_keys in Hin as [Hin|Hin]; [|contradiction].
    now apply E.
Qed.

Lemma groups_keys_nodup ps : List.NoDup (map g_cr (groupPagesByCR ps)).
Proof.
  unfold groupPagesByCR.
  generalize (closeCurrent (visitAll (mkLoop [] None) ps)).
  assert (H : List.NoDup (map g_cr ([] : list Group))) by constructor.
  revert H. generalize ([] : list Group).
  intros merged H gs. revert merged H.
  induction gs as [|g gs IH]; intros merged H; cbn [fold_left]; [exact H|].
  apply IH, mergeGroup_nodup, H.
Qed.

(** X20. No two groups of the result have the same identifier. *)
Theorem identifiers_distinct (ps : list Page) :
  List.NoDup (map g_cr (groupPagesByCR ps)).
Proof. apply groups_keys_nodup. Qed.

(** A page that a group holds stays in a group of that identifier. *)
Lemma visitPage_filed st p following c q :
  filed c q st -> filed c q (visitPage st p following).
Proof.
  intros (g & Hg & Hc & Hq).
  assert (Hp : pages g <> []) by (intros E; rewrite E in Hq; destruct Hq).
  unfold visitPage. destruct Hg as [Hg|Ec].
  - assert (Hclose : In g (closeCurrent st)).
    { unfold closeCurrent. destruct (openGroup st); [|exact Hg].
      apply in_app_iff. now left. }
    destruct (truthy (cr p)).
    + destruct (currentGroup st) as [g0|];
        [destruct (bool_decide (g_cr g0 = cr p))|];
        exists g; cbn [groups]; auto.
    + destruct (openGroup st); [|destruct (truthy (lookAhead following))];
        exists g; cbn [groups]; auto.
  - pose proof (openGroup_intro st g Ec Hp) as Eo.
    assert (Hclose : In g (closeCurrent st)).
    { rewrite (closeCurrent_open st g Ec Hp). apply in_app_iff. right. now left. }
    rewrite Ec, Eo.
    destruct (truthy (cr p)); [destruct (bool_decide (g_cr g = cr p))|].
    + exists (pushPages [p] g). cbn. split; [now right|]. split; [exact Hc|].
      apply in_app_iff. now left.
    + exists g. cbn [groups]. auto.
    + exists (pushPages [p] g). cbn. split; [now right|]. split; [exact Hc|].
      apply in_app_iff. now left.
Qed.

Lemma visitAll_filed ps st c q : filed c q st -> filed c q (visitAll st ps).
Proof.
  revert st. induction ps as [|p ps IH]; intros st H; cbn [visitAll]; [exact H|].
  apply IH, visitPage_filed, H.
Qed.

(** A page with an identifier is filed under it when it is visited. *)
Lemma visitPage_identified st p following :
  truthy (cr p) = true -> filed (cr p) p (visitPage st p following).
Proof.
  intros Hc. unfold visitPage. rewrite Hc.
  destruct (currentGroup st) as [g|];
    [destruct (bool_decide_reflect (g_cr g = cr p)) as [E|E]|].
  - exists (pushPages [p] g). cbn. split; [now right|]. split; [exact E|].
    apply in_app_iff. right. now left.
  - eexists. cbn. split; [right; reflexivity|]. cbn. auto.
  - eexists. cbn. split; [right; reflexivity|]. cbn. auto.
Qed.

Lemma visitAll_identified ps st p :
  In p ps -> truthy (cr p) = true -> filed (cr p) p (visitAll st ps).
Proof.
  revert st. induction ps as [|a ps IH]; intros st Hin Hc; [destruct Hin|].
  destruct Hin as [<-|Hin]; cbn [visitAll].
  - apply visitAll_filed, visitPage_identified, Hc.
  - now apply IH.
Qed.

Lemma closeCurrent_filed st c q :
  filed c q st -> exists g, In g (closeCurrent st) /\ g_cr g = c /\ In q (pages g).
Proof.
  intros (g & [Hg|Ec] & Hc & Hq); exists g; (split; [|auto]).
  - unfold closeCurrent. destruct (openGroup st); [|exact Hg].
    apply in_app_iff. now left.
  - assert (Hp : pages g <> []) by (intros E; rewrite E in Hq; destruct Hq).
    rewrite (closeCurrent_open st g Ec Hp). apply in_app_iff. right. now left.
Qed.

Lemma identified_page_group ps p :
  In p ps -> truthy (cr p) = true ->
  exists G, In G (groupPagesByCR ps) /\ g_cr G = cr p /\ In p (pages G).
Proof.
  intros Hin Hc.
  destruct (closeCurrent_filed _ _ _
              (visitAll_identified ps (mkLoop [] None) p Hin Hc))
    as (g & Hg & Hgc & Hq).
  destruct (merge_member _ [] g Hg) as (M & l1 & l2 & HM & HMc & HMp).
  exists M. split; [exact HM|]. split; [congruence|].
  rewrite HMp. apply in_app_iff. right. apply in_app_iff. now left.
Qed.

(** X21. A page that carries an identifier is in the group of that
    identifier, wherever it is in the document. *)
Theorem identified_page_in_its_group (ps : list Page) (p : Page) :
  In p ps -> truthy (cr p) = true ->
  exists G, In G (groupPagesByCR ps) /\ g_cr G = cr p /\ In p (pages G).
Proof. apply identified_page_group. Qed.

Lemma identified_page_in_its_group_witness :
  exists G, In G (groupPagesByCR sampleDocument)
            /\ g_cr G = cr (samplePage 3 (Some (js "577770")))
            /\ In (samplePage 3 (Some (js "577770"))) (pages G).
Proof.
  apply (identified_page_in_its_group sampleDocument
           (samplePage 3 (Some (js "577770")))).
  - cbn. tauto.
  - reflexivity.
Defined.

(** The merge keeps the pages of every group in the order of the groups. *)
Lemma mergeGroup_sublist L merged G :
  (forall m, In m merged -> sublist (pages m) L) ->
  forall M, In M (mergeGroup merged G) -> sublist (pages M) (L ++ pages G).
Proof.
  induction merged as [|m merged IH]; intros H M; cbn [mergeGroup].
  - intros [<-|[]]. apply sublist_inserts_l. reflexivity.
  - destruct (bool_decide (g_cr m = g_cr G)).
    + intros [<-|HM]; cbn [pages pushPages].
      * apply sublist_app; [apply H; now left | reflexivity].
      * apply sublist_inserts_r, H. now right.
    + intros [<-|HM].
      * apply sublist_inserts_r, H. now left.
      * apply IH; [|exact HM]. intros m' Hm'. apply H. now right.
Qed.

Lemma merge_sublist gs : forall L merged,
  (forall m, In m merged -> sublist (pages m) L) ->
  forall M, In M (fold_left mergeGroup gs merged) ->
            sublist (pages M) (L ++ allPages gs).
Proof.
  induction gs as [|g gs IH]; intros L merged H M; cbn [fold_left].
  - unfold allPages. cbn. rewrite app_nil_r. apply H.
  - intros HM. change (allPages (g :: gs)) with (pages g ++ allPages gs).
    rewrite app_assoc. apply (IH _ (mergeGroup merged g)); [|exact HM].
    now apply mergeGroup_sublist.
Qed.

(** X22. The pages of every group are pages of the document, in the order
    of the document. *)
Theorem group_pages_in_document_order (ps : list Page) (G : Group) :
  In G (groupPagesByCR ps) -> sublist (pages G) ps.
Proof.
  intros HG. unfold groupPagesByCR in HG.
  apply (merge_sublist _ [] []) in HG; [|intros m []].
  rewrite closed_pages in HG. cbn [app] in HG.
  etransitivity; [exact HG | apply sublist_drop].
Qed.

Lemma group_pages_in_document_order_witness :
  sublist
    [samplePage 1 None; samplePage 2 None; samplePage 3 (Some (js "577770"));
     samplePage 4 None]
    sampleDocument.
Proof.
  apply (group_pages_in_document_order sampleDocument
           (mkGroup (Some (js "577770")) (Some H01)
              [samplePage 1 None; samplePage 2 None;
               samplePage 3 (Some (js "577770")); samplePage 4 None])).
  vm_compute. left. reflexivity.
Defined.

End PlacementFacts.

(** ** White space between digits *)

Module SpacingFacts.
Import JS Locator Spacing.

Lemma space_not_digit c : isSpace c = true -> isDigit c = false.
Proof.
  intros H. destruct (isDigit c) eqn:E; [|reflexivity].
  now rewrite (TokenFacts.digit_not_space c E) in H.
Qed.

(** Case analysis on the class of a character. *)
Ltac classes c :=
  let Hs := fresh "Hs" in
  let Hd := fresh "Hd" in
  destruct (isSpace c) eqn:Hs;
  [pose proof (space_not_digit c Hs) as Hd; rewrite ?Hd
  |destruct (isDigit c) eqn:Hd].

(** White space after a digit is held back. *)
Lemma collapseFrom_spaces l : forall acc r,
  forallb isSpace l = true ->
  collapseFrom (Some acc) (l ++ r) = collapseFrom (Some (rev l ++ acc)) r.
Proof.
  induction l as [|c l IH]; intros acc r H; [reflexivity|].
  cbn [forallb] in H. apply andb_prop in H as [Hc Hl].
  cbn [app collapseFrom rev]. rewrite Hc, (IH _ _ Hl), <- app_assoc. reflexivity.
Qed.

Lemma collapseFrom_spaces_end l acc :
  forallb isSpace l = true -> collapseFrom (Some acc) l = rev acc ++ l.
Proof.
  intros H. rewrite <- (app_nil_r l) at 1. rewrite (collapseFrom_spaces l acc [] H).
  cbn [collapseFrom]. now rewrite rev_app_distr, rev_involutive.
Qed.

Lemma collapseFrom_spaces_other l acc c r :
  forallb isSpace l = true -> isSpace c = false -> isDigit c = false ->
  collapseFrom (Some acc) (l ++ c :: r)
  = rev acc ++ l ++ c :: collapseFrom None r.
Proof.
  intros H Hs Hd. rewrite (collapseFrom_spaces l acc _ H).
  cbn [collapseFrom]. rewrite Hs, Hd, rev_app_distr, rev_involutive, <- app_assoc.
  reflexivity.
Qed.

(** Without a digit before it, white space is passed on. *)
Lemma collapseFrom_passes l r :
  forallb isSpace l = true ->
  collapseFrom None (l ++ r) = l ++ collapseFrom None r.
Proof.
  induction l as [|c l IH]; intros H; [reflexivity|].
  cbn [forallb] in H. apply andb_prop in H as [Hc Hl].
  cbn [app collapseFrom]. rewrite (space_not_digit c Hc), (IH Hl). reflexivity.
Qed.

Lemma forallb_rev {A : Type} (f : A -> bool) l :
  forallb f (rev l) = forallb f l.
Proof.
  induction l as [|a l IH]; [reflexivity|].
  cbn [rev forallb]. rewrite forallb_app, IH. cbn. rewrite andb_true_r.
  apply andb_comm.
Qed.

(** Two passes remove the white space between any two digits. *)
Lemma two_passes s :
  collapseFrom None (collapseFrom None s) = squeezeFrom None s
  /\ (forall ws, forallb isSpace ws = true ->
        collapseFrom (Some []) (collapseFrom (Some ws) s)
        = squeezeFrom (Some ws) s)
  /\ (forall ws, forallb isSpace ws = true ->
        collapseFrom (Some ws) (collapseFrom None s) = squeezeFrom (Some ws) s)
  /\ (forall ws, forallb isSpace ws = true ->
        collapseFrom None (collapseFrom (Some ws) s) = squeezeFrom (Some ws) s).
Proof.
  induction s as [|c s (IHa & IHc & IHd & IHe)].
  - cbn [collapseFrom squeezeFrom]. repeat split; try reflexivity; intros ws H.
    + rewrite collapseFrom_spaces_end by now rewrite forallb_rev. reflexivity.
    + rewrite <- (app_nil_r (rev ws)) at 1.
      rewrite collapseFrom_passes by now rewrite forallb_rev.
      cbn. now rewrite app_nil_r.
  - repeat split.
    + cbn [collapseFrom squeezeFrom]. destruct (isDigit c) eqn:Hd;
        cbn [collapseFrom]; rewrite Hd; f_equal; [now apply IHc | exact IHa].
    + intros ws H. cbn [collapseFrom squeezeFrom]. classes c.
      * apply IHc. cbn [forallb]. now rewrite Hs.
      * destruct ws as [|w ws]; cbn [collapseFrom]; rewrite Hs, Hd; f_equal;
          [now apply IHc | now apply IHd].
      * rewrite collapseFrom_spaces_other by (auto; now rewrite forallb_rev).
        cbn [rev app]. now rewrite IHa.
    + intros ws H. cbn [collapseFrom squeezeFrom]. classes c.
      * cbn [collapseFrom]. rewrite Hs. apply IHd. cbn [forallb]. now rewrite Hs.
      * cbn [collapseFrom]. rewrite Hs, Hd.
        destruct ws as [|w ws]; f_equal; [now apply IHc | now apply IHe].
      * cbn [collapseFrom]. rewrite Hs, Hd, IHa. reflexivity.
    + intros ws H. cbn [collapseFrom squeezeFrom]. classes c.
      * apply IHe. cbn [forallb]. now rewrite Hs.
      * destruct ws as [|w ws]; cbn [collapseFrom]; rewrite Hd; f_equal;
          [now apply IHc | now apply IHd].
      * rewrite collapseFrom_passes by now rewrite forallb_rev.
        cbn [collapseFrom]. rewrite Hd, IHa. reflexivity.
Qed.

(** What a scan for a gap makes of white space. *)
Lemma hasGapFrom_spaces l : forall b r,
  forallb isSpace l = true ->
  hasGapFrom (Some b) (l ++ r)
  = hasGapFrom (Some (match l with [] => b | _ => true end)) r.
Proof.
  induction l as [|c l IH]; intros b r H; [reflexivity|].
  cbn [forallb] in H. apply andb_prop in H as [Hc Hl].
  cbn [app hasGapFrom]. rewrite Hc, (IH _ _ Hl). now destruct l.
Qed.

Lemma squeezeFrom_no_gap s :
  hasGapFrom None (squeezeFrom None s) = false
  /\ forall ws, forallb isSpace ws = true ->
       hasGapFrom (Some false) (squeezeFrom (Some ws) s) = false.
Proof.
  induction s as [|c s [IHn IHs]].
  - split; [reflexivity|]. intros ws H. cbn [squeezeFrom].
    rewrite <- (app_nil_r (rev ws)), hasGapFrom_spaces by now rewrite forallb_rev.
    reflexivity.
  - split.
    + cbn [squeezeFrom]. destruct (isDigit c) eqn:Hd; cbn [hasGapFrom]; rewrite Hd;
        [now apply IHs | exact IHn].
    + intros ws H. cbn [squeezeFrom]. classes c.
      * apply IHs. cbn [forallb]. now rewrite Hs.
      * cbn [hasGapFrom]. rewrite Hs, Hd. now apply IHs.
      * rewrite hasGapFrom_spaces by now rewrite forallb_rev.
        cbn [hasGapFrom]. now rewrite Hs, Hd.
Qed.

(** A pass leaves a text without gap as it is. *)
Lemma collapseFrom_no_gap s :
  (hasGapFrom None s = false -> collapseFrom None s = s)
  /\ (hasGapFrom (Some false) s = false -> collapseFrom (Some []) s = s)
  /\ (hasGapFrom (Some true) s = false ->
      forall ws, collapseFrom (Some ws) s = rev ws ++ s).
Proof.
  induction s as [|c s (IHn & IHd & IHw)].
  - repeat split; intros _; try reflexivity. intros ws. cbn. now rewrite app_nil_r.
  - repeat split; cbn [hasGapFrom collapseFrom].
    + destruct (isDigit c); intros H; f_equal; auto.
    + classes c; intros H.
      * now rewrite (IHw H).
      * f_equal. auto.
      * cbn. f_equal. auto.
    + classes c; intros H ws.
      * rewrite (IHw H). cbn [rev]. now rewrite <- app_assoc.
      * discriminate.
      * f_equal. f_equal. auto.
Qed.

(** No carriage return is left, and no character is invented. *)
Lemma normalizeNewlines_no_return n : forall s c,
  length s <= n -> In c (normalizeNewlines s) -> c <> 13%N.
Proof.
  induction n as [|n IH]; intros [|a s] c Hl; cbn [normalizeNewlines];
    try (intros []); cbn [length] in Hl; [lia|].
  destruct (N.eqb_spec a 13) as [->|Ha].
  - destruct s as [|d s].
    + intros [<-|[]]. discriminate.
    + destruct (d =? 10)%N; intros [<-|H]; try discriminate;
        apply (IH _ c) in H; auto; cbn [length] in *; lia.
  - intros [<-|H]; [exact Ha|]. apply (IH _ c) in H; auto. lia.
Qed.

Lemma normalizeNewlines_fixed s :
  (forall c, In c s -> c <> 13%N) -> normalizeNewlines s = s.
Proof.
  induction s as [|a s IH]; intros H; [reflexivity|]. cbn [normalizeNewlines].
  destruct (N.eqb_spec a 13) as [->|Ha]; [now destruct (H 13%N (or_introl eq_refl))|].
  f_equal. apply IH. intros c Hc. apply H. now right.
Qed.

Lemma squeezeFrom_members s : forall held c,
  In c (squeezeFrom held s) ->
  In c s \/ exists ws, held = Some ws /\ In c ws.
Proof.
  induction s as [|a s IH]; intros held c; cbn [squeezeFrom].
  - destruct held as [ws|]; [|intros []].
    intros H. right. exists ws. split; [reflexivity | now apply in_rev].
  - destruct held as [ws|].
    + destruct (isSpace a).
      * intros H. apply IH in H as [H|(ws' & [= <-] & [<-|H])];
          [left; now right | left; now left | right; eauto].
      * destruct (isDigit a).
        -- intros [<-|H]; [left; now left|].
           apply IH in H as [H|(ws' & [= <-] & [])]. left. now right.
        -- intros H. apply in_app_iff in H as [H|[<-|H]].
           ++ right. exists ws. split; [reflexivity | now apply in_rev].
           ++ left. now left.
           ++ apply IH in H as [H|(ws' & [=] & _)]. left. now right.
    + destruct (isDigit a); intros [<-|H]; try (left; now left).
      * apply IH in H as [H|(ws' & [= <-] & [])]. left. now right.
      * apply IH in H as [H|(ws' & [=] & _)]. left. now right.
Qed.

Lemma normalizeOCRText_squeezed text :
  normalizeOCRText text = squeezeFrom None (normalizeNewlines text).
Proof.
  unfold normalizeOCRText, collapseDigitGaps.
  destruct (two_passes (normalizeNewlines text)) as (-> & _).
  apply (collapseFrom_no_gap (squeezeFrom None (normalizeNewlines text))).
  apply squeezeFrom_no_gap.
Qed.

(** X23. [normalizeOCRText] leaves no white space between two digits,
    however many digits are spaced out: the result has no match of
    [/\d\s+\d/].  The first two passes are enough for that, the third never
    changes anything, and normalising twice gives what normalising once
    gives. *)
Theorem normalizeOCRText_closes_gaps (text : list N) :
  hasDigitGap (normalizeOCRText text) = false
  /\ normalizeOCRText text
     = collapseDigitGaps (collapseDigitGaps (normalizeNewlines text))
  /\ normalizeOCRText (normalizeOCRText text) = normalizeOCRText text.
Proof.
  pose proof (normalizeOCRText_squeezed text) as E.
  pose proof (proj1 (squeezeFrom_no_gap (normalizeNewlines text))) as Hgap.
  split; [|split].
  - unfold hasDigitGap. now rewrite E.
  - rewrite E. unfold collapseDigitGaps.
    now destruct (two_passes (normalizeNewlines text)) as (-> & _).
  - assert (Hg : hasGapFrom None (normalizeOCRText text) = false)
      by now rewrite E.
    assert (Hfix : normalizeNewlines (normalizeOCRText text)
                   = normalizeOCRText text).
    { apply normalizeNewlines_fixed. intros c Hc. rewrite E in Hc.
      apply squeezeFrom_members in Hc as [Hc|(ws & [=] & _)].
      eapply normalizeNewlines_no_return; [reflexivity | exact Hc]. }
    clear E Hgap. set (X := normalizeOCRText text) in *.
    unfold normalizeOCRText, collapseDigitGaps. rewrite Hfix.
    now rewrite !(proj1 (collapseFrom_no_gap X) Hg).
Qed.

(** One pass is not enough: the digit that closes a gap does not open the
    next one. *)
Example one_pass_leaves_gaps :
  collapseDigitGaps (js "5 7 7 7 7 0") = js "57 77 70"
  /\ collapseDigitGaps (collapseDigitGaps (js "5 7 7 7 7 0")) = js "577770".
Proof. split; reflexivity. Qed.

End SpacingFacts.

(** ** From the pages of a file to its manifest *)

Module DocumentsFacts.
Import JS Token Grouper Placement Documents GrouperFacts PlacementFacts.

Section WithHost.

Variable toUpperCase : list N -> list N.
Variable exec : Locator.Pattern -> list N -> option Locator.Match.
Variable matchAll : Locator.Pattern -> list N -> list Locator.Match.
Variable verify : Group -> list N + Verification.RegionVerification.

Local Abbreviation findCRs := (Locator.findCRsOnText toUpperCase exec matchAll).

(** The locator returns nothing, or one match of a valid shape. *)
Lemma findCRsOnText_shape text :
  findCRs text = []
  \/ exists r, findCRs text = [r] /\ isValidCR (Locator.value r) = true.
Proof.
  unfold Locator.findCRsOnText. destruct text as [|c0 t0] eqn:Et; [now left|].
  rewrite <- Et. clear Et c0 t0.
  destruct (Locator.firstSome _ [Locator.normalizeOCRText text; text])
    as [r1|] eqn:E1.
  { right. exists r1. split; [reflexivity|].
    refine (LocatorFacts.firstSome_sound
              (fun r => isValidCR (Locator.value r) = true) _ _ _ _ E1).
    intros t r Hs.
    refine (LocatorFacts.firstSome_sound
              (fun r => isValidCR (Locator.value r) = true) _ _ _ _ Hs).
    intros rx r'. apply LocatorFacts.tryDirect_valid. }
  destruct (Locator.firstSome (Locator.tryStrictAnchor _ _ _) _) as [r2|] eqn:E2.
  { right. exists r2. split; [reflexivity|].
    refine (LocatorFacts.firstSome_sound
              (fun r => isValidCR (Locator.value r) = true) _ _ _ _ E2).
    intros rx r. apply LocatorFacts.tryStrictAnchor_valid. }
  destruct (Locator.firstSome (Locator.tryBroadAnchor _ _ _) _) as [r3|] eqn:E3.
  { right. exists r3. split; [reflexivity|].
    refine (LocatorFacts.firstSome_sound
              (fun r => isValidCR (Locator.value r) = true) _ _ _ _ E3).
    intros rx r. apply LocatorFacts.tryBroadAnchor_valid. }
  destruct (LocatorFacts.globalSearch_valid toUpperCase exec matchAll
              (Locator.normalizeOCRText text)) as [Hlen Hval].
  destruct (Locator.globalSearch _ _ _ _) as [|r [|r' rest]]; [now left| |].
  - right. exists r. split; [reflexivity|]. apply Hval. now left.
  - cbn in Hlen. lia.
Qed.

Lemma chooseValidCRs_single r relax :
  isValidCR (Locator.value r) = true -> chooseValidCRs [r] relax = [r].
Proof.
  intros H. unfold chooseValidCRs. cbn [List.filter]. rewrite H.
  cbn [List.filter]. unfold isHigh, Locator.isMedium.
  destruct (Locator.confidence r); reflexivity.
Qed.

Lemma valid_truthy v : isValidCR v = true -> truthy (Some v) = true.
Proof. destruct v; [discriminate | reflexivity]. Qed.

(** X24. The filter of [chooseValidCRs] never drops what the locator
    found.  A page record has an identifier exactly when the locator finds
    a match on the text of the page; the identifier is then the value of
    that match, a string of one of the two accepted shapes, and the type of
    the page that of the match. *)
Theorem page_identifier (relax : bool) (i : nat) (pageText : list N)
    (ocr : bool) :
  chooseValidCRs (findCRs pageText) relax = findCRs pageText
  /\ let page := pageRecord toUpperCase exec matchAll relax i pageText ocr in
     (cr page = None <-> findCRs pageText = [])
     /\ forall v, cr page = Some v ->
          isValidCR v = true /\ truthy (cr page) = true
          /\ exists r, findCRs pageText = [r] /\ Locator.value r = v
                       /\ crType page = Some (Locator.type r).
Proof.
  assert (E : chooseValidCRs (findCRs pageText) relax = findCRs pageText).
  { destruct (findCRsOnText_shape pageText) as [->|(r & -> & Hr)];
      [reflexivity | now apply chooseValidCRs_single]. }
  split; [exact E|]. cbn zeta. unfold pageRecord. cbn [cr crType]. rewrite E.
  destruct (findCRsOnText_shape pageText) as [->|(r & -> & Hr)].
  - split; [tauto|]. discriminate.
  - split; [split; discriminate|]. intros v [= <-].
    split; [exact Hr|]. split; [now apply valid_truthy|]. eauto.
Qed.






(** *** The manifest of a file without digital signature *)

Lemma groups_identified ps G : In G (groupPagesByCR ps) -> identified G.
Proof.
  revert G. unfold groupPagesByCR. apply merge_identified.
  - intros G. apply closeCurrent_wellFormed, visitAll_wellFormed, wellFormed_init.
  - intros ? [].
Qed.

Lemma processGroup_identified fileName acc g :
  truthy (g_cr g) = true ->
  processGroup verify fileName acc g
  = mkOutput (o_input acc) (o_pages acc)
      (manifestEntries acc ++ [groupEntry verify fileName g])
      (generated acc ++ groupFile verify g)
      (manual acc ++ groupMessage verify fileName g).
Proof.
  intros H. unfold processGroup, groupEntry, groupFile, groupMessage. rewrite H.
  cbn [negb]. destruct (verify g) as [message|v].
  - now rewrite !app_nil_r.
  - destruct (needsManualReview _); [reflexivity | now rewrite app_nil_r].
Qed.

Lemma processGroups_identified fileName gs : forall acc,
  (forall g, In g gs -> truthy (g_cr g) = true) ->
  fold_left (processGroup verify fileName) gs acc
  = mkOutput (o_input acc) (o_pages acc)
      (manifestEntries acc ++ map (groupEntry verify fileName) gs)
      (generated acc ++ flat_map (groupFile verify) gs)
      (manual acc ++ flat_map (groupMessage verify fileName) gs).
Proof.
  induction gs as [|g gs IH]; intros acc H; cbn [fold_left map flat_map].
  - rewrite !app_nil_r. now destruct acc.
  - rewrite IH by (intros g' Hg'; apply H; now right).
    rewrite processGroup_identified by (apply H; now left).
    cbn [o_input o_pages manifestEntries generated manual].
    now rewrite <- !app_assoc.
Qed.

Lemma processPages_unsigned fileName pages :
  let gs := groupPagesByCR pages in
  processPages toUpperCase exec matchAll verify fileName pages false
  = mkOutput fileName (length pages)
      (match gs with
       | [] => [noGroupEntry fileName (length pages)]
       | _ :: _ => map (groupEntry verify fileName) gs
       end)
      (flat_map (groupFile verify) gs)
      (flat_map (groupMessage verify fileName) gs).
Proof.
  cbn zeta. unfold processPages.
  rewrite processGroups_identified
    by (intros g Hg; apply (groups_identified pages g Hg)).
  cbn [o_input o_pages manifestEntries generated manual app].
  destruct (groupPagesByCR pages) as [|g gs]; reflexivity.
Qed.



Lemma some_identifier_or_none (pages : list Page) :
  (forall p, In p pages -> truthy (cr p) = false)
  \/ exists p, In p pages /\ truthy (cr p) = true.
Proof.
  induction pages as [|p pages [IH|(q & Hq & Ht)]].
  - left. intros p [].
  - destruct (truthy (cr p)) eqn:E.
    + right. exists p. split; [now left | exact E].
    + left. intros q [<-|Hq]; [exact E | now apply IH].
  - right. exists q. split; [now right | exact Ht].
Qed.

Lemma groupEntry_status fileName g :
  e_status (groupEntry verify fileName g) <> js "NO_CR_FOUND".
Proof.
  unfold groupEntry. destruct (verify g) as [m|v]; cbn [e_status];
    [discriminate|].
  destruct (Verification.overallStatus v); discriminate.
Qed.

(** X27. A file without digital signature gets the entry [NO_CR_FOUND]
    exactly when none of its pages carries an identifier; nothing is then
    generated and no message is left. *)
Theorem no_identifier_entry (fileName : list N) (pages : list Page) :
  let out := processPages toUpperCase exec matchAll verify fileName pages false in
  ((forall p, In p pages -> truthy (cr p) = false) <->
   In (js "NO_CR_FOUND") (map e_status (manifestEntries out)))
  /\ ((forall p, In p pages -> truthy (cr p) = false) ->
      manifestEntries out = [noGroupEntry fileName (length pages)]
      /\ generated out = [] /\ manual out = []).
Proof.
  cbn zeta. rewrite processPages_unsigned.
  cbn [manifestEntries generated manual].
  assert (Hnone : (forall p, In p pages -> truthy (cr p) = false) ->
                  groupPagesByCR pages = []).
  { intros H. unfold groupPagesByCR. now rewrite no_identifier_no_visit. }
  split.
  - split.
    + intros H. rewrite (Hnone H). now left.
    + intros Hin. destruct (some_identifier_or_none pages) as [H|(p & Hp & Ht)];
        [exact H|].
      destruct (identified_page_group pages p Hp Ht) as (G & HG & _).
      destruct (groupPagesByCR pages) as [|g gs]; [destruct HG|].
      apply in_map_iff in Hin as (e & He & Hin).
      apply in_map_iff in Hin as (g' & <- & _).
      now apply groupEntry_status in He.
  - intros H. rewrite (Hnone H). auto.
Qed.

(** *** The counters of a run *)




Lemma filter_map_length {A B : Type} (f : B -> bool) (g : A -> B) l :
  length (List.filter f (map g l))
  = length (List.filter (fun x => f (g x)) l).
Proof.
  induction l as [|a l IH]; [reflexivity|]. cbn [map List.filter].
  destruct (f (g a)); cbn [length]; now rewrite IH.
Qed.




End WithHost.

(** *** When a document is complete *)

Section Measurements.

Variable num : Type.
Variable geb gtb : num -> num -> bool.
Variable falsy : num -> bool.
Variable times : num -> num -> num.
Variable lit_0_5 lit_0_1 defaultBlueThreshold : num.

(** X29. A group is verified as [COMPLETE] exactly when the blue density of
    the region reaches the threshold, the strokes show a signature in black
    ink or a signature pattern, and the date field is filled; in every
    other case a manual-review message is left for it. *)
Theorem complete_exactly (configBlue : option num)
    (analysis : Verification.ROIAnalysis num)
    (dateAnalysis : Verification.DateAnalysis)
    (signatureAnalysis : Verification.StrokeAnalysis num) :
  let v := Verification.analyzeStampAndSignature num geb gtb falsy times
             lit_0_5 lit_0_1 defaultBlueThreshold configBlue analysis
             dateAnalysis signatureAnalysis in
  (Verification.overallStatus v = Verification.COMPLETE <->
   geb (Verification.blueDensity num analysis)
     (Verification.blueThresholdOf num falsy defaultBlueThreshold configBlue)
   = true
   /\ (Verification.hasBlackInkSignature num signatureAnalysis
       || Verification.hasSignaturePattern num signatureAnalysis) = true
   /\ Verification.hasDate dateAnalysis = true)
  /\ (needsManualReview (Verification.overallStatus v) = false <->
      Verification.overallStatus v = Verification.COMPLETE).
Proof.
  cbn zeta. unfold Verification.analyzeStampAndSignature.
  cbn [Verification.overallStatus].
  unfold Verification.stampOf, Verification.signatureOf.
  destruct (geb (Verification.blueDensity num analysis) _);
    [|destruct (geb _ _)];
    (destruct (Verification.hasBlackInkSignature num signatureAnalysis);
     [|destruct (Verification.hasSignaturePattern num signatureAnalysis);
       [|destruct (_ && _)]]);
    destruct (Verification.hasDate dateAnalysis);
    cbn; (split; split); intuition discriminate.
Qed.

End Measurements.

End DocumentsFacts.
